(** * Pose-track Kalman filter of [kalman_filter.py]: a shallow embedding

    The development follows the Python source top to bottom:

    - [exn], [result]: the Python exceptions the code can end in;
    - [Module np]: the fragment of numpy used by [kalman_filter]
      (arrays as a shape plus row-major float64 data);
    - [Module py]: Python list objects on a heap, so that the aliasing created
      by [[[None] * n] * (n + 1)] is kept;
    - [Section Filter]: [kalman_filter] itself, split at the comments of the
      source into channel extraction, angle unwrapping, trimming and the
      recursion;
    - [load_object_poses] and the script at the end of the file, which feed
      [kalman_filter] (the parsed JSON file is their input);
    - the theorems about them.

    Scalars are IEEE-754 binary64 numbers (Rocq's primitive floats), which is
    what numpy's float64 is.  [scipy]'s [Rotation.from_matrix(..).as_euler],
    [np.linalg.pinv] and the power [**] of Python floats (the C library's
    [pow], with Python's [OverflowError]) are library routines whose
    numerical values are not part of this repository: they are parameters
    of [Section Filter]. *)

From Stdlib Require Import List String ZArith Lia Bool Floats.
From stdpp Require Import base list gmap strings pretty.
Import ListNotations.

Set Warnings "-inexact-float".
Set Default Proof Using "Type*".

Local Open Scope nat_scope.

(** ** Exceptions *)

(** The ways in which the modelled code can fail.  Every constructor stands
    for one Python exception; [py_class] gives its class. *)
Inductive exn : Type :=
| BroadcastError (s1 s2 : list nat)
    (* ValueError: operands could not be broadcast together with shapes s1 s2 *)
| MatmulMismatch (s1 s2 : list nat)
    (* ValueError: matmul: Input operand 1 has a mismatch in its core dimension 0 *)
| ReshapeError (size : nat)
    (* ValueError: cannot reshape array of size [size] into shape (3) *)
| AssignMismatch (have want : nat)
    (* ValueError: shape mismatch: value array of shape (have,) could not be
       broadcast to indexing result of shape (want,) *)
| Inhomogeneous
    (* ValueError: setting an array element with a sequence (ragged input) *)
| EmptyReduction
    (* ValueError: zero-size array to reduction operation minimum which has
       no identity *)
| TooManyIndices
    (* IndexError: too many indices for array *)
| IndexOutOfBounds (i bound : nat)
    (* IndexError: index i is out of bounds for axis with size bound *)
| ListIndexError
    (* IndexError: list index out of range *)
| NoneOperand
    (* TypeError: unsupported operand type(s): 'NoneType' *)
| ZerosMissingShape
    (* TypeError: zeros() missing required argument 'shape' (pos 0) *)
| FloatOverflow
    (* OverflowError: (34, 'Numerical result out of range') *)
| LibraryError (cls : string)
    (* an exception of class [cls] raised inside scipy/LAPACK, e.g.
       LinAlgError: SVD did not converge *)
| Unsupported.
    (* a use of numpy outside the fragment modelled here (arrays of more than
       two dimensions); never reached by [kalman_filter] *)

Definition py_class (e : exn) : string :=
  match e with
  | BroadcastError _ _ | MatmulMismatch _ _ | ReshapeError _
  | AssignMismatch _ _ | Inhomogeneous | EmptyReduction => "ValueError"
  | TooManyIndices | IndexOutOfBounds _ _ | ListIndexError => "IndexError"
  | NoneOperand | ZerosMissingShape => "TypeError"
  | FloatOverflow => "OverflowError"
  | LibraryError cls => cls
  | Unsupported => "NotImplementedError"
  end.

Definition result (A : Type) : Type := (exn + A)%type.

Definition ret {A} (a : A) : result A := inr a.
Definition raise {A} (e : exn) : result A := inl e.
Definition bind {A B} (m : result A) (k : A -> result B) : result B :=
  match m with
  | inl e => inl e
  | inr a => k a
  end.

Notation "x <- m ;; k" := (bind m (fun x => k))
  (at level 100, m at next level, right associativity).

(** [for v in l: s = body s v], stopping at the first exception. *)
Fixpoint for_ {S A} (l : list A) (s : S) (body : S -> A -> result S) : result S :=
  match l with
  | [] => ret s
  | a :: l' => s' <- body s a ;; for_ l' s' body
  end.

(** ** The numpy fragment *)

Module np.

Local Open Scope float_scope.

(** [np.pi] and [np.nan] as float64 values. *)
Definition pi : float := 0x1.921fb54442d18p+1.
Definition nan : float := PrimFloat.nan.

(** An array: its shape and its elements in row-major (C) order. *)
Record ndarray : Type := NDArray { shape : list nat; data : list float }.

Definition numel (s : list nat) : nat := foldr Nat.mul 1%nat s.

Definition item (d : list float) (k : nat) : float := nth k d 0.

(** Element [(i, j)] of a two-dimensional array with [c] columns. *)
Definition at2 (c : nat) (d : list float) (i j : nat) : float :=
  item d (i * c + j).

Definition tabulate (n : nat) (f : nat -> float) : list float :=
  map f (seq 0 n).

Definition tabulate2 (r c : nat) (f : nat -> nat -> float) : list float :=
  flat_map (fun i => tabulate c (f i)) (seq 0 r).

(** *** Constructors *)

Definition zeros (s : list nat) : ndarray := NDArray s (replicate (numel s) 0).
Definition full (s : list nat) (v : float) : ndarray :=
  NDArray s (replicate (numel s) v).
Definition eye (n : nat) : ndarray :=
  NDArray [n; n] (tabulate2 n n (fun i j => if (i =? j)%nat then 1 else 0)).
Definition diag (v : list float) : ndarray :=
  let n := length v in
  NDArray [n; n] (tabulate2 n n (fun i j => if (i =? j)%nat then item v i else 0)).

(** [np.array(rows)] of a rectangular nested list literal. *)
Definition array2d (rows : list (list float)) : ndarray :=
  NDArray [length rows; length (hd [] rows)] (concat rows).

(** [np.array(l)] of a Python list of arrays: the empty list gives an
    array of shape [(0,)], arrays of one common shape are stacked. *)
Definition array (l : list ndarray) : result ndarray :=
  match l with
  | [] => ret (NDArray [0%nat] [])
  | a :: _ =>
      if forallb (fun b => bool_decide (shape b = shape a)) l
      then ret (NDArray (length l :: shape a) (flat_map data l))
      else raise Inhomogeneous
  end.

Definition arange (start stop step : nat) : list nat :=
  map (fun k => (start + k * step)%nat) (seq 0 ((stop - start + step - 1) / step)).

(** [len(A)]: numpy arrays of the program always have a first axis. *)
Definition len (A : ndarray) : nat := hd 0%nat (shape A).

(** *** Element-wise arithmetic with broadcasting *)

Definition as2d (s : list nat) : option (nat * nat) :=
  match s with
  | [c] => Some (1%nat, c)
  | [r; c] => Some (r, c)
  | _ => None
  end.

Definition bdim (a b : nat) : option nat :=
  if (a =? b)%nat then Some a
  else if (a =? 1)%nat then Some b
  else if (b =? 1)%nat then Some a
  else None.

(** Element [(i, j)] of an [(r, c)] operand stretched to the result shape. *)
Definition bat (r c : nat) (d : list float) (i j : nat) : float :=
  at2 c d (if (r =? 1)%nat then 0%nat else i) (if (c =? 1)%nat then 0%nat else j).

Definition elementwise (f : float -> float -> float) (A B : ndarray) : result ndarray :=
  match as2d (shape A), as2d (shape B) with
  | Some (ra, ca), Some (rb, cb) =>
      match bdim ra rb, bdim ca cb with
      | Some r, Some c =>
          let d := tabulate2 r c (fun i j => f (bat ra ca (data A) i j) (bat rb cb (data B) i j)) in
          ret (NDArray (match shape A, shape B with [_], [_] => [c] | _, _ => [r; c] end) d)
      | _, _ => raise (BroadcastError (shape A) (shape B))
      end
  | _, _ => raise Unsupported
  end.

Definition add := elementwise PrimFloat.add.
Definition sub := elementwise PrimFloat.sub.

(** [A * s] for a Python scalar [s]. *)
Definition scale (A : ndarray) (s : float) : ndarray :=
  NDArray (shape A) (map (fun a => a * s) (data A)).

(** *** Linear algebra *)

(** Dot product, accumulated left to right.  BLAS may associate the sum
    differently; nothing below depends on how a finite sum is rounded. *)
Definition dot (k : nat) (f g : nat -> float) : float :=
  fold_left (fun acc l => acc + f l * g l) (seq 0 k) 0.

(** [A @ B] for a matrix [A] and a matrix or vector [B]. *)
Definition matmul (A B : ndarray) : result ndarray :=
  match shape A, shape B with
  | [m; k], [k'; n] =>
      if (k =? k')%nat
      then ret (NDArray [m; n]
                  (tabulate2 m n (fun i j =>
                     dot k (fun l => at2 k (data A) i l) (fun l => at2 n (data B) l j))))
      else raise (MatmulMismatch (shape A) (shape B))
  | [m; k], [k'] =>
      if (k =? k')%nat
      then ret (NDArray [m]
                  (tabulate m (fun i =>
                     dot k (fun l => at2 k (data A) i l) (fun l => item (data B) l))))
      else raise (MatmulMismatch (shape A) (shape B))
  | _, _ => raise Unsupported
  end.

(** [A.T]: a vector is its own transpose. *)
Definition T (A : ndarray) : ndarray :=
  match shape A with
  | [r; c] => NDArray [c; r] (tabulate2 c r (fun i j => at2 c (data A) j i))
  | _ => A
  end.

Definition kron (A B : ndarray) : result ndarray :=
  match shape A, shape B with
  | [ra; ca], [rb; cb] =>
      ret (NDArray [ra * rb; ca * cb]%nat
             (tabulate2 (ra * rb) (ca * cb) (fun i j =>
                at2 ca (data A) (i / rb) (j / cb) * at2 cb (data B) (i mod rb) (j mod cb))))
  | _, _ => raise Unsupported
  end.

(** *** Indexing *)

(** [A[i]]: row [i] of a matrix. *)
Definition getrow (A : ndarray) (i : nat) : result ndarray :=
  match shape A with
  | [r; c] =>
      if (i <? r)%nat
      then ret (NDArray [c] (take c (drop (i * c) (data A))))
      else raise (IndexOutOfBounds i r)
  | _ => raise Unsupported
  end.

(** [A[:, j]]. *)
Definition getcol (A : ndarray) (j : nat) : result ndarray :=
  match shape A with
  | [_] => raise TooManyIndices
  | [r; c] =>
      if (j <? c)%nat
      then ret (NDArray [r] (tabulate r (fun i => at2 c (data A) i j)))
      else raise (IndexOutOfBounds j c)
  | _ => raise Unsupported
  end.

(** [A[lo:hi]] on the first axis of a matrix; Python clamps the bounds. *)
Definition slice_rows (A : ndarray) (lo hi : nat) : result ndarray :=
  match shape A with
  | [r; c] =>
      let lo' := Nat.min lo r in
      let hi' := Nat.min hi r in
      ret (NDArray [hi' - lo'; c]%nat (take ((hi' - lo') * c) (drop (lo' * c) (data A))))
  | _ => raise Unsupported
  end.

(** [A[i][j]] *)
Definition getitem2 (A : ndarray) (i j : nat) : result float :=
  match shape A with
  | [r; c] =>
      if negb (i <? r)%nat then raise (IndexOutOfBounds i r)
      else if negb (j <? c)%nat then raise (IndexOutOfBounds j c)
      else ret (at2 c (data A) i j)
  | _ => raise Unsupported
  end.

(** [A[i, j] = v] (also [A[i][j] = v]: a row is a view). *)
Definition setitem2 (A : ndarray) (i j : nat) (v : float) : result ndarray :=
  match shape A with
  | [r; c] =>
      if negb (i <? r)%nat then raise (IndexOutOfBounds i r)
      else if negb (j <? c)%nat then raise (IndexOutOfBounds j c)
      else ret (NDArray [r; c] (<[(i * c + j)%nat := v]> (data A)))
  | _ => raise Unsupported
  end.

(** [A[idx] = V] for a vector [A], a list of indices and a vector [V] of
    the same length. *)
Definition set_indices (A : ndarray) (idx : list nat) (V : ndarray) : result ndarray :=
  match shape A, shape V with
  | [n], [m] =>
      if negb (m =? length idx)%nat then raise (AssignMismatch m (length idx))
      else if negb (forallb (fun k => k <? n)%nat idx)
           then raise (IndexOutOfBounds (list_max idx) n)
      else ret (NDArray [n]
                  (fold_left (fun d kv => <[fst kv := snd kv]> d)
                     (combine idx (data V)) (data A)))
  | _, _ => raise Unsupported
  end.

(** [np.r_[a, b]] of two vectors. *)
Definition r_ (A B : ndarray) : result ndarray :=
  match shape A, shape B with
  | [a], [b] => ret (NDArray [a + b]%nat (data A ++ data B))
  | _, _ => raise Unsupported
  end.

(** *** Masks *)

Definition isnan (A : ndarray) : list bool := map PrimFloat.is_nan (data A).
Definition invert (m : list bool) : list bool := map negb m.

(** [A[mask]]: the selected elements, as a vector. *)
Definition select (A : ndarray) (mask : list bool) : ndarray :=
  let d := map fst (List.filter snd (combine (data A) mask)) in
  NDArray [length d] d.

Fixpoint scatter (d : list float) (mask : list bool) (v : list float) : list float :=
  match d, mask with
  | a :: d', true :: m' =>
      match v with
      | b :: v' => b :: scatter d' m' v'
      | [] => a :: scatter d' m' []
      end
  | a :: d', false :: m' => a :: scatter d' m' v
  | _, _ => d
  end.

(** [A[mask] = V] for a vector [V] with one element per selected place, as
    line 81 assigns back what line 74 selected. *)
Definition assign (A : ndarray) (mask : list bool) (V : ndarray) : result ndarray :=
  let want := length (List.filter id mask) in
  if (length (data V) =? want)%nat
  then ret (NDArray (shape A) (scatter (data A) mask (data V)))
  else raise (AssignMismatch (length (data V)) want).

(** [A.reshape((-1, 3))] and [A.reshape((-1))]. *)
Definition reshape_m1_3 (A : ndarray) : result ndarray :=
  let n := length (data A) in
  if (n mod 3 =? 0)%nat then ret (NDArray [n / 3; 3]%nat (data A))
  else raise (ReshapeError n).
Definition reshape_m1 (A : ndarray) : ndarray :=
  NDArray [length (data A)] (data A).

(** [np.nonzero(mask)[0]], and [np.min]/[np.max] of such an index array. *)
Definition nonzero (mask : list bool) : list nat :=
  map fst (List.filter snd (combine (seq 0 (length mask)) mask)).

Definition min (l : list nat) : result nat :=
  match l with
  | [] => raise EmptyReduction
  | a :: l' => ret (fold_left Nat.min l' a)
  end.
Definition max (l : list nat) : result nat :=
  match l with
  | [] => raise EmptyReduction
  | a :: l' => ret (fold_left Nat.max l' a)
  end.

End np.

(** ** Python list objects *)

Module py.

(** A Python value of the kinds stored in the filter's tables: [None], a
    numpy array, or a reference to a list object. *)
Abbreviation loc := nat (only parsing).

Inductive value : Type :=
| None_
| Array (a : np.ndarray)
| List (l : loc).

(** The heap holds the list objects; a location is an index into it. *)
Abbreviation heap := (list (list value)) (only parsing).

(** Computations that read and write the heap and may raise.  The heap
    reached when an exception is raised stays observable. *)
Definition Py (A : Type) : Type := heap -> heap * result A.

Definition pure {A} (a : A) : Py A := fun h => (h, inr a).
Definition throw {A} (e : exn) : Py A := fun h => (h, inl e).
Definition lift {A} (r : result A) : Py A := fun h => (h, r).
Definition bind {A B} (m : Py A) (k : A -> Py B) : Py B :=
  fun h =>
    match m h with
    | (h', inl e) => (h', inl e)
    | (h', inr a) => k a h'
    end.

(** [[v] * n] builds a fresh list object holding [n] copies of the same
    value: for a reference, [n] references to one object. *)
Definition new_list (vs : list value) : Py loc :=
  fun h => (h ++ [vs], inr (length h)).

(** [[[None] * n] * (n + 1)]: the inner list is built once, the outer
    list repeats the reference to it. *)
Definition new_table (n : nat) : Py loc :=
  bind (new_list (replicate n None_))
    (fun row => new_list (replicate (n + 1) (List row))).

(** [l[i]] *)
Definition getitem (l : loc) (i : nat) : Py value :=
  fun h =>
    match h !! l ≫= (.!! i) with
    | Some v => (h, inr v)
    | None => (h, inl ListIndexError)
    end.

(** [l[i] = v] *)
Definition setitem (l : loc) (i : nat) (v : value) : Py unit :=
  fun h =>
    match h !! l with
    | Some vs =>
        if (i <? length vs)%nat then (<[l := <[i := v]> vs]> h, inr tt)
        else (h, inl ListIndexError)
    | None => (h, inl ListIndexError)
    end.

Definition as_list (v : value) : Py loc :=
  match v with
  | List l => pure l
  | _ => throw NoneOperand
  end.

Definition as_array (v : value) : Py np.ndarray :=
  match v with
  | Array a => pure a
  | _ => throw NoneOperand
  end.

(** [t[i][j]] and [t[i][j] = a] on a list of lists of arrays. *)
Definition getitem2 (t : loc) (i j : nat) : Py np.ndarray :=
  bind (getitem t i) (fun r => bind (as_list r) (fun l => bind (getitem l j) as_array)).
Definition setitem2 (t : loc) (i j : nat) (a : np.ndarray) : Py unit :=
  bind (getitem t i) (fun r => bind (as_list r) (fun l => setitem l j (Array a))).

(** [l[i]] and [l[i] = a] on a list of arrays. *)
Definition getarr (l : loc) (i : nat) : Py np.ndarray :=
  bind (getitem l i) as_array.
Definition setarr (l : loc) (i : nat) (a : np.ndarray) : Py unit :=
  setitem l i (Array a).

(** [for i in l: body i] *)
Fixpoint for_each {A} (l : list A) (body : A -> Py unit) : Py unit :=
  match l with
  | [] => pure tt
  | a :: l' => bind (body a) (fun _ => for_each l' body)
  end.

End py.

Notation "x <~ m ;; k" := (py.bind m (fun x => k))
  (at level 100, m at next level, right associativity).
Notation "'exec' m ;; k" := (py.bind m (fun _ => k))
  (at level 100, m at next level, right associativity).

(** ** [kalman_filter] *)

(** A pose is a 4x4 homogeneous matrix ([load_object_poses] asserts the
    shape), given by its four rows. *)
Definition row4 : Type := (float * float * float * float)%type.
Definition pose : Type := (row4 * row4 * row4 * row4)%type.

(** [pose[:3, -1]] *)
Definition translation (p : pose) : np.ndarray :=
  let '((_, _, _, tx), (_, _, _, ty), (_, _, _, tz), _) := p in
  np.NDArray [3] [tx; ty; tz].

(** [pose[:3, :3]] *)
Definition rotation (p : pose) : np.ndarray :=
  let '((a, b, c, _), (d, e, f, _), (g, h, i, _), _) := p in
  np.NDArray [3; 3] [a; b; c; d; e; f; g; h; i].

(** [np.array([np.nan, np.nan, np.nan])] *)
Definition nan3 : np.ndarray := np.NDArray [3] [np.nan; np.nan; np.nan].

Section Filter.

(** [x ** k] on a Python float and a literal exponent: the [pow] of the C
    library, whose values are not part of this repository, or Python's
    [OverflowError] when the power of a finite number is out of range. *)
Variable float_pow : float -> nat -> result float.

(** [Rotation.from_matrix(R).as_euler('XYZ')]: three angles, or an
    exception of scipy's. *)
Variable as_euler : np.ndarray -> result (float * float * float).

(** The elements of [np.linalg.pinv(A)] for an [(m, n)] matrix with
    elements [d], or an exception of LAPACK's. *)
Variable pinv_data : nat -> nat -> list float -> result (list float).

(** [np.linalg.pinv(A)]: the pseudoinverse of an [(m, n)] matrix has shape
    [(n, m)]. *)
Definition pinv (A : np.ndarray) : result np.ndarray :=
  match np.shape A with
  | [m; n] => d <- pinv_data m n (np.data A) ;; ret (np.NDArray [n; m] d)
  | _ => raise (LibraryError "LinAlgError")
  end.

Definition euler (p : pose) : result np.ndarray :=
  e <- as_euler (rotation p) ;;
  let '(ex, ey, ez) := e in ret (np.NDArray [3] [ex; ey; ez]).

Local Open Scope float_scope.

(** Lines 59-71: poses to positions and euler angles. *)
Definition extract_channels (poses : list (option pose))
  : result (np.ndarray * np.ndarray) :=
  channels <-
      for_ poses ([], []) (fun acc pose =>
        let '(positions, angles) := acc in
        match pose with
        | Some p =>
            e <- euler p ;;
            ret (positions ++ [translation p], angles ++ [e])
        | None =>
            ret (positions ++ [nan3], angles ++ [nan3])
        end) ;;
  let '(positions, angles) := channels in
  positions <- np.array positions ;;
  angles <- np.array angles ;;
  ret (positions, angles).

(** Lines 77-80: the treatment of sample [(i, j)]. *)
Definition unwrap_sample (a : np.ndarray) (i j : nat) : result np.ndarray :=
  cur <- np.getitem2 a i j ;;
  prev <- np.getitem2 a (i - 1) j ;;
  if 1.8 * np.pi <? cur - prev then np.setitem2 a i j (cur - 2 * np.pi)
  else if cur - prev <? -1.8 * np.pi then np.setitem2 a i j (cur + 2 * np.pi)
  else ret a.

(** Lines 75-80. *)
Definition unwrap_loop (not_nan_angles : np.ndarray) : result np.ndarray :=
  for_ (seq 1 (np.len not_nan_angles - 1)) not_nan_angles (fun a i =>
    row0 <- np.getrow a 0 ;;
    for_ (seq 0 (np.len row0)) a (fun a j => unwrap_sample a i j)).

(** Lines 73-81: add +-2pi if diff from last point more than 1.8pi. *)
Definition unwrap_angles (angles : np.ndarray) : result np.ndarray :=
  not_nan_angles <- np.reshape_m1_3 (np.select angles (np.invert (np.isnan angles))) ;;
  not_nan_angles <- unwrap_loop not_nan_angles ;;
  np.assign angles (np.invert (np.isnan angles)) (np.reshape_m1 not_nan_angles).

(** Lines 87-90: remove nan at the beginning and in the end. *)
Definition trim (positions angles : np.ndarray) : result (np.ndarray * np.ndarray) :=
  col <- np.getcol positions 0 ;;
  let not_nan_frames := np.nonzero (np.invert (np.isnan col)) in
  lo <- np.min not_nan_frames ;;
  hi <- np.max not_nan_frames ;;
  positions' <- np.slice_rows positions lo (hi + 1) ;;
  lo <- np.min not_nan_frames ;;
  hi <- np.max not_nan_frames ;;
  angles' <- np.slice_rows angles lo (hi + 1) ;;
  ret (positions', angles').

(** Lines 99-103: state transition matrix F. *)
Definition F_matrix (dt : float) : result np.ndarray :=
  dt2 <- float_pow dt 2 ;;
  np.kron (np.eye 6)
    (np.array2d [[1; dt; 0.5 * dt2];
                 [0;  1;        dt];
                 [0;  0;         1]]).

(** Lines 105-109: process noise Q. *)
Definition Q_matrix (dt sq_sigma_a : float) : result np.ndarray :=
  q00 <- float_pow dt 4 ;;
  q01 <- float_pow dt 3 ;;
  q02 <- float_pow dt 2 ;;
  q10 <- float_pow dt 3 ;;
  q11 <- float_pow dt 2 ;;
  q20 <- float_pow dt 2 ;;
  Q <- np.kron (np.eye 6)
         (np.array2d [[q00 / 4; q01 / 2; q02 / 2];
                      [q10 / 2;     q11;      dt];
                      [q20 / 2;      dt;       1]]) ;;
  ret (np.scale Q sq_sigma_a).

(** Lines 111-114: observation matrix H. *)
Definition H_matrix : result np.ndarray :=
  for_ (seq 0 6) (np.zeros [6; 18]%nat) (fun H i => np.setitem2 H i (3 * i) 1).

(** Lines 116-117: measurement uncertainty. *)
Definition R_matrix (r : float) : np.ndarray := np.diag (replicate 6 r).

(** Lines 119-122: state x initialization. *)
Definition x_init (positions angles : np.ndarray) : result np.ndarray :=
  let x0 := np.zeros [18%nat] in
  p0 <- np.getrow positions 0 ;;
  x0 <- np.set_indices x0 (np.arange 0 9 3) p0 ;;
  a0 <- np.getrow angles 0 ;;
  np.set_indices x0 (np.arange 9 18 3) a0.

(** The local names of the recursion. *)
Record locals : Type := Locals {
  positions_ : np.ndarray; angles_ : np.ndarray;
  x_ : py.loc; P_ : py.loc; K_ : py.loc; z_ : py.loc;
  F_ : np.ndarray; Q_ : np.ndarray; H_ : np.ndarray; R_ : np.ndarray
}.

(** Line 136: the Kalman gain. *)
Definition gain (P_pred H R : np.ndarray) : result np.ndarray :=
  PHt <- np.matmul P_pred (np.T H) ;;
  HP <- np.matmul H P_pred ;;
  HPHt <- np.matmul HP (np.T H) ;;
  S <- np.add HPHt R ;;
  Sinv <- pinv S ;;
  np.matmul PHt Sinv.

(** Line 137: the state update. *)
Definition state_update (x_pred K z H : np.ndarray) : result np.ndarray :=
  Hx <- np.matmul H x_pred ;;
  innovation <- np.sub z Hx ;;
  Ki <- np.matmul K innovation ;;
  np.add x_pred Ki.

(** Line 138: the covariance update, with [np.eye(9)] as written. *)
Definition covariance_update (P_pred K H R : np.ndarray) : result np.ndarray :=
  KH <- np.matmul K H ;;
  A <- np.sub (np.eye 9) KH ;;
  AP <- np.matmul A P_pred ;;
  KH' <- np.matmul K H ;;
  A' <- np.sub (np.eye 9) KH' ;;
  APAt <- np.matmul AP (np.T A') ;;
  KR <- np.matmul K R ;;
  KRKt <- np.matmul KR (np.T K) ;;
  np.add APAt KRKt.

(** Lines 130 and 141: the covariance prediction. *)
Definition predict_covariance (F P Q : np.ndarray) : result np.ndarray :=
  FP <- np.matmul F P ;;
  FPFt <- np.matmul FP (np.T F) ;;
  np.add FPFt Q.

(** Lines 134-141: the body of the loop for frame [i]. *)
Definition kalman_step (v : locals) (i : nat) : py.Py unit :=
  zi <~ py.lift (p <- np.getrow (positions_ v) i ;;
                 a <- np.getrow (angles_ v) i ;;
                 np.r_ p a) ;;
  exec py.setarr (z_ v) i zi ;;

  P_pred <~ py.getitem2 (P_ v) i (i - 1) ;;
  Ki <~ py.lift (gain P_pred (H_ v) (R_ v)) ;;
  exec py.setarr (K_ v) i Ki ;;
  x_pred <~ py.getitem2 (x_ v) i (i - 1) ;;
  Ki <~ py.getarr (K_ v) i ;;
  zi <~ py.getarr (z_ v) i ;;
  xi <~ py.lift (state_update x_pred Ki zi (H_ v)) ;;
  exec py.setitem2 (x_ v) i i xi ;;
  Ki <~ py.getarr (K_ v) i ;;
  P_pred <~ py.getitem2 (P_ v) i (i - 1) ;;
  Pi <~ py.lift (covariance_update P_pred Ki (H_ v) (R_ v)) ;;
  exec py.setitem2 (P_ v) i i Pi ;;

  xi <~ py.getitem2 (x_ v) i i ;;
  x_next <~ py.lift (np.matmul (F_ v) xi) ;;
  exec py.setitem2 (x_ v) (i + 1) i x_next ;;
  Pi <~ py.getitem2 (P_ v) i i ;;
  P_next <~ py.lift (predict_covariance (F_ v) Pi (Q_ v)) ;;
  py.setitem2 (P_ v) (i + 1) i P_next.

(** Lines 92-144: the filter on the trimmed channels.  The function has no
    [return]: had it reached its end it would give [None], here [tt]. *)
Definition kalman_recursion (positions angles : np.ndarray)
    (dt P0 sq_sigma_a r : float) : py.Py unit :=
  (* create variables *)
  let n := np.len positions in
  x <~ py.new_table n ;;
  P <~ py.new_table n ;;
  K <~ py.new_list (replicate n py.None_) ;;
  z <~ py.new_list (replicate n py.None_) ;;
  F <~ py.lift (F_matrix dt) ;;
  Q <~ py.lift (Q_matrix dt sq_sigma_a) ;;
  H <~ py.lift H_matrix ;;
  let R := R_matrix r in
  (* state x initialization *)
  x0 <~ py.lift (x_init positions angles) ;;
  exec py.setitem2 x 0 0 x0 ;;
  (* uncertainty P initialization *)
  P00 <~ py.lift (np.kron (np.eye 6) (np.full [3; 3]%nat P0)) ;;
  exec py.setitem2 P 0 0 P00 ;;
  (* first step *)
  x00 <~ py.getitem2 x 0 0 ;;
  x10 <~ py.lift (np.matmul F x00) ;;
  exec py.setitem2 x 1 0 x10 ;;
  P00 <~ py.getitem2 P 0 0 ;;
  P10 <~ py.lift (predict_covariance F P00 Q) ;;
  exec py.setitem2 P 1 0 P10 ;;
  (* apply Kalman filter *)
  exec py.for_each (seq 1 (n - 1))
    (kalman_step (Locals positions angles x P K z F Q H R)) ;;
  (* get estimated states: est_z = np.zeros() *)
  py.throw ZerosMissingShape.

(** [kalman_filter(poses, dt, P0, sq_sigma_a, r)] *)
Definition kalman_filter (poses : list (option pose))
    (dt P0 sq_sigma_a r : float) : py.Py unit :=
  channels <~ py.lift (extract_channels poses) ;;
  let '(positions, angles) := channels in
  angles <~ py.lift (unwrap_angles angles) ;;
  trimmed <~ py.lift (trim positions angles) ;;
  let '(positions, angles) := trimmed in
  kalman_recursion positions angles dt P0 sq_sigma_a r.

End Filter.

(** Running a computation from the empty heap, as a call of the function
    does: the lists it uses are the ones it creates. *)
Definition run {A} (m : py.Py A) : py.heap * result A := m [].

(** ** The unwrapping rule, sample by sample *)

(** What lines 77-80 do to one sample, given the sample before it. *)
Definition unwrap_step (prev cur : float) : float :=
  if (1.8 * np.pi <? cur - prev)%float then (cur - 2 * np.pi)%float
  else if (cur - prev <? -1.8 * np.pi)%float then (cur + 2 * np.pi)%float
  else cur.

(** Sample [k] of dimension [j] after unwrapping an [(m, 3)] array with
    elements [a]: the first sample is kept, every later one is stepped
    against the unwrapped sample before it. *)
Fixpoint unwrapped (a : list float) (j k : nat) : float :=
  match k with
  | 0 => np.at2 3 a 0 j
  | S k' => unwrap_step (unwrapped a j k') (np.at2 3 a (S k') j)
  end.

(** The rule in which a jump shifts the current sample and all the samples
    after it: [prev] is the sample before, already unwrapped. *)
Fixpoint unwrap_shifting_rest (fuel : nat) (prev : float) (l : list float) : list float :=
  match fuel, l with
  | S fuel', cur :: rest =>
      if (1.8 * np.pi <? cur - prev)%float
      then (cur - 2 * np.pi)%float
             :: unwrap_shifting_rest fuel' (cur - 2 * np.pi)%float
                  (map (fun v => v - 2 * np.pi)%float rest)
      else if (cur - prev <? -1.8 * np.pi)%float
      then (cur + 2 * np.pi)%float
             :: unwrap_shifting_rest fuel' (cur + 2 * np.pi)%float
                  (map (fun v => v + 2 * np.pi)%float rest)
      else cur :: unwrap_shifting_rest fuel' cur rest
  | _, _ => []
  end.

Definition unwrap_shifting (l : list float) : list float :=
  match l with
  | [] => []
  | first :: rest => first :: unwrap_shifting_rest (length rest) first rest
  end.

(** Three-channel angle tracks in which every dimension holds the same
    sequence. *)
Definition track3 (l : list float) : np.ndarray :=
  np.NDArray [length l; 3] (flat_map (fun v => [v; v; v]) l).

(** The scenario of a wrap crossing pi. *)
Definition wrap_crossing : list float := [3.0; 3.1; -3.1; -3.0]%float.

(** A jump below -1.8 pi followed by a sample near zero. *)
Definition jump_then_zero : list float := [3.0; -3.0; 0.0]%float.

(** ** Tables with one shared row *)

(** In heap [h], table [t] consists of [n + 1] references to the single row
    object [row], whose [n] cells are [cells]. *)
Definition shared_row (h : py.heap) (t : py.loc) (n : nat)
    (row : py.loc) (cells : list py.value) : Prop :=
  h !! t = Some (replicate (n + 1) (py.List row)) /\
  h !! row = Some cells /\ length cells = n /\ t <> row.

(** ** Instances of the library routines for running concrete tracks *)

(** The XYZ Euler angles of the identity rotation are [(0, 0, 0)]: the
    instance for tracks whose present poses all have the identity rotation. *)
Definition euler_of_identity (R : np.ndarray) : result (float * float * float) :=
  ret (0, 0, 0)%float.

(** The pseudoinverse of a diagonal matrix: the reciprocals of its non-zero
    diagonal elements.  The filter inverts [H P H^T + R], which is diagonal
    for the block-diagonal covariance built by lines 126-130. *)
Definition pinv_diag (m n : nat) (d : list float) : result (list float) :=
  ret (np.tabulate2 n m (fun i j =>
         if (i =? j)%nat
         then let s := np.at2 n d i i in
              if (s =? 0)%float then 0%float else (1 / s)%float
         else 0%float)).

(** The power as repeated products. *)
Fixpoint products (x : float) (k : nat) : float :=
  match k with
  | 0 => 1%float
  | 1 => x
  | S k' => (products x k' * x)%float
  end.

(** A stand-in for [**] to run concrete configurations: the repeated
    product, which is the power itself whenever no product is rounded (as
    for [dt = -1] or [dt = 1/32]), and [OverflowError] when the power of a
    finite number is infinite. *)
Definition pow_by_products (x : float) (k : nat) : result float :=
  if PrimFloat.is_finite x && PrimFloat.is_infinity (products x k)
  then raise FloatOverflow
  else ret (products x k).

(** The pose with identity rotation and translation [(x, y, z)]. *)
Definition pose_at (x y z : float) : pose :=
  ((1, 0, 0, x), (0, 1, 0, y), (0, 0, 1, z), (0, 0, 0, 1))%float.

(** The default arguments of [kalman_filter]. *)
Definition default_dt : float := (1 / 30)%float.
Definition default_P0 : float := 500.0%float.
Definition default_sq_sigma_a : float := 100%float.
Definition default_r : float := 1.0%float.

(** ** Lines 59-90 as one step *)

(** The channels handed to the recursion: extracted, unwrapped, trimmed. *)
Definition trimmed_channels (as_euler : np.ndarray -> result (float * float * float))
    (poses : list (option pose)) : result (np.ndarray * np.ndarray) :=
  channels <- extract_channels as_euler poses ;;
  let '(positions, angles) := channels in
  angles <- unwrap_angles angles ;;
  trim positions angles.

(** ** The matrix handed to [np.linalg.pinv] *)

(** Line 136: [H @ P @ H.T + R], the argument of [np.linalg.pinv]. *)
Definition innovation_covariance (P H R : np.ndarray) : result np.ndarray :=
  HP <- np.matmul H P ;;
  HPHt <- np.matmul HP (np.T H) ;;
  np.add HPHt R.

(** The powers of [dt], in the order in which lines 100 and 106 first
    take them. *)
Definition powers (float_pow : float -> nat -> result float) (dt : float)
    : result (float * float * float) :=
  dt2 <- float_pow dt 2 ;;
  dt4 <- float_pow dt 4 ;;
  dt3 <- float_pow dt 3 ;;
  ret (dt2, dt4, dt3).

(** Lines 100-130: the covariance [P[1][0]] predicted for frame 1.  It
    depends on the configuration only. *)
Definition first_prediction (float_pow : float -> nat -> result float)
    (dt P0 sq_sigma_a : float) : result np.ndarray :=
  F <- F_matrix float_pow dt ;;
  Q <- Q_matrix float_pow dt sq_sigma_a ;;
  P00 <- np.kron (np.eye 6) (np.full [3; 3] P0) ;;
  predict_covariance F P00 Q.

(** The argument of [np.linalg.pinv] at frame 1. *)
Definition first_innovation (float_pow : float -> nat -> result float)
    (dt P0 sq_sigma_a r : float) : result np.ndarray :=
  P10 <- first_prediction float_pow dt P0 sq_sigma_a ;;
  H <- H_matrix ;;
  innovation_covariance P10 H (R_matrix r).

(** A computation that ends in an exception from every heap. *)
Definition always_raises {A} (m : py.Py A) : Prop :=
  forall h, exists h' e, m h = (h', raise e).

(** ** Concrete tracks *)

(** Two present frames, the object moving along x. *)
Definition two_frames : list (option pose) :=
  [Some (pose_at 0 0 0); Some (pose_at 1 0 0)]%float.

(** One present frame. *)
Definition one_frame : list (option pose) := [Some (pose_at 0 0 0)]%float.

(** A present frame, a missing one, a present one. *)
Definition gap_track : list (option pose) :=
  [Some (pose_at 1 0 0); None; Some (pose_at 3 0 0)]%float.

(** The names of the recursion at frame 1 of [gap_track], and a heap in
    which the tables hold a prediction for that frame. *)
Definition gap_locals : locals :=
  {| positions_ := np.NDArray [3; 3] [1; 0; 0; np.nan; np.nan; np.nan; 3; 0; 0]%float;
     angles_ := np.NDArray [3; 3] [0; 0; 0; np.nan; np.nan; np.nan; 0; 0; 0]%float;
     x_ := 1; P_ := 3; K_ := 4; z_ := 5;
     F_ := np.eye 18; Q_ := np.zeros [18; 18];
     H_ := match H_matrix with inr H => H | inl _ => np.zeros [6; 18] end;
     R_ := R_matrix default_r |}.

Definition gap_heap : list (list py.value) :=
  [ [py.Array (np.zeros [18]); py.None_; py.None_];
    replicate 4 (py.List 0);
    [py.Array (np.eye 18); py.None_; py.None_];
    replicate 4 (py.List 2);
    replicate 3 py.None_;
    replicate 3 py.None_ ].

(** ** The angle channel frame by frame *)

(** A frame of a channel: missing, or its three values (angles or
    coordinates). *)
Definition angles3 : Type := (float * float * float)%type.
Definition frame : Type := option angles3.

Definition triple (t : angles3) : list float :=
  let '(a, b, c) := t in [a; b; c].

Definition frame_data (f : frame) : list float :=
  match f with
  | Some t => triple t
  | None => [np.nan; np.nan; np.nan]
  end.

(** The [(n, 3)] array of a list of frames, as lines 62-71 build the
    position and the angle channel. *)
Definition channel_of (fs : list frame) : np.ndarray :=
  np.NDArray [length fs; 3] (flat_map frame_data fs).

(** A present frame holds no nan. *)
Definition nan_free (f : frame) : Prop :=
  match f with
  | Some (a, b, c) =>
      PrimFloat.is_nan a = false /\ PrimFloat.is_nan b = false /\
      PrimFloat.is_nan c = false
  | None => True
  end.

(** Each dimension of the current frame is stepped on its own against the
    same dimension of the previous present frame. *)
Definition step3 (prev cur : angles3) : angles3 :=
  let '(p0, p1, p2) := prev in
  let '(c0, c1, c2) := cur in
  (unwrap_step p0 c0, unwrap_step p1 c1, unwrap_step p2 c2).

(** Unwrapping after a present frame [prev] (already unwrapped): missing
    frames are passed over, each present frame is stepped against [prev]
    and becomes the next [prev]. *)
Fixpoint unwrap_after (prev : angles3) (fs : list frame) : list frame :=
  match fs with
  | [] => []
  | None :: fs' => None :: unwrap_after prev fs'
  | Some cur :: fs' =>
      let c := step3 prev cur in Some c :: unwrap_after c fs'
  end.

(** The first present frame is kept as it is. *)
Fixpoint unwrap_frames (fs : list frame) : list frame :=
  match fs with
  | [] => []
  | None :: fs' => None :: unwrap_frames fs'
  | Some first :: fs' => Some first :: unwrap_after first fs'
  end.

(** The same on the present frames alone. *)
Fixpoint unwrap_present_after (prev : angles3) (ps : list angles3) : list angles3 :=
  match ps with
  | [] => []
  | cur :: ps' => let c := step3 prev cur in c :: unwrap_present_after c ps'
  end.

Definition unwrap_present (ps : list angles3) : list angles3 :=
  match ps with
  | [] => []
  | first :: ps' => first :: unwrap_present_after first ps'
  end.

Fixpoint present_frames (fs : list frame) : list angles3 :=
  match fs with
  | [] => []
  | Some t :: fs' => t :: present_frames fs'
  | None :: fs' => present_frames fs'
  end.

Definition frame_mask (f : frame) : list bool :=
  match f with
  | Some _ => [true; true; true]
  | None => [false; false; false]
  end.

Definition component (t : angles3) (j : nat) : float :=
  let '(a, b, c) := t in
  match j with 0 => a | 1 => b | _ => c end.

(** ** Tracks of valid poses *)

(** The translation of a pose, as a frame value. *)
Definition trans3 (p : pose) : angles3 :=
  let '((_, _, _, tx), (_, _, _, ty), (_, _, _, tz), _) := p in (tx, ty, tz).

Definition frame_array (f : frame) : np.ndarray := np.NDArray [3] (frame_data f).

Definition position_frames (poses : list (option pose)) : list frame :=
  map (option_map trans3) poses.

Definition angle_frames (as_euler : np.ndarray -> result angles3)
    (poses : list (option pose)) : list frame :=
  map (fun pose =>
         match pose with
         | Some p =>
             match as_euler (rotation p) with
             | inr t => Some t
             | inl _ => None
             end
         | None => None
         end) poses.

(** A present pose is valid for the filter when its translation holds no nan
    and [as_euler] returns angles without nan for its rotation. *)
Definition valid_pose (as_euler : np.ndarray -> result angles3)
    (pose : option pose) : Prop :=
  match pose with
  | Some p =>
      nan_free (Some (trans3 p)) /\
      exists t, as_euler (rotation p) = ret t /\ nan_free (Some t)
  | None => True
  end.

Definition is_present {A} (o : option A) : bool :=
  match o with Some _ => true | None => false end.

(** The number of present frames of a track. *)
Definition present_count (poses : list (option pose)) : nat :=
  length (List.filter is_present poses).

(** [l] increases strictly and starts at [s] or later. *)
Fixpoint increasing_from (s : nat) (l : list nat) : Prop :=
  match l with
  | [] => True
  | b :: l' => s <= b /\ increasing_from (S b) l'
  end.

(** ** More on the channels *)

(** [as_euler] returns for the rotation of every present pose. *)
Definition euler_returns (as_euler : np.ndarray -> result angles3)
    (pose : option pose) : Prop :=
  match pose with
  | Some p => exists t, as_euler (rotation p) = ret t
  | None => True
  end.

(** The number of elements of an array that are not nan. *)
Definition count_not_nan (A : np.ndarray) : nat :=
  length (List.filter (fun a => negb (PrimFloat.is_nan a)) (np.data A)).

(** Neither test of lines 77-80 fires for [cur] after [prev]. *)
Definition within_threshold (prev cur : float) : Prop :=
  (1.8 * np.pi <? cur - prev)%float = false /\
  (cur - prev <? -1.8 * np.pi)%float = false.

Definition within_threshold3 (prev cur : angles3) : Prop :=
  let '(p0, p1, p2) := prev in
  let '(c0, c1, c2) := cur in
  within_threshold p0 c0 /\ within_threshold p1 c1 /\ within_threshold p2 c2.

(** Every present frame is within the threshold of the present frame before
    it, [prev] being the last present frame so far. *)
Fixpoint calm_after (prev : angles3) (fs : list frame) : Prop :=
  match fs with
  | [] => True
  | None :: fs' => calm_after prev fs'
  | Some cur :: fs' => within_threshold3 prev cur /\ calm_after cur fs'
  end.

Fixpoint calm (fs : list frame) : Prop :=
  match fs with
  | [] => True
  | None :: fs' => calm fs'
  | Some first :: fs' => calm_after first fs'
  end.

(** A square array equal to its transpose, element by element. *)
Definition symmetric (A : np.ndarray) : Prop :=
  exists n, np.shape A = [n; n] /\
    forall i j, i < n -> j < n ->
      np.at2 n (np.data A) i j = np.at2 n (np.data A) j i.

(** An instance of [as_euler] that raises, as scipy does on a matrix that
    is no rotation. *)
Definition euler_raising (R : np.ndarray) : result angles3 :=
  raise (LibraryError "ValueError").

(** ** [load_object_poses] and the script *)

(** The exceptions of the loader and of the script: those of Python itself,
    besides the ones raised inside numpy and the builtins. *)
Inductive py_exn : Type :=
| AssertionError
    (* assert pose.shape == (4, 4) *)
| KeyError (key : string)
    (* object_poses['13'] *)
| NameError (name : string)
    (* name 'first_none' is not defined *)
| Raised (e : exn).

Definition outcome (A : Type) : Type := (py_exn + A)%type.

Definition oret {A} (a : A) : outcome A := inr a.
Definition oraise {A} (e : py_exn) : outcome A := inl e.
Definition obind {A B} (m : outcome A) (k : A -> outcome B) : outcome B :=
  match m with
  | inl e => inl e
  | inr a => k a
  end.
Definition olift {A} (r : result A) : outcome A :=
  match r with
  | inl e => inl (Raised e)
  | inr a => inr a
  end.

Notation "x <<- m ;; k" := (obind m (fun x => k))
  (at level 100, m at next level, right associativity).

Fixpoint ofor_ {S A} (l : list A) (s : S) (body : S -> A -> outcome S) : outcome S :=
  match l with
  | [] => oret s
  | a :: l' => s' <<- body s a ;; ofor_ l' s' body
  end.

(** A pose as the file holds it: a list of rows of numbers. *)
Definition json_pose : Type := list (list float).

(** The parsed file [dict[frame][object_id] = pose]: the frames in the
    order of the file, with distinct keys as in a Python dict; each frame is
    a dict from object ids to poses. *)
Definition frame_dict : Type := list (string * gmap string json_pose).

(** [d[k]] and [k in d] on a dict kept in insertion order. *)
Definition dict_get {V} (d : list (string * V)) (k : string) : option V :=
  match List.find (fun kv => String.eqb (fst kv) k) d with
  | Some kv => Some (snd kv)
  | None => None
  end.

(** [np.array(rows)] of a list of lists of numbers: the empty list gives
    shape (0,), rows of one length a matrix, ragged rows a [ValueError]. *)
Definition array_of_rows (rows : json_pose) : result np.ndarray :=
  match rows with
  | [] => ret (np.NDArray [0] [])
  | row :: _ =>
      if forallb (fun r => length r =? length row) rows
      then ret (np.NDArray [length rows; length row] (concat rows))
      else raise Inhomogeneous
  end.

(** Lines 22-26: the ids of all objects of all frames. *)
Definition object_ids (frames : frame_dict) : gset string :=
  ⋃ (map (fun kv => dom (snd kv)) frames).

(** [frame_object_poses[str(frame)][obj_id]], when both keys are there. *)
Definition pose_at_frame (frames : frame_dict) (obj_id : string) (frame : nat)
    : option json_pose :=
  dict_get frames (pretty frame) ≫= (fun objs => objs !! obj_id).


Section Script.

(** The order in which Python iterates over a set: some order of its
    elements. *)
Variable set_order : gset string -> list string.
Hypothesis set_order_perm : forall X, set_order X ≡ₚ elements X.

(** [int(s)] of the builtins: an integer, or its [ValueError]. *)
Variable int : string -> result Z.

(** The elements of [np.linalg.inv(A)] for an [(n, n)] matrix with elements
    [d], or its [LinAlgError]. *)
Variable inv_data : nat -> list float -> result (list float).

Variable float_pow : float -> nat -> result float.
Variable as_euler : np.ndarray -> result (float * float * float).
Variable pinv_data : nat -> nat -> list float -> result (list float).

(** Lines 33-41: one pass of the loop over the frames. *)
Definition frame_step (frames : frame_dict) (obj_id : string)
    (poses : list (option np.ndarray)) (frame : nat)
    : outcome (list (option np.ndarray)) :=
  match dict_get frames (pretty frame) with
  | Some objs =>
      match objs !! obj_id with
      | Some rows =>
          pose <<- olift (array_of_rows rows) ;;
          if bool_decide (np.shape pose = [4; 4])
          then pose' <<- olift (array_of_rows rows) ;;
               oret (poses ++ [Some pose'])
          else oraise AssertionError
      | None => oret (poses ++ [None])
      end
  | None => oret (poses ++ [None])
  end.

(** Lines 30-41: the poses of one object, frame by frame. *)
Definition poses_of (frames : frame_dict) (obj_id : string)
    : outcome (list (option np.ndarray)) :=
  last_key <<- match last (map fst frames) with
               | Some k => oret k
               | None => oraise (Raised ListIndexError)
               end ;;
  last_frame <<- olift (int last_key) ;;
  ofor_ (seq 0 (Z.to_nat (last_frame + 1))) [] (frame_step frames obj_id).

(** Lines 12-44, after [json.load]. *)
Definition load_object_poses (frames : frame_dict)
    : outcome (gmap string (list (option np.ndarray))) :=
  ofor_ (set_order (object_ids frames)) ∅ (fun object_poses obj_id =>
    poses <<- poses_of frames obj_id ;;
    oret (<[obj_id := poses]> object_poses)).

(** Lines 194-196: [first_none] after the first loop of the script; [None]
    when the name was never assigned. *)
Definition find_first_none (poses : list (option np.ndarray)) : option nat :=
  fold_left (fun first_none i =>
               match poses !! i with
               | Some (Some _) => Some i
               | _ => first_none
               end)
    (seq 0 (length poses)) None.

(** [np.linalg.inv(A)] *)
Definition linalg_inv (A : np.ndarray) : result np.ndarray :=
  match np.shape A with
  | [n; n'] =>
      if n =? n'
      then d <- inv_data n (np.data A) ;; ret (np.NDArray [n; n] d)
      else raise (LibraryError "LinAlgError")
  | _ => raise (LibraryError "LinAlgError")
  end.

(** Lines 198-199: one pass of the second loop, on the list as it is then. *)
Definition normalize_step (first_none : option nat)
    (poses : list (option np.ndarray)) (i : nat)
    : outcome (list (option np.ndarray)) :=
  match poses !! i with
  | Some (Some pose_i) =>
      k <<- match first_none with
            | Some k => oret k
            | None => oraise (NameError "first_none")
            end ;;
      reference <<- match poses !! k with
                    | Some (Some pose_k) => oret pose_k
                    | Some None => oraise (Raised (LibraryError "LinAlgError"))
                    | None => oraise (Raised ListIndexError)
                    end ;;
      inverse <<- olift (linalg_inv reference) ;;
      new <<- olift (np.matmul inverse pose_i) ;;
      oret (<[i := Some new]> poses)
  | _ => oret poses
  end.

(** Lines 194-199: both loops. *)
Definition normalize (poses : list (option np.ndarray))
    : outcome (list (option np.ndarray)) :=
  ofor_ (seq 0 (length poses)) poses (normalize_step (find_first_none poses)).

(** A 4x4 array as the pose [kalman_filter] slices. *)
Definition pose_of_array (A : np.ndarray) : pose :=
  let e := np.at2 4 (np.data A) in
  ((e 0 0, e 0 1, e 0 2, e 0 3), (e 1 0, e 1 1, e 1 2, e 1 3),
   (e 2 0, e 2 1, e 2 2, e 2 3), (e 3 0, e 3 1, e 3 2, e 3 3)).

(** Lines 188-203: the script, after the files are read. *)
Definition main (frames : frame_dict) : outcome unit :=
  object_poses <<- load_object_poses frames ;;
  poses <<- match object_poses !! "13"%string with
            | Some poses => oret poses
            | None => oraise (KeyError "13")
            end ;;
  poses <<- normalize poses ;;
  olift (snd (run (kalman_filter float_pow as_euler pinv_data
                     (map (option_map pose_of_array) poses)
                     default_dt default_P0 default_sq_sigma_a default_r))).

End Script.

(** The poses the second loop has to leave at the indices it went
    through. *)
Definition normalized_at (inverse : np.ndarray) (poses out : list (option np.ndarray))
    (i : nat) : Prop :=
  match poses !! i with
  | Some (Some P) => exists P', np.matmul inverse P = ret P' /\ out !! i = Some (Some P')
  | Some None => out !! i = Some None
  | None => True
  end.

(** ** Concrete files *)

(** [int] on the keys used below. *)
Definition int_small (s : string) : result Z :=
  if String.eqb s "0" then ret 0%Z
  else if String.eqb s "1" then ret 1%Z
  else if String.eqb s "2" then ret 2%Z
  else raise (LibraryError "ValueError").

Definition rows_at (x y z : float) : json_pose :=
  [[1; 0; 0; x]; [0; 1; 0; y]; [0; 0; 1; z]; [0; 0; 0; 1]]%float.


(** A stand-in for [np.linalg.inv] to run concrete tracks, defined on the
    matrices used below.  A rigid motion without rotation, by finite
    amounts, is inverted by negating its translation column; every other
    array is answered with [LinAlgError], which is what [np.linalg.inv]
    gives on a singular matrix such as the zero matrix. *)
Definition inv_translation (n : nat) (d : list float) : result (list float) :=
  match d with
  | [a00; a01; a02; x; a10; a11; a12; y; a20; a21; a22; z; a30; a31; a32; a33] =>
      if forallb (fun a => a =? 1)%float [a00; a11; a22; a33]
         && forallb (fun a => a =? 0)%float [a01; a02; a10; a12; a20; a21; a30; a31; a32]
         && forallb PrimFloat.is_finite [x; y; z]
      then ret [a00; a01; a02; -x; a10; a11; a12; -y;
                a20; a21; a22; -z; a30; a31; a32; a33]%float
      else raise (LibraryError "LinAlgError")
  | _ => raise (LibraryError "LinAlgError")
  end.

Definition array_at (x y z : float) : np.ndarray :=
  np.NDArray [4; 4] (concat (rows_at x y z)).

(** Two poses around a missing frame, as the loader returns them. *)
Definition gap_arrays : list (option np.ndarray) :=
  [Some (array_at 1 0 0); None; Some (array_at 3 0 0)].

(** A missing frame, a pose, and the zero matrix, which has no inverse. *)
Definition singular_arrays : list (option np.ndarray) :=
  [None; Some (array_at 1 0 0); Some (np.zeros [4; 4])].

(* ===================================================================== *)
(** * Properties *)

(** ** Facts about floats and arrays *)

Section ArrayFacts.

Import np.
Local Open Scope float_scope.

(** NaN is absorbing for the three operations of the state update. *)
Lemma mul_nan_r (x : float) : x * nan = nan.
Proof.
  rewrite <- (SF2Prim_Prim2SF (x * nan)), mul_spec.
  change (Prim2SF nan) with S754_nan.
  destruct (Prim2SF x) as [ | [] | | ]; reflexivity.
Qed.

Lemma add_nan_r (x : float) : x + nan = nan.
Proof.
  rewrite <- (SF2Prim_Prim2SF (x + nan)), add_spec.
  change (Prim2SF nan) with S754_nan.
  destruct (Prim2SF x) as [ | [] | | ]; reflexivity.
Qed.

Lemma sub_nan_l (x : float) : nan - x = nan.
Proof.
  rewrite <- (SF2Prim_Prim2SF (nan - x)), sub_spec.
  reflexivity.
Qed.

Lemma length_tabulate n f : length (tabulate n f) = n.
Proof. unfold tabulate. now rewrite length_map, length_seq. Qed.

Lemma item_tabulate n f k : (k < n)%nat -> item (tabulate n f) k = f k.
Proof.
  intros Hk. unfold item, tabulate.
  rewrite (nth_indep _ 0 (f 0%nat)) by (rewrite length_map, length_seq; lia).
  rewrite (map_nth f), seq_nth by lia. reflexivity.
Qed.

Lemma tabulate_ext n f g :
  (forall k, (k < n)%nat -> f k = g k) -> tabulate n f = tabulate n g.
Proof.
  intros H. unfold tabulate. apply map_ext_in.
  intros k Hk. apply in_seq in Hk. apply H. lia.
Qed.

Lemma tabulate_const n v : tabulate n (fun _ => v) = replicate n v.
Proof.
  unfold tabulate. generalize 0%nat.
  induction n as [|n IH]; intros s; simpl; [reflexivity|]. now rewrite IH.
Qed.

Lemma tabulate2_ext r c f g :
  (forall i j, (i < r)%nat -> (j < c)%nat -> f i j = g i j) ->
  tabulate2 r c f = tabulate2 r c g.
Proof.
  intros H. unfold tabulate2.
  assert (G : forall l, Forall (fun i => (i < r)%nat) l ->
              flat_map (fun i => tabulate c (f i)) l
              = flat_map (fun i => tabulate c (g i)) l).
  { induction 1 as [|i l Hi _ IH]; simpl; [reflexivity|].
    rewrite IH. f_equal. apply tabulate_ext. intros j Hj. now apply H. }
  apply G, Forall_forall. intros i Hi. apply elem_of_seq in Hi. lia.
Qed.

Lemma tabulate2_const r c v : tabulate2 r c (fun _ _ => v) = replicate (r * c) v.
Proof.
  unfold tabulate2. generalize 0%nat.
  induction r as [|r IH]; intros s; simpl; [reflexivity|].
  rewrite IH, tabulate_const. symmetry. apply replicate_add.
Qed.

Lemma item_replicate n (v : float) k : (k < n)%nat -> item (replicate n v) k = v.
Proof.
  intros Hk. unfold item.
  apply nth_lookup_Some with (d := 0). now apply lookup_replicate.
Qed.

Lemma item_insert_eq (d : list float) k v :
  (k < length d)%nat -> item (<[k := v]> d) k = v.
Proof.
  intros Hk. unfold item. apply nth_lookup_Some with (d := 0).
  now apply list_lookup_insert_eq.
Qed.

Lemma item_insert_ne (d : list float) k k' v :
  k <> k' -> item (<[k := v]> d) k' = item d k'.
Proof.
  intros Hk. unfold item. rewrite !nth_lookup.
  now rewrite list_lookup_insert_ne.
Qed.

End ArrayFacts.

(** ** Angle unwrapping (lines 73-81) *)

Section Unwrap.

Import np.
Local Open Scope float_scope.

Lemma unwrap_sample_spec a m i j :
  shape a = [m; 3%nat] -> length (data a) = (m * 3)%nat ->
  (1 <= i < m)%nat -> (j < 3)%nat ->
  exists a',
    unwrap_sample a i j = ret a' /\
    shape a' = [m; 3%nat] /\ length (data a') = (m * 3)%nat /\
    at2 3 (data a') i j = unwrap_step (at2 3 (data a) (i - 1) j) (at2 3 (data a) i j) /\
    forall k l, (l < 3)%nat -> (k, l) <> (i, j) ->
      at2 3 (data a') k l = at2 3 (data a) k l.
Proof.
  intros Hs Hl Hi Hj.
  unfold unwrap_sample, getitem2. rewrite Hs.
  assert (E1 : (i <? m)%nat = true) by (apply Nat.ltb_lt; lia).
  assert (E2 : (i - 1 <? m)%nat = true) by (apply Nat.ltb_lt; lia).
  assert (E3 : (j <? 3)%nat = true) by (apply Nat.ltb_lt; lia).
  rewrite E1, E2, E3. cbn [negb bind ret].
  unfold unwrap_step.
  set (cur := at2 3 (data a) i j). set (prev := at2 3 (data a) (i - 1) j).
  assert (Hin : (i * 3 + j < length (data a))%nat) by lia.
  assert (Hother : forall v k l, (l < 3)%nat -> (k, l) <> (i, j) ->
            at2 3 (<[(i * 3 + j)%nat := v]> (data a)) k l = at2 3 (data a) k l).
  { intros v k l Hl3 Hne. unfold at2. apply item_insert_ne.
    intros Heq. apply Hne. f_equal; lia. }
  destruct (1.8 * pi <? cur - prev);
    [ | destruct (cur - prev <? -1.8 * pi) ].
  - unfold setitem2. rewrite Hs, E1, E3. cbn [negb ret].
    eexists; split; [reflexivity|]. cbn [shape data].
    repeat split; [now rewrite length_insert | now apply item_insert_eq | apply Hother].
  - unfold setitem2. rewrite Hs, E1, E3. cbn [negb ret].
    eexists; split; [reflexivity|]. cbn [shape data].
    repeat split; [now rewrite length_insert | now apply item_insert_eq | apply Hother].
  - exists a. repeat split; auto.
Qed.

(** One pass of the inner loop: row [i] is stepped against row [i - 1]. *)
Lemma unwrap_row_spec a m i :
  shape a = [m; 3%nat] -> length (data a) = (m * 3)%nat -> (1 <= i < m)%nat ->
  exists a',
    (row0 <- getrow a 0 ;;
     for_ (seq 0 (len row0)) a (fun a j => unwrap_sample a i j)) = ret a' /\
    shape a' = [m; 3%nat] /\ length (data a') = (m * 3)%nat /\
    (forall j, (j < 3)%nat ->
       at2 3 (data a') i j
       = unwrap_step (at2 3 (data a) (i - 1) j) (at2 3 (data a) i j)) /\
    (forall k l, (l < 3)%nat -> k <> i -> at2 3 (data a') k l = at2 3 (data a) k l).
Proof.
  intros Hs Hl Hi.
  unfold getrow. rewrite Hs.
  replace (0 <? m)%nat with true by (symmetry; apply Nat.ltb_lt; lia).
  cbn [bind ret len shape hd seq for_].
  destruct (unwrap_sample_spec a m i 0) as (a0 & E0 & Hs0 & Hl0 & V0 & O0); auto; try lia.
  rewrite E0. cbn [bind ret].
  destruct (unwrap_sample_spec a0 m i 1) as (a1 & E1 & Hs1 & Hl1 & V1 & O1); auto; try lia.
  rewrite E1. cbn [bind ret].
  destruct (unwrap_sample_spec a1 m i 2) as (a2 & E2 & Hs2 & Hl2 & V2 & O2); auto; try lia.
  rewrite E2. cbn [bind ret].
  exists a2. repeat split; auto.
  - intros j Hj.
    assert (Hc : j = 0%nat \/ j = 1%nat \/ j = 2%nat) by lia.
    destruct Hc as [-> | [-> | ->]].
    + rewrite O2, O1, V0 by (try lia; congruence). reflexivity.
    + rewrite O2, V1 by (try lia; congruence).
      rewrite !O0 by (try lia; congruence). reflexivity.
    + rewrite V2. rewrite !O1, !O0 by (try lia; congruence). reflexivity.
  - intros k l Hl3 Hk.
    rewrite O2, O1, O0 by (try lia; congruence). reflexivity.
Qed.

(** The outer loop from row [i] on: rows below [i] are final. *)
Lemma unwrap_rows_spec cnt : forall a0 a m i,
  shape a = [m; 3%nat] -> length (data a) = (m * 3)%nat ->
  (1 <= i)%nat -> (i + cnt = Nat.max m 1)%nat ->
  (forall k l, (k < i)%nat -> (l < 3)%nat -> at2 3 (data a) k l = unwrapped a0 l k) ->
  (forall k l, (i <= k)%nat -> (l < 3)%nat -> at2 3 (data a) k l = at2 3 a0 k l) ->
  exists a',
    for_ (seq i cnt) a (fun a i =>
      row0 <- getrow a 0 ;;
      for_ (seq 0 (len row0)) a (fun a j => unwrap_sample a i j)) = ret a' /\
    shape a' = [m; 3%nat] /\ length (data a') = (m * 3)%nat /\
    forall k l, (k < m)%nat -> (l < 3)%nat -> at2 3 (data a') k l = unwrapped a0 l k.
Proof.
  induction cnt as [|cnt IH]; intros a0 a m i Hs Hl Hi Hcnt Hdone Htodo.
  - exists a. cbn [seq for_]. repeat split; auto.
    intros k l Hk Hl3. apply Hdone; lia.
  - cbn [seq for_].
    destruct (unwrap_row_spec a m i) as (a1 & E & Hs1 & Hl1 & V & O); auto; try lia.
    rewrite E. cbn [bind].
    apply (IH a0 a1 m (S i)); auto; try lia.
    + intros k l Hk Hl3.
      destruct (Nat.eq_dec k i) as [-> | Hne].
      * rewrite V by lia.
        destruct i as [|i']; [lia|].
        cbn [unwrapped]. replace (S i' - 1)%nat with i' by lia.
        rewrite Hdone, Htodo by lia. reflexivity.
      * rewrite O by lia. apply Hdone; lia.
    + intros k l Hk Hl3. rewrite O by lia. apply Htodo; lia.
Qed.

(** The loop of lines 75-80 on the present samples: it always succeeds,
    and sample [k] of dimension [j] becomes [unwrapped _ j k]. *)
Lemma unwrap_loop_spec a m :
  shape a = [m; 3%nat] -> length (data a) = (m * 3)%nat ->
  exists a',
    unwrap_loop a = ret a' /\
    shape a' = [m; 3%nat] /\ length (data a') = (m * 3)%nat /\
    forall k j, (k < m)%nat -> (j < 3)%nat ->
      at2 3 (data a') k j = unwrapped (data a) j k.
Proof.
  intros Hs Hl. unfold unwrap_loop, len. rewrite Hs. cbn [hd].
  apply (unwrap_rows_spec (m - 1) (data a) a m 1); auto; try lia.
  intros k l Hk Hl3. replace k with 0%nat by lia. reflexivity.
Qed.

End Unwrap.

Section UnwrapScenarios.

Import np.
Local Open Scope float_scope.

(** C7. The sequence [3.0, 3.1, -3.1, -3.0] rad, in each of the three angle
    dimensions, unwraps to [3.0, 3.1, -3.1 + 2 pi, -3.0 + 2 pi]: the last
    two samples are shifted up by 2 pi, they read 3.18... and 3.28..., and
    the result increases from sample to sample. *)
Theorem unwrap_wrap_crossing :
  unwrap_angles (track3 wrap_crossing)
  = ret (track3 [3.0; 3.1; -3.1 + 2 * pi; -3.0 + 2 * pi]) /\
  (-3.1 + 2 * pi = 3.183185307179586 /\ -3.0 + 2 * pi = 3.2831853071795862) /\
  (3.18 <? -3.1 + 2 * pi) = true /\ (-3.1 + 2 * pi <? 3.19) = true /\
  (3.28 <? -3.0 + 2 * pi) = true /\ (-3.0 + 2 * pi <? 3.29) = true /\
  (3.0 <? 3.1) = true /\ (3.1 <? -3.1 + 2 * pi) = true /\
  (-3.1 + 2 * pi <? -3.0 + 2 * pi) = true.
Proof. vm_compute. repeat split; reflexivity. Qed.

End UnwrapScenarios.

(** ** The history tables (lines 94-95) *)

Section Tables.

Import py.

Lemma new_table_shared n h :
  new_table n h
  = (h ++ [replicate n None_] ++ [replicate (n + 1) (List (length h))],
     inr (S (length h))) /\
  shared_row (fst (new_table n h)) (S (length h)) n (length h) (replicate n None_).
Proof.
  unfold new_table, bind, new_list. cbn [fst].
  rewrite length_app, <- app_assoc. cbn [length].
  replace (length h + 1) with (S (length h)) by lia.
  split; [reflexivity|]. unfold shared_row. repeat split.
  - rewrite app_assoc.
    replace (S (length h)) with (length (h ++ [replicate n None_]))
      by (rewrite length_app; cbn [length]; lia).
    apply list_lookup_middle. reflexivity.
  - apply list_lookup_middle. reflexivity.
  - apply length_replicate.
  - lia.
Qed.

Lemma getitem_shared h t n row cells a :
  shared_row h t n row cells -> a <= n ->
  getitem t a h = (h, inr (List row)).
Proof.
  intros (Ht & _) Ha. unfold getitem. rewrite Ht. cbn [mbind option_bind].
  rewrite lookup_replicate_2 by lia. reflexivity.
Qed.

Lemma getitem2_shared h t n row cells b k v :
  shared_row h t n row cells -> b <= n -> cells !! k = Some (Array v) ->
  getitem2 t b k h = (h, inr v).
Proof.
  intros Hsh Hb Hk. unfold getitem2, bind.
  rewrite (getitem_shared h t n row cells b Hsh Hb). cbn [as_list pure].
  destruct Hsh as (_ & Hrow & _).
  unfold getitem. rewrite Hrow. cbn [mbind option_bind]. rewrite Hk.
  reflexivity.
Qed.

Lemma setitem2_shared h t n row cells a k v :
  shared_row h t n row cells -> a <= n -> k < n ->
  setitem2 t a k v h = (<[row := <[k := Array v]> cells]> h, inr tt) /\
  shared_row (<[row := <[k := Array v]> cells]> h) t n row (<[k := Array v]> cells).
Proof.
  intros Hsh Ha Hk. unfold setitem2, bind.
  rewrite (getitem_shared h t n row cells a Hsh Ha). cbn [as_list pure].
  destruct Hsh as (Ht & Hrow & Hlen & Hne).
  unfold setitem. rewrite Hrow.
  replace (k <? length cells) with true by (symmetry; apply Nat.ltb_lt; lia).
  split; [reflexivity|]. unfold shared_row. repeat split.
  - rewrite list_lookup_insert_ne by congruence. exact Ht.
  - apply list_lookup_insert_eq. now apply lookup_lt_Some in Hrow.
  - now rewrite length_insert.
  - exact Hne.
Qed.

(** C10. The table built by [[[None] * n] * (n + 1)] is [n + 1] references
    to one row list: every row index [a <= n] yields the same list object;
    writing column [k] through any row [a] updates that one list, so the
    value is read back through every row [b]; and a read of column [k]
    through any row returns whatever was last stored in column [k] of the
    shared list, whichever row it was written through. *)
Theorem table_rows_are_one_list (n : nat) (h : heap) :
  let h0 := fst (new_table n h) in
  exists t row,
    snd (new_table n h) = inr t /\
    shared_row h0 t n row (replicate n None_) /\
    (forall a, a <= n -> getitem t a h0 = (h0, inr (List row))) /\
    (forall h1 cells a b k v,
        shared_row h1 t n row cells -> a <= n -> b <= n -> k < n ->
        exists h2,
          setitem2 t a k v h1 = (h2, inr tt) /\
          shared_row h2 t n row (<[k := Array v]> cells) /\
          getitem2 t b k h2 = (h2, inr v)) /\
    (forall h1 cells b k v,
        shared_row h1 t n row cells -> b <= n ->
        cells !! k = Some (Array v) ->
        getitem2 t b k h1 = (h1, inr v)).
Proof.
  intros h0. destruct (new_table_shared n h) as (E & Hsh).
  exists (S (length h)), (length h). repeat split.
  - now rewrite E.
  - apply Hsh.
  - apply Hsh.
  - apply Hsh.
  - apply Hsh.
  - intros a Ha. eapply getitem_shared; eauto.
  - intros h1 cells a b k v Hsh1 Ha Hb Hk.
    destruct (setitem2_shared h1 _ n _ cells a k v Hsh1 Ha Hk) as (Es & Hsh2).
    eexists; split; [exact Es|]. split; [exact Hsh2|].
    eapply getitem2_shared; eauto.
    apply list_lookup_insert_eq. destruct Hsh1 as (_ & _ & Hlen & _). lia.
  - intros h1 cells b k v Hsh1 Hb Hk. eapply getitem2_shared; eauto.
Qed.

End Tables.

(** ** Tracks without any present frame (lines 59-90) *)

Section AllMissing.

Import np.
Variable as_euler : ndarray -> result (float * float * float).

Lemma data_replicate_nan3 N :
  flat_map data (replicate N nan3) = replicate (N * 3) nan.
Proof. induction N as [|N IH]; simpl; [reflexivity|]. now rewrite IH. Qed.

Lemma extract_all_missing_acc N : forall ps angs,
  for_ (replicate N None) (ps, angs) (fun acc pose =>
    let '(positions, angles) := acc in
    match pose with
    | Some p =>
        e <- euler as_euler p ;;
        ret (positions ++ [translation p], angles ++ [e])
    | None => ret (positions ++ [nan3], angles ++ [nan3])
    end)
  = ret (ps ++ replicate N nan3, angs ++ replicate N nan3).
Proof.
  induction N as [|N IH]; intros ps angs; simpl.
  - now rewrite !app_nil_r.
  - rewrite IH. now rewrite <- !app_assoc.
Qed.

Lemma array_replicate_nan3 N :
  array (replicate (S N) nan3) = ret (NDArray [S N; 3] (replicate (S N * 3) nan)).
Proof.
  unfold array. cbn [replicate].
  replace (forallb _ _) with true.
  - rewrite <- data_replicate_nan3. cbn [length replicate shape nan3].
    now rewrite length_replicate.
  - symmetry. apply forallb_forall. intros b Hb.
    apply bool_decide_eq_true.
    change (nan3 :: replicate N nan3) with (replicate (S N) nan3) in Hb.
    apply list_elem_of_In, elem_of_replicate in Hb. now destruct Hb as [-> _].
Qed.

Lemma extract_all_missing N :
  extract_channels as_euler (replicate (S N) None)
  = ret (NDArray [S N; 3] (replicate (S N * 3) nan),
         NDArray [S N; 3] (replicate (S N * 3) nan)).
Proof.
  unfold extract_channels. rewrite extract_all_missing_acc.
  cbn [bind ret app]. now rewrite array_replicate_nan3.
Qed.

Lemma map_replicate {A B} (f : A -> B) n x :
  map f (replicate n x) = replicate n (f x).
Proof. induction n as [|n IH]; simpl; [reflexivity|]. now rewrite IH. Qed.

Lemma filter_combine_false {A} (l : list A) k :
  List.filter snd (combine l (replicate k false)) = [].
Proof.
  revert k. induction l as [|a l IH]; intros [|k]; simpl; auto.
Qed.

Lemma filter_replicate_false k : List.filter id (replicate k false) = [].
Proof. induction k as [|k IH]; simpl; auto. Qed.

(** Unwrapping finds no present sample and leaves the shape alone. *)
Lemma unwrap_all_missing N :
  exists d, unwrap_angles (NDArray [N; 3] (replicate (N * 3) nan)) = ret (NDArray [N; 3] d).
Proof.
  unfold unwrap_angles, isnan, invert, select. cbn [data].
  rewrite !map_replicate. change (negb (PrimFloat.is_nan nan)) with false.
  rewrite filter_combine_false. cbn [map length].
  unfold assign, reshape_m1. cbn [data length shape].
  rewrite filter_replicate_false. cbn. eexists. reflexivity.
Qed.

(** Trimming finds no non-nan frame: [np.min] of an empty index array. *)
Lemma trim_all_missing N angles :
  trim (NDArray [S N; 3] (replicate (S N * 3) nan)) angles = raise EmptyReduction.
Proof.
  unfold trim, getcol. cbn [shape data Nat.ltb Nat.leb bind ret].
  unfold isnan, invert. cbn [data].
  rewrite (tabulate_ext _ _ (fun _ => nan)).
  2:{ intros k Hk. unfold at2. apply item_replicate. lia. }
  rewrite tabulate_const, !map_replicate.
  change (negb (PrimFloat.is_nan nan)) with false.
  unfold nonzero. rewrite filter_combine_false. reflexivity.
Qed.

End AllMissing.

Section AllMissingFilter.

Variable float_pow : float -> nat -> result float.
Variable as_euler : np.ndarray -> result (float * float * float).
Variable pinv_data : nat -> nat -> list float -> result (list float).

(** C5, as the code has it.  On a track in which no frame is present the
    call fails while trimming, before any list is created: for a non-empty
    track with numpy's [ValueError] for the minimum of an empty index array
    (raised by [np.min(not_nan_frames)]), for the empty track with the
    [IndexError] of [positions[:, 0]] on a one-dimensional array.  It never
    returns an output. *)
Theorem all_missing_track_fails (poses : list (option pose))
    (dt P0 sq_sigma_a r : float) :
  Forall (fun p => p = None) poses ->
  run (kalman_filter float_pow as_euler pinv_data poses dt P0 sq_sigma_a r)
  = ([], raise (match poses with
                | [] => TooManyIndices
                | _ :: _ => EmptyReduction
                end)).
Proof.
  intros Hall.
  assert (E : poses = replicate (length poses) None).
  { induction Hall as [|p l Hp _ IH]; simpl; [reflexivity|]. now rewrite Hp, <- IH. }
  destruct poses as [|p0 poses']; [reflexivity|].
  rewrite E. cbn [length]. set (N := length poses').
  unfold run, kalman_filter, py.bind, py.lift.
  rewrite extract_all_missing. cbn [ret].
  destruct (unwrap_all_missing (S N)) as (d & Hd).
  rewrite Hd. cbn [ret]. rewrite trim_all_missing. reflexivity.
Qed.

End AllMissingFilter.

(** ** Shapes of the numpy operations *)

Section Shapes.

Import np.

Lemma matmul_mm A B m k n :
  shape A = [m; k] -> shape B = [k; n] ->
  exists C, matmul A B = ret C /\ shape C = [m; n].
Proof.
  intros HA HB. unfold matmul. rewrite HA, HB, Nat.eqb_refl.
  eexists; split; reflexivity.
Qed.

Lemma matmul_mv A B m k :
  shape A = [m; k] -> shape B = [k] ->
  matmul A B
  = ret (NDArray [m] (tabulate m (fun i =>
           dot k (fun l => at2 k (data A) i l) (fun l => item (data B) l)))).
Proof.
  intros HA HB. unfold matmul. now rewrite HA, HB, Nat.eqb_refl.
Qed.

Lemma shape_T A r c : shape A = [r; c] -> shape (T A) = [c; r].
Proof. intros HA. unfold T. now rewrite HA. Qed.

Lemma elementwise_2d f A B r c :
  shape A = [r; c] -> shape B = [r; c] ->
  exists C, elementwise f A B = ret C /\ shape C = [r; c].
Proof.
  intros HA HB. unfold elementwise, bdim. rewrite HA, HB. cbn [as2d].
  rewrite !Nat.eqb_refl. eexists; split; reflexivity.
Qed.

Lemma elementwise_1d f A B c :
  shape A = [c] -> shape B = [c] ->
  elementwise f A B
  = ret (NDArray [c] (tabulate2 1 c (fun i j =>
           f (bat 1 c (data A) i j) (bat 1 c (data B) i j)))).
Proof.
  intros HA HB. unfold elementwise, bdim. rewrite HA, HB. cbn [as2d].
  now rewrite !Nat.eqb_refl.
Qed.

(** [np.eye(9) - M] for an 18x18 matrix [M]. *)
Lemma sub_eye9_18 M :
  shape M = [18; 18] ->
  sub (eye 9) M = raise (BroadcastError [9; 9] [18; 18]).
Proof.
  intros HM. unfold sub, elementwise. rewrite HM. reflexivity.
Qed.

Lemma getrow_ok A r c i :
  shape A = [r; c] -> i < r ->
  getrow A i = ret (NDArray [c] (take c (drop (i * c) (data A)))).
Proof.
  intros HA Hi. unfold getrow. rewrite HA.
  now replace (i <? r) with true by (symmetry; now apply Nat.ltb_lt).
Qed.

Lemma r_ok A B a b :
  shape A = [a] -> shape B = [b] ->
  r_ A B = ret (NDArray [a + b] (data A ++ data B)).
Proof. intros HA HB. unfold r_. now rewrite HA, HB. Qed.

Lemma shape_F_matrix float_pow dt F :
  F_matrix float_pow dt = ret F -> shape F = [18; 18].
Proof.
  unfold F_matrix, kron. destruct (float_pow dt 2); cbn [bind shape eye array2d];
    [discriminate|].
  now intros [= <-].
Qed.

Lemma shape_Q_matrix float_pow dt s Q :
  Q_matrix float_pow dt s = ret Q -> shape Q = [18; 18].
Proof.
  unfold Q_matrix, kron.
  destruct (float_pow dt 4); cbn [bind]; [discriminate|].
  destruct (float_pow dt 3); cbn [bind]; [discriminate|].
  destruct (float_pow dt 2); cbn [bind shape eye array2d ret]; [discriminate|].
  now intros [= <-].
Qed.

Lemma H_matrix_ok : exists H, H_matrix = ret H /\ shape H = [6; 18].
Proof. eexists; split; [vm_compute; reflexivity | reflexivity]. Qed.

Lemma P_init_ok P0 :
  exists P, kron (eye 6) (full [3; 3] P0) = ret P /\ shape P = [18; 18].
Proof. unfold kron. cbn [shape eye full]. eexists; split; reflexivity. Qed.

Lemma shape_R_matrix r : shape (R_matrix r) = [6; 6].
Proof. reflexivity. Qed.

Lemma set_indices_ok A V idx n :
  shape A = [n] -> shape V = [length idx] ->
  forallb (fun k => k <? n) idx = true ->
  exists C, set_indices A idx V = ret C /\ shape C = [n].
Proof.
  intros HA HV Hidx. unfold set_indices. rewrite HA, HV, Nat.eqb_refl, Hidx.
  eexists; split; reflexivity.
Qed.

Lemma x_init_ok positions angles n :
  shape positions = [S n; 3] -> shape angles = [S n; 3] ->
  exists x0, x_init positions angles = ret x0 /\ shape x0 = [18].
Proof.
  intros Hp Ha. unfold x_init.
  rewrite (getrow_ok positions (S n) 3 0 Hp) by lia. cbn [bind ret].
  destruct (set_indices_ok (zeros [18]) (NDArray [3] (take 3 (drop (0 * 3) (data positions))))
              (arange 0 9 3) 18) as (x0 & E0 & S0); try reflexivity.
  rewrite E0. cbn [bind ret].
  rewrite (getrow_ok angles (S n) 3 0 Ha) by lia. cbn [bind ret].
  apply set_indices_ok; auto.
Qed.

Lemma predict_covariance_ok F P Q :
  shape F = [18; 18] -> shape P = [18; 18] -> shape Q = [18; 18] ->
  exists P', predict_covariance F P Q = ret P' /\ shape P' = [18; 18].
Proof.
  intros HF HP HQ. unfold predict_covariance.
  destruct (matmul_mm F P 18 18 18 HF HP) as (FP & -> & HFP). cbn [bind ret].
  destruct (matmul_mm FP (T F) 18 18 18 HFP (shape_T _ _ _ HF)) as (FPFt & -> & HFPFt).
  cbn [bind ret]. now apply elementwise_2d.
Qed.

(** Line 138 never gets past [np.eye(9) - K[i] @ H]. *)
Lemma covariance_update_raises P K H R :
  shape K = [18; 6] -> shape H = [6; 18] ->
  covariance_update P K H R = raise (BroadcastError [9; 9] [18; 18]).
Proof.
  intros HK HH. unfold covariance_update.
  destruct (matmul_mm K H 18 6 18 HK HH) as (KH & -> & HKH). cbn [bind ret].
  now rewrite sub_eye9_18.
Qed.

Lemma state_update_ok x K z H :
  shape x = [18] -> shape K = [18; 6] -> shape z = [6] -> shape H = [6; 18] ->
  exists x', state_update x K z H = ret x' /\ shape x' = [18].
Proof.
  intros Hx HK Hz HH. unfold state_update.
  rewrite (matmul_mv H x 6 18 HH Hx). cbn [bind ret].
  unfold sub. erewrite (elementwise_1d _ z _ 6 Hz) by reflexivity. cbn [bind ret].
  erewrite (matmul_mv K _ 18 6 HK) by reflexivity. cbn [bind ret].
  unfold add. erewrite (elementwise_1d _ x _ 18 Hx) by reflexivity.
  eexists; split; reflexivity.
Qed.

Lemma innovation_covariance_ok P H R :
  shape P = [18; 18] -> shape H = [6; 18] -> shape R = [6; 6] ->
  exists Sg, innovation_covariance P H R = ret Sg /\ shape Sg = [6; 6].
Proof.
  intros HP HH HR. unfold innovation_covariance.
  pose proof (shape_T _ _ _ HH) as HHt.
  destruct (matmul_mm H P 6 18 18 HH HP) as (HPm & -> & HHP). cbn [bind ret].
  destruct (matmul_mm HPm (T H) 6 18 6 HHP HHt) as (S0 & -> & HS0). cbn [bind ret].
  now apply elementwise_2d.
Qed.

Section Gain.

Variable pinv_data : nat -> nat -> list float -> result (list float).

(** The gain is computed exactly when [np.linalg.pinv] returns on
    [H @ P @ H.T + R]. *)
Lemma gain_split P H R Sg :
  shape P = [18; 18] -> shape H = [6; 18] -> shape Sg = [6; 6] ->
  innovation_covariance P H R = ret Sg ->
  (forall e, pinv_data 6 6 (data Sg) = raise e -> gain pinv_data P H R = raise e) /\
  (forall d, pinv_data 6 6 (data Sg) = ret d ->
     exists K, gain pinv_data P H R = ret K /\ shape K = [18; 6]).
Proof.
  intros HP HH HS. unfold innovation_covariance, gain.
  pose proof (shape_T _ _ _ HH) as HHt.
  destruct (matmul_mm P (T H) 18 18 6 HP HHt) as (PHt & -> & HPHt). cbn [bind ret].
  destruct (matmul_mm H P 6 18 18 HH HP) as (HPm & -> & HHP). cbn [bind ret].
  destruct (matmul_mm HPm (T H) 6 18 6 HHP HHt) as (S0 & -> & HS0). cbn [bind ret].
  intros ->. cbn [bind ret]. unfold pinv. rewrite HS. split.
  - intros e ->. reflexivity.
  - intros d ->. cbn [bind ret]. now apply (matmul_mm _ _ 18 6 6).
Qed.

End Gain.

End Shapes.

(** ** The recursion on trimmed channels (lines 92-144) *)

(** Runs the heap operations of a computation, leaving numpy calls alone. *)
Ltac py_simpl :=
  cbv beta iota zeta delta [py.bind py.pure py.throw py.lift py.new_table py.new_list py.getitem
       py.setitem py.as_list py.as_array py.getitem2 py.setitem2 py.getarr
       py.setarr py.for_each run fst snd lookup list_lookup insert list_insert
       mbind option_bind replicate length app Nat.add Nat.sub Nat.ltb Nat.leb
       seq bind ret raise].

Section Recursion.
Import np.
Variable float_pow : float -> nat -> result float.
Variable pinv_data : nat -> nat -> list float -> result (list float).

Lemma first_prediction_returns dt P0 sq P10 :
  first_prediction float_pow dt P0 sq = ret P10 ->
  exists F Q P00,
    F_matrix float_pow dt = ret F /\ shape F = [18; 18] /\
    Q_matrix float_pow dt sq = ret Q /\ shape Q = [18; 18] /\
    kron (eye 6) (full [3; 3] P0) = ret P00 /\ shape P00 = [18; 18] /\
    predict_covariance F P00 Q = ret P10 /\ shape P10 = [18; 18].
Proof.
  unfold first_prediction.
  destruct (F_matrix float_pow dt) as [e|F] eqn:EF; cbn [bind ret]; [discriminate|].
  destruct (Q_matrix float_pow dt sq) as [e|Q] eqn:EQ; cbn [bind ret]; [discriminate|].
  destruct (P_init_ok P0) as (P00 & EP00 & HP00). rewrite EP00. cbn [bind ret].
  intros EP10.
  pose proof (shape_F_matrix _ _ _ EF) as HF.
  pose proof (shape_Q_matrix _ _ _ _ EQ) as HQ.
  destruct (predict_covariance_ok F P00 Q HF HP00 HQ) as (P10' & EP' & HP').
  exists F, Q, P00. rewrite EP10 in EP'. injection EP' as <-. repeat split; auto.
Qed.

Lemma first_prediction_raises dt P0 sq e :
  first_prediction float_pow dt P0 sq = raise e ->
  F_matrix float_pow dt = raise e \/
  exists F, F_matrix float_pow dt = ret F /\ Q_matrix float_pow dt sq = raise e.
Proof.
  unfold first_prediction.
  destruct (F_matrix float_pow dt) as [e'|F] eqn:EF; cbn [bind ret];
    [intros [= <-]; now left|].
  destruct (Q_matrix float_pow dt sq) as [e'|Q] eqn:EQ; cbn [bind ret];
    [intros [= <-]; right; eauto|].
  destruct (P_init_ok P0) as (P00 & -> & HP00). cbn [bind ret].
  destruct (predict_covariance_ok F P00 Q (shape_F_matrix _ _ _ EF) HP00
              (shape_Q_matrix _ _ _ _ EQ)) as (P10 & -> & _).
  discriminate.
Qed.

Lemma first_innovation_of_prediction dt P0 sq r P10 :
  first_prediction float_pow dt P0 sq = ret P10 ->
  exists H Sg,
    shape P10 = [18; 18] /\ H_matrix = ret H /\ shape H = [6; 18] /\
    innovation_covariance P10 H (R_matrix r) = ret Sg /\ shape Sg = [6; 6] /\
    first_innovation float_pow dt P0 sq r = ret Sg.
Proof.
  intros EP. unfold first_innovation. rewrite EP. cbn [bind ret].
  destruct (first_prediction_returns dt P0 sq P10 EP)
    as (F & Q & P00 & _ & _ & _ & _ & _ & _ & _ & HP10).
  destruct H_matrix_ok as (H & EH & HH). rewrite EH. cbn [bind ret].
  destruct (innovation_covariance_ok P10 H (R_matrix r) HP10 HH (shape_R_matrix r))
    as (Sg & ES & HS).
  exists H, Sg. repeat split; assumption.
Qed.

Lemma first_innovation_returns dt P0 sq r Sg :
  first_innovation float_pow dt P0 sq r = ret Sg ->
  exists P10 H,
    first_prediction float_pow dt P0 sq = ret P10 /\ shape P10 = [18; 18] /\
    H_matrix = ret H /\ shape H = [6; 18] /\
    innovation_covariance P10 H (R_matrix r) = ret Sg /\ shape Sg = [6; 6].
Proof.
  intros ES.
  destruct (first_prediction float_pow dt P0 sq) as [e|P10] eqn:EP.
  - unfold first_innovation in ES. rewrite EP in ES. discriminate.
  - destruct (first_innovation_of_prediction dt P0 sq r P10 EP)
      as (H & Sg' & HP & EH & HH & ES' & HS & E).
    rewrite ES in E. injection E as <-. exists P10, H. repeat split; assumption.
Qed.

Lemma first_innovation_raises dt P0 sq r e :
  first_innovation float_pow dt P0 sq r = raise e ->
  first_prediction float_pow dt P0 sq = raise e.
Proof.
  intros ES.
  destruct (first_prediction float_pow dt P0 sq) as [e'|P10] eqn:EP.
  - unfold first_innovation in ES. rewrite EP in ES. exact ES.
  - destruct (first_innovation_of_prediction dt P0 sq r P10 EP)
      as (H & Sg' & _ & _ & _ & _ & _ & E).
    rewrite ES in E. discriminate.
Qed.

(** The first prediction and the argument of [np.linalg.pinv] are
    computed exactly when the powers of [dt] are. *)
Lemma powers_raise dt P0 sq r e :
  powers float_pow dt = raise e ->
  first_innovation float_pow dt P0 sq r = raise e.
Proof.
  unfold powers, first_innovation, first_prediction, F_matrix, Q_matrix.
  destruct (float_pow dt 2) as [e2|dt2]; cbn [bind ret]; [now intros [= <-]|].
  destruct (float_pow dt 4) as [e4|dt4]; cbn [bind ret]; [now intros [= <-]|].
  destruct (float_pow dt 3) as [e3|dt3]; cbn [bind ret]; [now intros [= <-]|].
  discriminate.
Qed.

Lemma powers_return dt P0 sq r p :
  powers float_pow dt = ret p ->
  exists Sg, first_innovation float_pow dt P0 sq r = ret Sg.
Proof.
  intros Hp.
  destruct (first_innovation float_pow dt P0 sq r) as [e|Sg] eqn:ES; [|now exists Sg].
  apply first_innovation_raises, first_prediction_raises in ES.
  revert Hp. unfold powers.
  destruct ES as [EF | (F & EF & EQ)]; revert EF; try revert EQ;
    unfold F_matrix, Q_matrix, kron;
    destruct (float_pow dt 2) as [e2|dt2]; cbn [bind ret shape eye array2d];
    try discriminate;
    destruct (float_pow dt 4) as [e4|dt4]; cbn [bind ret shape eye array2d];
    try discriminate;
    destruct (float_pow dt 3) as [e3|dt3]; cbn [bind ret shape eye array2d];
    discriminate.
Qed.

(** A power of [dt] that raises ends the call at line 100 or 106: the
    lists exist, nothing is stored in them. *)
Lemma recursion_stops_at_the_powers positions angles dt P0 sq r n e :
  shape positions = [S n; 3] ->
  first_prediction float_pow dt P0 sq = raise e ->
  run (kalman_recursion float_pow pinv_data positions angles dt P0 sq r)
  = ([ replicate (S n) py.None_; replicate (S n + 1) (py.List 0);
       replicate (S n) py.None_; replicate (S n + 1) (py.List 2);
       replicate (S n) py.None_; replicate (S n) py.None_ ],
     raise e).
Proof.
  intros Hp EP. unfold kalman_recursion, len. rewrite Hp. cbn [hd].
  destruct (first_prediction_raises dt P0 sq e EP) as [EF | (F & EF & EQ)].
  - py_simpl. rewrite EF. py_simpl. reflexivity.
  - py_simpl. rewrite EF, EQ. py_simpl. reflexivity.
Qed.

(** One frame: the loop is skipped. *)
Lemma recursion_tables_one positions angles dt P0 sq r P10 :
  shape positions = [1; 3] -> shape angles = [1; 3] ->
  first_prediction float_pow dt P0 sq = ret P10 ->
  exists F x0 x10,
    F_matrix float_pow dt = ret F /\
    x_init positions angles = ret x0 /\ matmul F x0 = ret x10 /\
    run (kalman_recursion float_pow pinv_data positions angles dt P0 sq r)
    = ([ [py.Array x10]; replicate 2 (py.List 0);
         [py.Array P10]; replicate 2 (py.List 2);
         [py.None_]; [py.None_] ],
       raise ZerosMissingShape).
Proof.
  intros Hp Ha EP.
  destruct (first_prediction_returns dt P0 sq P10 EP)
    as (F & Q & P00 & EF & HF & EQ & HQ & EP00 & HP00 & EP10 & HP10).
  destruct H_matrix_ok as (H & EH & HH).
  destruct (x_init_ok positions angles 0 Hp Ha) as (x0 & Ex0 & Hx0).
  pose proof (matmul_mv F x0 18 18 HF Hx0) as Ex10.
  set (x10 := NDArray [18] _) in Ex10.
  exists F, x0, x10.
  repeat (split; [assumption|]).
  unfold kalman_recursion, len. rewrite Hp. cbn [hd].
  py_simpl. rewrite EF, EQ, EH, Ex0. py_simpl. rewrite EP00. py_simpl.
  rewrite Ex10. py_simpl. rewrite EP10. py_simpl.
  reflexivity.
Qed.

(** Two or more frames: the first pass of the loop ends the call, at
    [np.linalg.pinv] when it raises and at line 138 when it returns. *)
Lemma recursion_tables_two positions angles dt P0 sq r m P10 :
  shape positions = [S (S m); 3] -> shape angles = [S (S m); 3] ->
  first_prediction float_pow dt P0 sq = ret P10 ->
  exists F H x0 x10 p1 a1 z1 Sg,
    F_matrix float_pow dt = ret F /\ H_matrix = ret H /\
    x_init positions angles = ret x0 /\ matmul F x0 = ret x10 /\
    getrow positions 1 = ret p1 /\ getrow angles 1 = ret a1 /\ r_ p1 a1 = ret z1 /\
    first_innovation float_pow dt P0 sq r = ret Sg /\
    (forall e, pinv_data 6 6 (data Sg) = raise e ->
       run (kalman_recursion float_pow pinv_data positions angles dt P0 sq r)
       = ([ py.Array x10 :: py.None_ :: replicate m py.None_;
            replicate (S (S m) + 1) (py.List 0);
            py.Array P10 :: py.None_ :: replicate m py.None_;
            replicate (S (S m) + 1) (py.List 2);
            py.None_ :: py.None_ :: replicate m py.None_;
            py.None_ :: py.Array z1 :: replicate m py.None_ ],
          raise e)) /\
    (forall d, pinv_data 6 6 (data Sg) = ret d ->
       exists K1 x11,
         gain pinv_data P10 H (R_matrix r) = ret K1 /\
         state_update x10 K1 z1 H = ret x11 /\
         run (kalman_recursion float_pow pinv_data positions angles dt P0 sq r)
         = ([ py.Array x10 :: py.Array x11 :: replicate m py.None_;
              replicate (S (S m) + 1) (py.List 0);
              py.Array P10 :: py.None_ :: replicate m py.None_;
              replicate (S (S m) + 1) (py.List 2);
              py.None_ :: py.Array K1 :: replicate m py.None_;
              py.None_ :: py.Array z1 :: replicate m py.None_ ],
            raise (BroadcastError [9; 9] [18; 18]))).
Proof.
  intros Hp Ha EP.
  destruct (first_prediction_returns dt P0 sq P10 EP)
    as (F & Q & P00 & EF & HF & EQ & HQ & EP00 & HP00 & EP10 & HP10).
  destruct (first_innovation_of_prediction dt P0 sq r P10 EP)
    as (H & Sg & _ & EH & HH & ES & HS & EI).
  destruct (x_init_ok positions angles (S m) Hp Ha) as (x0 & Ex0 & Hx0).
  pose proof (matmul_mv F x0 18 18 HF Hx0) as Ex10.
  set (x10 := NDArray [18] _) in Ex10.
  pose proof (getrow_ok positions (S (S m)) 3 1 Hp ltac:(lia)) as Ep1.
  pose proof (getrow_ok angles (S (S m)) 3 1 Ha ltac:(lia)) as Ea1.
  set (p1 := NDArray [3] _) in Ep1. set (a1 := NDArray [3] _) in Ea1.
  pose proof (r_ok p1 a1 3 3 eq_refl eq_refl) as Ez1.
  set (z1 := NDArray [3 + 3] _) in Ez1.
  destruct (gain_split pinv_data P10 H (R_matrix r) Sg HP10 HH HS ES) as [Hraise Hret].
  exists F, H, x0, x10, p1, a1, z1, Sg.
  repeat (split; [assumption|]).
  split.
  - intros e He.
    unfold kalman_recursion, len. rewrite Hp. cbn [hd].
    py_simpl. rewrite EF, EQ, EH, Ex0. py_simpl. rewrite EP00. py_simpl.
    rewrite Ex10. py_simpl. rewrite EP10. py_simpl.
    unfold kalman_step at 1. cbn [positions_ angles_ x_ P_ K_ z_ F_ Q_ H_ R_].
    rewrite Ep1, Ea1. py_simpl. rewrite Ez1. py_simpl.
    rewrite (Hraise e He). py_simpl. reflexivity.
  - intros d Hd. destruct (Hret d Hd) as (K1 & EK & HK1).
    destruct (state_update_ok x10 K1 z1 H eq_refl HK1 eq_refl HH) as (x11 & Ex11 & Hx11).
    exists K1, x11. repeat (split; [assumption|]).
    unfold kalman_recursion, len. rewrite Hp. cbn [hd].
    py_simpl. rewrite EF, EQ, EH, Ex0. py_simpl. rewrite EP00. py_simpl.
    rewrite Ex10. py_simpl. rewrite EP10. py_simpl.
    unfold kalman_step at 1. cbn [positions_ angles_ x_ P_ K_ z_ F_ Q_ H_ R_].
    rewrite Ep1, Ea1. py_simpl. rewrite Ez1. py_simpl.
    rewrite EK. py_simpl. rewrite Ex11. py_simpl.
    rewrite (covariance_update_raises P10 K1 H (R_matrix r) HK1 HH). py_simpl.
    reflexivity.
Qed.

End Recursion.

(** ** Shapes of the channels (lines 59-90) *)

Section Channels.

Import np.
Variable as_euler : ndarray -> result (float * float * float).

Lemma shape_translation p : shape (translation p) = [3].
Proof. destruct p as [[[[[[? ?] ?] ?] [[[? ?] ?] ?]] [[[? ?] ?] ?]] ?]. reflexivity. Qed.

Lemma shape_euler p e : euler as_euler p = ret e -> shape e = [3].
Proof.
  unfold euler. destruct (as_euler (rotation p)) as [err | [[ex ey] ez]]; cbn [bind];
    [discriminate|]. intros [= <-]. reflexivity.
Qed.

Lemma extract_acc_shapes poses : forall ps angs ps' angs',
  Forall (fun a => shape a = [3]) ps -> Forall (fun a => shape a = [3]) angs ->
  for_ poses (ps, angs) (fun acc pose =>
    let '(positions, angles) := acc in
    match pose with
    | Some p =>
        e <- euler as_euler p ;;
        ret (positions ++ [translation p], angles ++ [e])
    | None => ret (positions ++ [nan3], angles ++ [nan3])
    end) = ret (ps', angs') ->
  Forall (fun a => shape a = [3]) ps' /\ Forall (fun a => shape a = [3]) angs' /\
  length ps' = length ps + length poses /\ length angs' = length angs + length poses.
Proof.
  induction poses as [|pose poses IH]; intros ps angs ps' angs' Hps Hangs; cbn [for_].
  - intros [= <- <-]. cbn [length]. repeat split; auto; lia.
  - destruct pose as [p|].
    + destruct (euler as_euler p) as [err|e] eqn:Ee; cbn [bind ret]; [discriminate|].
      intros Hrun. apply IH in Hrun.
      * rewrite !length_app in Hrun. cbn [length] in *. intuition lia.
      * apply Forall_app; split; auto. constructor; auto. apply shape_translation.
      * apply Forall_app; split; auto. constructor; auto. eapply shape_euler; eauto.
    + cbn [bind ret]. intros Hrun. apply IH in Hrun.
      * rewrite !length_app in Hrun. cbn [length] in *. intuition lia.
      * apply Forall_app; split; auto.
      * apply Forall_app; split; auto.
Qed.

Lemma array_of_vec3 l :
  Forall (fun a => shape a = [3]) l -> l <> [] ->
  array l = ret (NDArray [length l; 3] (flat_map data l)).
Proof.
  intros Hl Hne. destruct l as [|a l']; [congruence|]. unfold array.
  replace (forallb _ _) with true.
  - inversion Hl as [|? ? Ha _]; subst. now rewrite Ha.
  - symmetry. apply forallb_forall. intros b Hb. apply bool_decide_eq_true.
    rewrite List.Forall_forall in Hl. rewrite (Hl b Hb), (Hl a); auto. now left.
Qed.

Lemma extract_channels_shapes poses positions angles :
  extract_channels as_euler poses = ret (positions, angles) ->
  poses <> [] ->
  shape positions = [length poses; 3] /\ shape angles = [length poses; 3].
Proof.
  unfold extract_channels. intros Hrun Hne.
  destruct (for_ poses _ _) as [err | [ps angs]] eqn:Efor; cbn [bind] in Hrun;
    [discriminate|].
  apply extract_acc_shapes in Efor; auto.
  destruct Efor as (Hps & Hangs & Lps & Langs). cbn [length] in Lps, Langs.
  assert (length poses <> 0) by (destruct poses; cbn [length]; congruence).
  rewrite (array_of_vec3 ps), (array_of_vec3 angs) in Hrun; auto;
    try (intros ->; cbn [length] in *; lia).
  cbn [bind ret] in Hrun. injection Hrun as <- <-. cbn [shape].
  now rewrite Lps, Langs.
Qed.

Lemma unwrap_angles_shape a a' : unwrap_angles a = ret a' -> shape a' = shape a.
Proof.
  unfold unwrap_angles.
  destruct (reshape_m1_3 _) as [|nna]; cbn [bind]; [discriminate|].
  destruct (unwrap_loop nna) as [|nna']; cbn [bind]; [discriminate|].
  unfold assign. destruct (_ =? _); [|discriminate]. now intros [= <-].
Qed.

Lemma nonzero_bound mask k : In k (nonzero mask) -> k < length mask.
Proof.
  unfold nonzero. intros Hk. apply in_map_iff in Hk as ([i b] & <- & Hin).
  apply filter_In in Hin as [Hin _]. apply in_combine_l, in_seq in Hin.
  cbn [fst]. lia.
Qed.

Lemma fold_min_le l : forall a, fold_left Nat.min l a <= a.
Proof.
  induction l as [|b l IH]; intros a; cbn [fold_left]; [lia|].
  specialize (IH (Nat.min a b)). lia.
Qed.

Lemma fold_max_bounds l N : forall a,
  a < N -> (forall b, In b l -> b < N) ->
  a <= fold_left Nat.max l a < N.
Proof.
  induction l as [|b l IH]; intros a Ha Hl; cbn [fold_left]; [lia|].
  assert (Hb : b < N) by (apply Hl; now left).
  specialize (IH (Nat.max a b)).
  destruct IH as [IH1 IH2]; [lia | intros c Hc; apply Hl; now right | lia].
Qed.

(** A successful trim yields at least one frame. *)
Lemma trim_shapes positions angles positions' angles' N :
  shape positions = [N; 3] -> shape angles = [N; 3] ->
  trim positions angles = ret (positions', angles') ->
  exists n, shape positions' = [S n; 3] /\ shape angles' = [S n; 3].
Proof.
  intros Hp Ha. unfold trim, getcol. rewrite Hp. cbn [Nat.ltb Nat.leb bind ret].
  set (mask := invert (isnan _)).
  assert (Hlen : length mask = N).
  { unfold mask, invert, isnan. cbn [data].
    now rewrite !length_map, length_tabulate. }
  pose proof (nonzero_bound mask) as Hb. rewrite Hlen in Hb.
  destruct (nonzero mask) as [|i0 l]; cbn [min max bind ret raise]; [discriminate|].
  unfold slice_rows. rewrite Hp, Ha. cbn [bind ret].
  intros [= <- <-]. cbn [shape].
  pose proof (fold_min_le l i0) as Hlo.
  destruct (fold_max_bounds l N i0) as [Hhi1 Hhi2];
    [apply Hb; now left | intros b Hin; apply Hb; now right |].
  exists (fold_left Nat.max l i0 - fold_left Nat.min l i0).
  split; do 2 f_equal; lia.
Qed.

(** Whatever reaches the recursion has at least one frame and three
    columns per channel. *)
Lemma trimmed_channels_shapes poses positions angles :
  trimmed_channels as_euler poses = ret (positions, angles) ->
  exists n, shape positions = [S n; 3] /\ shape angles = [S n; 3].
Proof.
  unfold trimmed_channels. intros Hrun.
  destruct (extract_channels as_euler poses) as [|[p a]] eqn:Ex; cbn [bind] in Hrun;
    [discriminate|].
  destruct (unwrap_angles a) as [|a1] eqn:Eu; cbn [bind] in Hrun; [discriminate|].
  destruct poses as [|pose poses'].
  - cbv in Ex. injection Ex as <- <-.
    unfold trim, getcol in Hrun. cbn [shape bind] in Hrun. discriminate.
  - apply extract_channels_shapes in Ex as [Hp Ha]; [|discriminate].
    apply unwrap_angles_shape in Eu. rewrite Ha in Eu.
    exact (trim_shapes p a1 positions angles _ Hp Eu Hrun).
Qed.

End Channels.

(** ** No path through the function returns *)

Section NoReturn.

Lemma raises_throw {A} (e : exn) : always_raises (@py.throw A e).
Proof. intros h. now exists h, e. Qed.

Lemma raises_bind {A B} (m : py.Py A) (k : A -> py.Py B) :
  (forall a, always_raises (k a)) -> always_raises (py.bind m k).
Proof.
  intros Hk h. unfold py.bind. destruct (m h) as [h' [e|a]].
  - now exists h', e.
  - apply Hk.
Qed.

Variable float_pow : float -> nat -> result float.
Variable as_euler : np.ndarray -> result (float * float * float).
Variable pinv_data : nat -> nat -> list float -> result (list float).

Lemma kalman_recursion_raises positions angles dt P0 sq_sigma_a r :
  always_raises (kalman_recursion float_pow pinv_data positions angles dt P0 sq_sigma_a r).
Proof.
  unfold kalman_recursion. cbv zeta.
  repeat (apply raises_bind; intros ?). apply raises_throw.
Qed.

Lemma kalman_filter_raises poses dt P0 sq_sigma_a r :
  always_raises (kalman_filter float_pow as_euler pinv_data poses dt P0 sq_sigma_a r).
Proof.
  unfold kalman_filter.
  apply raises_bind; intros [positions angles].
  apply raises_bind; intros angles'.
  apply raises_bind; intros [positions'' angles''].
  apply kalman_recursion_raises.
Qed.

Lemma kalman_filter_split poses dt P0 sq_sigma_a r :
  run (kalman_filter float_pow as_euler pinv_data poses dt P0 sq_sigma_a r)
  = match trimmed_channels as_euler poses with
    | inl e => ([], raise e)
    | inr (positions, angles) =>
        run (kalman_recursion float_pow pinv_data positions angles dt P0 sq_sigma_a r)
    end.
Proof.
  unfold run, kalman_filter, trimmed_channels, py.bind, py.lift.
  destruct (extract_channels as_euler poses) as [|[p a]]; cbn [bind]; [reflexivity|].
  destruct (unwrap_angles a) as [|a1]; cbn [bind]; [reflexivity|].
  destruct (trim p a1) as [|[p' a']]; reflexivity.
Qed.

End NoReturn.

(** ** Angle unwrapping on the whole channel (lines 73-81) *)

Section UnwrapChannel.

Import np.
Local Open Scope float_scope.

Lemma mask_of_frames fs :
  Forall nan_free fs ->
  invert (isnan (channel_of fs)) = flat_map frame_mask fs.
Proof.
  unfold invert, isnan, channel_of. cbn [data].
  induction 1 as [|f fs Hf _ IH]; [reflexivity|].
  cbn [flat_map]. rewrite !map_app, IH. f_equal.
  destruct f as [[[a b] c]|]; cbn in *; [|reflexivity].
  destruct Hf as (-> & -> & ->). reflexivity.
Qed.

Lemma select_frames fs :
  map fst (List.filter snd (combine (flat_map frame_data fs) (flat_map frame_mask fs)))
  = flat_map triple (present_frames fs).
Proof.
  induction fs as [|[[[a b] c]|] fs IH]; [reflexivity| |]; cbn; now rewrite IH.
Qed.

Lemma count_frames fs :
  length (List.filter id (flat_map frame_mask fs)) = (length (present_frames fs) * 3)%nat.
Proof.
  induction fs as [|[t|] fs IH]; [reflexivity| |]; cbn; now rewrite IH.
Qed.

Lemma length_triples ps : length (flat_map triple ps) = (length ps * 3)%nat.
Proof.
  induction ps as [|[[a b] c] ps IH]; [reflexivity|]. cbn. now rewrite IH.
Qed.

Lemma at2_triples ps : forall k j d,
  (k < length ps)%nat -> (j < 3)%nat ->
  at2 3 (flat_map triple ps) k j = component (nth k ps d) j.
Proof.
  induction ps as [|[[a b] c] ps IH]; intros k j d Hk Hj; cbn [length] in Hk; [lia|].
  destruct k as [|k].
  - assert (Hc : j = 0%nat \/ j = 1%nat \/ j = 2%nat) by lia.
    destruct Hc as [-> | [-> | ->]]; reflexivity.
  - cbn [nth flat_map triple]. rewrite <- (IH k j d) by lia.
    unfold at2, item.
    replace (S k * 3 + j)%nat with (S (S (S (k * 3 + j)))) by lia.
    reflexivity.
Qed.

Lemma component_step3 p c j :
  component (step3 p c) j = unwrap_step (component p j) (component c j).
Proof.
  destruct p as [[p0 p1] p2], c as [[c0 c1] c2].
  destruct j as [|[|j]]; reflexivity.
Qed.

Lemma length_unwrap_present_after ps : forall prev,
  length (unwrap_present_after prev ps) = length ps.
Proof. induction ps as [|c ps IH]; intros prev; cbn; [reflexivity|]. now rewrite IH. Qed.

Lemma length_unwrap_present ps : length (unwrap_present ps) = length ps.
Proof. destruct ps; cbn; [reflexivity|]. now rewrite length_unwrap_present_after. Qed.

(** Each unwrapped present frame is the step of the unwrapped frame
    before it and the frame itself. *)
Lemma nth_unwrap_present_after ps : forall prev k d,
  (k < length ps)%nat ->
  nth k (unwrap_present_after prev ps) d
  = step3 (nth k (prev :: unwrap_present_after prev ps) d) (nth k ps d).
Proof.
  induction ps as [|c ps IH]; intros prev k d Hk; cbn [length] in Hk; [lia|].
  destruct k as [|k]; [reflexivity|].
  cbn [unwrap_present_after nth]. rewrite IH by lia. reflexivity.
Qed.

Lemma unwrapped_present ps d : forall k j,
  (k < length ps)%nat -> (j < 3)%nat ->
  component (nth k (unwrap_present ps) d) j = unwrapped (flat_map triple ps) j k.
Proof.
  induction k as [|k IH]; intros j Hk Hj.
  - destruct ps as [|first ps]; cbn [length] in Hk; [lia|].
    cbn [unwrapped unwrap_present nth].
    now rewrite (at2_triples (first :: ps) 0 j d) by (cbn [length]; lia).
  - cbn [unwrapped]. rewrite <- IH by lia.
    rewrite (at2_triples ps (S k) j d) by lia.
    rewrite <- component_step3. f_equal.
    destruct ps as [|first ps]; cbn [length] in Hk; [lia|].
    cbn [unwrap_present nth].
    rewrite nth_unwrap_present_after by lia. reflexivity.
Qed.

(** The loop on the present frames, in terms of frames. *)
Lemma unwrap_loop_present ps :
  unwrap_loop (NDArray [length ps; 3%nat] (flat_map triple ps))
  = ret (NDArray [length ps; 3%nat] (flat_map triple (unwrap_present ps))).
Proof.
  destruct (unwrap_loop_spec (NDArray [length ps; 3%nat] (flat_map triple ps)) (length ps))
    as (a' & E & Hs & Hl & Hv); [reflexivity | apply length_triples |].
  rewrite E. f_equal. destruct a' as [s d]. cbn [shape data] in *. subst s. f_equal.
  apply nth_ext with (d := 0) (d' := 0).
  - now rewrite Hl, length_triples, length_unwrap_present.
  - intros q Hq. rewrite Hl in Hq.
    assert (Hdiv : (q = (q / 3) * 3 + q mod 3)%nat)
      by (rewrite Nat.mul_comm; apply Nat.div_mod_eq).
    assert (Hmod : (q mod 3 < 3)%nat) by (apply Nat.mod_upper_bound; lia).
    assert (Hquo : (q / 3 < length ps)%nat) by (apply Nat.Div0.div_lt_upper_bound; lia).
    rewrite Hdiv. fold (item d (q / 3 * 3 + q mod 3)).
    fold (item (flat_map triple (unwrap_present ps)) (q / 3 * 3 + q mod 3)).
    fold (at2 3 d (q / 3) (q mod 3)).
    fold (at2 3 (flat_map triple (unwrap_present ps)) (q / 3) (q mod 3)).
    rewrite Hv by assumption.
    rewrite (at2_triples _ _ _ (0, 0, 0)) by (rewrite ?length_unwrap_present; assumption).
    symmetry. now apply unwrapped_present.
Qed.

Lemma scatter_after fs : forall prev,
  scatter (flat_map frame_data fs) (flat_map frame_mask fs)
    (flat_map triple (unwrap_present_after prev (present_frames fs)))
  = flat_map frame_data (unwrap_after prev fs).
Proof.
  induction fs as [|[cur|] fs IH]; intros prev; [reflexivity| |].
  - cbn [present_frames unwrap_present_after unwrap_after flat_map frame_data frame_mask].
    destruct (step3 prev cur) as [[x y] z] eqn:Es. destruct cur as [[a b] c].
    cbn. rewrite <- IH. reflexivity.
  - cbn. now rewrite IH.
Qed.

Lemma scatter_frames fs :
  scatter (flat_map frame_data fs) (flat_map frame_mask fs)
    (flat_map triple (unwrap_present (present_frames fs)))
  = flat_map frame_data (unwrap_frames fs).
Proof.
  induction fs as [|[first|] fs IH]; [reflexivity| |].
  - cbn [present_frames unwrap_present unwrap_frames flat_map frame_data frame_mask].
    destruct first as [[a b] c]. cbn. now rewrite scatter_after.
  - cbn. now rewrite IH.
Qed.

Lemma length_unwrap_after fs : forall prev, length (unwrap_after prev fs) = length fs.
Proof.
  induction fs as [|[c|] fs IH]; intros prev; cbn; [reflexivity| |]; now rewrite IH.
Qed.

Lemma length_unwrap_frames fs : length (unwrap_frames fs) = length fs.
Proof.
  induction fs as [|[c|] fs IH]; cbn; [reflexivity| |].
  - now rewrite length_unwrap_after.
  - now rewrite IH.
Qed.

(** C6, as the code has it.  On a channel whose frames are missing (all
    nan) or present (free of nan), unwrapping succeeds, leaves the missing
    frames where they are, keeps the first present frame, and replaces
    each later present frame, in each of its three dimensions separately,
    by [unwrap_step prev cur]: with [cur] the sample and [prev] the
    unwrapped sample of the present frame before it, 2 pi is subtracted
    from [cur] when [cur - prev > 1.8 pi], added when
    [cur - prev < -1.8 pi], and [cur] is kept otherwise.  Only the current
    sample is shifted; a later sample is shifted only if its own difference
    to its unwrapped predecessor passes the threshold. *)
Theorem unwrap_angles_steps_present_frames (fs : list frame) :
  Forall nan_free fs ->
  unwrap_angles (channel_of fs) = ret (channel_of (unwrap_frames fs)).
Proof.
  intros Hfs. unfold unwrap_angles.
  rewrite (mask_of_frames fs Hfs).
  unfold select. change (data (channel_of fs)) with (flat_map frame_data fs).
  rewrite select_frames. unfold reshape_m1_3. cbn [data].
  rewrite length_triples, Nat.Div0.mod_mul, Nat.div_mul by lia.
  cbn [Nat.eqb bind ret].
  rewrite unwrap_loop_present. cbn [bind ret].
  unfold assign, reshape_m1. cbn [data shape].
  change (data (channel_of fs)) with (flat_map frame_data fs).
  change (shape (channel_of fs)) with [length fs; 3%nat].
  rewrite count_frames, length_triples, length_unwrap_present, Nat.eqb_refl.
  rewrite scatter_frames. unfold channel_of. now rewrite length_unwrap_frames.
Qed.

End UnwrapChannel.

(** ** Tracks of valid poses (lines 59-90) *)

Section ValidTracks.

Import np.
Variable as_euler : ndarray -> result angles3.

Lemma translation_frame p : translation p = frame_array (Some (trans3 p)).
Proof. destruct p as [[[[[[? ?] ?] ?] [[[? ?] ?] ?]] [[[? ?] ?] ?]] ?]. reflexivity. Qed.

Lemma euler_frame p t :
  as_euler (rotation p) = ret t -> euler as_euler p = ret (frame_array (Some t)).
Proof. intros E. unfold euler. rewrite E. destruct t as [[a b] c]. reflexivity. Qed.

Lemma extract_valid_acc poses : forall ps angs,
  Forall (valid_pose as_euler) poses ->
  for_ poses (ps, angs) (fun acc pose =>
    let '(positions, angles) := acc in
    match pose with
    | Some p =>
        e <- euler as_euler p ;;
        ret (positions ++ [translation p], angles ++ [e])
    | None => ret (positions ++ [nan3], angles ++ [nan3])
    end)
  = ret (ps ++ map frame_array (position_frames poses),
         angs ++ map frame_array (angle_frames as_euler poses)).
Proof.
  induction poses as [|pose poses IH]; intros ps angs Hv; cbn [for_].
  - cbn. now rewrite !app_nil_r.
  - inversion Hv as [|? ? Hpose Hrest]; subst.
    destruct pose as [p|].
    + destruct Hpose as (_ & t & Et & _).
      rewrite (euler_frame p t Et). cbn [bind ret].
      rewrite IH by assumption.
      cbn [position_frames angle_frames map option_map]. rewrite Et.
      rewrite translation_frame, <- !app_assoc. reflexivity.
    + cbn [bind ret]. rewrite IH by assumption.
      cbn [position_frames angle_frames map option_map].
      rewrite <- !app_assoc. reflexivity.
Qed.

Lemma array_frames fs :
  fs <> [] -> array (map frame_array fs) = ret (channel_of fs).
Proof.
  intros Hne. rewrite array_of_vec3.
  - unfold channel_of. rewrite length_map. do 2 f_equal.
    induction fs as [|f fs IH]; [congruence|]. cbn [map flat_map frame_array data].
    f_equal. destruct fs; [reflexivity|]. apply IH. discriminate.
  - apply List.Forall_forall. intros a Ha. apply in_map_iff in Ha as (f & <- & _).
    reflexivity.
  - destruct fs; [congruence|discriminate].
Qed.

Lemma extract_valid poses :
  poses <> [] -> Forall (valid_pose as_euler) poses ->
  extract_channels as_euler poses
  = ret (channel_of (position_frames poses), channel_of (angle_frames as_euler poses)).
Proof.
  intros Hne Hv. unfold extract_channels. rewrite extract_valid_acc by assumption.
  cbn [bind ret app].
  rewrite !array_frames; [reflexivity | |];
    destruct poses; try congruence; discriminate.
Qed.

Lemma valid_frames poses :
  Forall (valid_pose as_euler) poses ->
  Forall nan_free (position_frames poses) /\
  Forall nan_free (angle_frames as_euler poses).
Proof.
  induction 1 as [|pose poses Hpose _ [IH1 IH2]]; [split; constructor|].
  cbn [position_frames angle_frames map]. split; constructor; auto.
  - destruct pose as [p|]; [apply Hpose | exact I].
  - destruct pose as [p|]; [|exact I].
    destruct Hpose as (_ & t & -> & Ht). exact Ht.
Qed.

Lemma unwrap_angles_succeeds fs :
  Forall nan_free fs ->
  exists A, unwrap_angles (channel_of fs) = ret A /\ shape A = [length fs; 3].
Proof.
  intros Hfs. unfold unwrap_angles.
  rewrite (mask_of_frames fs Hfs).
  unfold select. change (data (channel_of fs)) with (flat_map frame_data fs).
  rewrite select_frames. unfold reshape_m1_3. cbn [data].
  rewrite length_triples, Nat.Div0.mod_mul, Nat.div_mul by lia.
  cbn [Nat.eqb bind ret].
  rewrite unwrap_loop_present. cbn [bind ret].
  unfold assign, reshape_m1. cbn [data shape].
  rewrite count_frames, length_triples, length_unwrap_present, Nat.eqb_refl.
  eexists; split; reflexivity.
Qed.

Lemma tabulate_S n f : tabulate (S n) f = f 0 :: tabulate n (fun k => f (S k)).
Proof.
  unfold tabulate. cbn [seq map]. f_equal.
  rewrite <- seq_shift, map_map. reflexivity.
Qed.

(** The mask [~np.isnan(positions[:, 0])] marks the present frames. *)
Lemma column_mask fs :
  Forall nan_free fs ->
  map negb (map PrimFloat.is_nan
              (tabulate (length fs) (fun i => at2 3 (flat_map frame_data fs) i 0)))
  = map is_present fs.
Proof.
  induction 1 as [|f fs Hf _ IH]; [reflexivity|].
  cbn [length]. rewrite tabulate_S. cbn [map]. f_equal.
  - destruct f as [[[a b] c]|]; cbn in *; [|reflexivity].
    destruct Hf as (-> & _). reflexivity.
  - rewrite <- IH. do 2 f_equal. apply tabulate_ext. intros k _.
    unfold at2, item. cbn [flat_map].
    replace (S k * 3 + 0) with (S (S (S (k * 3 + 0)))) by lia.
    destruct f as [[[a b] c]|]; reflexivity.
Qed.

Lemma increasing_from_weaken l : forall s s',
  s <= s' -> increasing_from s' l -> increasing_from s l.
Proof. destruct l as [|b l]; cbn; intuition lia. Qed.

Lemma nonzero_increasing mask : forall s,
  increasing_from s (map fst (List.filter snd (combine (seq s (length mask)) mask))).
Proof.
  induction mask as [|b mask IH]; intros s; [exact I|].
  cbn [length seq combine List.filter snd]. destruct b; cbn [map fst increasing_from].
  - split; [lia | apply IH].
  - apply increasing_from_weaken with (s' := S s); [lia | apply IH].
Qed.

Lemma length_nonzero mask : forall s,
  length (map fst (List.filter snd (combine (seq s (length mask)) mask)))
  = length (List.filter id mask).
Proof.
  induction mask as [|b mask IH]; intros s; [reflexivity|].
  cbn [length seq combine List.filter snd id]. destruct b; cbn [map length]; now rewrite IH.
Qed.

Lemma increasing_min l : forall a,
  increasing_from (S a) l -> fold_left Nat.min l a = a.
Proof.
  induction l as [|b l IH]; intros a Hl; [reflexivity|].
  destruct Hl as [Hab Hl]. cbn [fold_left].
  replace (Nat.min a b) with a by lia.
  apply IH. apply increasing_from_weaken with (s' := S b); [lia | exact Hl].
Qed.

Lemma increasing_max l : forall a,
  increasing_from (S a) l -> a + length l <= fold_left Nat.max l a.
Proof.
  induction l as [|b l IH]; intros a Hl; cbn [fold_left length]; [lia|].
  destruct Hl as [Hab Hl]. replace (Nat.max a b) with b by lia.
  specialize (IH b Hl). lia.
Qed.

Lemma present_count_mask poses :
  present_count poses = length (List.filter id (map is_present (position_frames poses))).
Proof.
  unfold present_count, position_frames.
  induction poses as [|[p|] poses IH]; cbn; [reflexivity| |]; now rewrite IH.
Qed.

(** Trimming a channel of valid frames keeps at least as many frames as are
    present, and exactly one when one is present. *)
Lemma trim_valid fs A :
  Forall nan_free fs -> shape A = [length fs; 3] ->
  1 <= length (List.filter id (map is_present fs)) ->
  exists positions angles,
    trim (channel_of fs) A = ret (positions, angles) /\
    length (List.filter id (map is_present fs)) <= len positions /\
    (length (List.filter id (map is_present fs)) = 1 -> len positions = 1).
Proof.
  intros Hfs HA Hk. unfold trim, getcol.
  change (shape (channel_of fs)) with [length fs; 3].
  cbn [Nat.ltb Nat.leb bind ret]. unfold invert, isnan. cbn [data].
  change (data (channel_of fs)) with (flat_map frame_data fs).
  rewrite (column_mask fs Hfs).
  pose proof (nonzero_bound (map is_present fs)) as Hb. rewrite length_map in Hb.
  pose proof (nonzero_increasing (map is_present fs) 0) as Hinc.
  pose proof (length_nonzero (map is_present fs) 0) as Hlen.
  fold (nonzero (map is_present fs)) in Hinc, Hlen.
  destruct (nonzero (map is_present fs)) as [|a l]; [cbn [length] in Hlen; lia|].
  cbn [min max bind ret]. unfold slice_rows.
  change (shape (channel_of fs)) with [length fs; 3]. rewrite HA. cbn [bind ret].
  destruct Hinc as [_ Hinc].
  rewrite (increasing_min l a Hinc).
  pose proof (increasing_max l a Hinc) as Hmax.
  destruct (fold_max_bounds l (length fs) a) as [_ Hhi];
    [apply Hb; now left | intros b Hin; apply Hb; now right |].
  eexists _, _. split; [reflexivity|]. cbn [len shape hd].
  rewrite <- Hlen. cbn [length] in *. split; [lia|].
  intros Hone. destruct l; [cbn [fold_left]; lia | cbn [length] in Hone; lia].
Qed.

(** What a track of valid poses hands to the recursion. *)
Lemma trimmed_valid poses :
  Forall (valid_pose as_euler) poses -> 1 <= present_count poses ->
  exists positions angles,
    trimmed_channels as_euler poses = ret (positions, angles) /\
    present_count poses <= len positions /\
    (present_count poses = 1 -> len positions = 1).
Proof.
  intros Hv Hk. unfold trimmed_channels.
  assert (Hne : poses <> []) by (intros ->; cbn in Hk; lia).
  rewrite (extract_valid poses Hne Hv). cbn [bind ret].
  destruct (valid_frames poses Hv) as [Hpf Haf].
  destruct (unwrap_angles_succeeds _ Haf) as (A & -> & HA). cbn [bind ret].
  rewrite present_count_mask in *.
  apply trim_valid; auto.
  rewrite HA. unfold angle_frames, position_frames. now rewrite !length_map.
Qed.

End ValidTracks.

(** ** The call as a whole *)

Section Call.

Variable float_pow : float -> nat -> result float.
Variable as_euler : np.ndarray -> result (float * float * float).
Variable pinv_data : nat -> nat -> list float -> result (list float).

Lemma recursion_outcome positions angles dt P0 sq_sigma_a r n :
  np.shape positions = [S n; 3] -> np.shape angles = [S n; 3] ->
  (forall e, first_innovation float_pow dt P0 sq_sigma_a r = raise e ->
     snd (run (kalman_recursion float_pow pinv_data positions angles dt P0 sq_sigma_a r))
     = raise e) /\
  (forall Sg, first_innovation float_pow dt P0 sq_sigma_a r = ret Sg ->
     (n = 0 ->
      snd (run (kalman_recursion float_pow pinv_data positions angles dt P0 sq_sigma_a r))
      = raise ZerosMissingShape) /\
     (1 <= n -> forall d, pinv_data 6 6 (np.data Sg) = ret d ->
      snd (run (kalman_recursion float_pow pinv_data positions angles dt P0 sq_sigma_a r))
      = raise (BroadcastError [9; 9] [18; 18])) /\
     (1 <= n -> forall e, pinv_data 6 6 (np.data Sg) = raise e ->
      snd (run (kalman_recursion float_pow pinv_data positions angles dt P0 sq_sigma_a r))
      = raise e)).
Proof.
  intros Hp Ha. split.
  - intros e He. apply first_innovation_raises in He.
    now rewrite (recursion_stops_at_the_powers float_pow pinv_data positions angles
                   dt P0 sq_sigma_a r n e Hp He).
  - intros Sg HS.
    destruct (first_innovation_returns float_pow dt P0 sq_sigma_a r Sg HS)
      as (P10 & H & EP & _).
    destruct n as [|m].
    + split; [|split; intros; lia]. intros _.
      destruct (recursion_tables_one float_pow pinv_data positions angles
                  dt P0 sq_sigma_a r P10 Hp Ha EP) as (F & x0 & x10 & _ & _ & _ & ->).
      reflexivity.
    + destruct (recursion_tables_two float_pow pinv_data positions angles
                  dt P0 sq_sigma_a r m P10 Hp Ha EP)
        as (F & H' & x0 & x10 & p1 & a1 & z1 & Sg' & _ & _ & _ & _ & _ & _ & _
            & HS' & Hraise & Hret).
      rewrite HS in HS'. injection HS' as <-.
      split; [lia|]. split.
      * intros _ d Hd. destruct (Hret d Hd) as (K1 & x11 & _ & _ & ->). reflexivity.
      * intros _ e He. now rewrite (Hraise e He).
Qed.

(** C3, as the code has it.  No call of [kalman_filter] returns: from
    every heap it ends in an exception, and its last statement is the
    [np.zeros()] that raises.  Whenever the trimmed span exists it has at
    least one frame, and the exception is decided by the configuration and
    the number of frames: a power of [dt] that overflows at line 100 or 106
    ends the call with its [OverflowError]; otherwise [H P[1][0] H^T + R]
    is computed and, with exactly one frame, the loop is skipped and the call ends in the [TypeError] of
    [np.zeros()]; with two or more frames it ends at frame 1, in the
    exception of [np.linalg.pinv] when that raises on [H P H^T + R], and in
    the [ValueError] of [np.eye(9) - K[i] @ H], shapes (9, 9) against
    (18, 18), when it returns.  On a track of valid poses the trimmed span
    has one frame when one pose is present and two or more when two or more
    are. *)
Theorem kalman_filter_never_returns (poses : list (option pose))
    (dt P0 sq_sigma_a r : float) :
  always_raises (kalman_filter float_pow as_euler pinv_data poses dt P0 sq_sigma_a r) /\
  (forall positions angles,
    trimmed_channels as_euler poses = ret (positions, angles) ->
    1 <= np.len positions /\
    (forall e, powers float_pow dt = raise e ->
       snd (run (kalman_filter float_pow as_euler pinv_data poses dt P0 sq_sigma_a r))
       = raise e) /\
    (forall p, powers float_pow dt = ret p ->
       exists Sg, first_innovation float_pow dt P0 sq_sigma_a r = ret Sg) /\
    (forall Sg, first_innovation float_pow dt P0 sq_sigma_a r = ret Sg ->
       (np.len positions = 1 ->
        snd (run (kalman_filter float_pow as_euler pinv_data poses dt P0 sq_sigma_a r))
        = raise ZerosMissingShape) /\
       (2 <= np.len positions -> forall d, pinv_data 6 6 (np.data Sg) = ret d ->
        snd (run (kalman_filter float_pow as_euler pinv_data poses dt P0 sq_sigma_a r))
        = raise (BroadcastError [9; 9] [18; 18])) /\
       (2 <= np.len positions -> forall e, pinv_data 6 6 (np.data Sg) = raise e ->
        snd (run (kalman_filter float_pow as_euler pinv_data poses dt P0 sq_sigma_a r))
        = raise e))) /\
  (Forall (valid_pose as_euler) poses ->
   forall Sg, first_innovation float_pow dt P0 sq_sigma_a r = ret Sg ->
    (present_count poses = 1 ->
     snd (run (kalman_filter float_pow as_euler pinv_data poses dt P0 sq_sigma_a r))
     = raise ZerosMissingShape) /\
    (2 <= present_count poses -> forall d, pinv_data 6 6 (np.data Sg) = ret d ->
     snd (run (kalman_filter float_pow as_euler pinv_data poses dt P0 sq_sigma_a r))
     = raise (BroadcastError [9; 9] [18; 18])) /\
    (2 <= present_count poses -> forall e, pinv_data 6 6 (np.data Sg) = raise e ->
     snd (run (kalman_filter float_pow as_euler pinv_data poses dt P0 sq_sigma_a r))
     = raise e)).
Proof.
  assert (Htrimmed : forall positions angles,
    trimmed_channels as_euler poses = ret (positions, angles) ->
    1 <= np.len positions /\
    (forall e, powers float_pow dt = raise e ->
       snd (run (kalman_filter float_pow as_euler pinv_data poses dt P0 sq_sigma_a r))
       = raise e) /\
    (forall p, powers float_pow dt = ret p ->
       exists Sg, first_innovation float_pow dt P0 sq_sigma_a r = ret Sg) /\
    (forall Sg, first_innovation float_pow dt P0 sq_sigma_a r = ret Sg ->
       (np.len positions = 1 ->
        snd (run (kalman_filter float_pow as_euler pinv_data poses dt P0 sq_sigma_a r))
        = raise ZerosMissingShape) /\
       (2 <= np.len positions -> forall d, pinv_data 6 6 (np.data Sg) = ret d ->
        snd (run (kalman_filter float_pow as_euler pinv_data poses dt P0 sq_sigma_a r))
        = raise (BroadcastError [9; 9] [18; 18])) /\
       (2 <= np.len positions -> forall e, pinv_data 6 6 (np.data Sg) = raise e ->
        snd (run (kalman_filter float_pow as_euler pinv_data poses dt P0 sq_sigma_a r))
        = raise e))).
  { intros positions angles Htrim.
    destruct (trimmed_channels_shapes as_euler poses positions angles Htrim)
      as (n & Hp & Ha).
    rewrite kalman_filter_split, Htrim. unfold np.len. rewrite Hp. cbn [hd].
    destruct (recursion_outcome positions angles dt P0 sq_sigma_a r n Hp Ha) as [H1 H2].
    split; [lia|].
    split; [intros e He; apply H1; now apply powers_raise|].
    split; [intros p Hpow; now apply (powers_return float_pow dt P0 sq_sigma_a r p)|].
    intros Sg HS. destruct (H2 Sg HS) as (Hone & Hret & Hraise).
    split; [|split].
    - intros Hn. apply Hone. lia.
    - intros Hn. apply Hret. lia.
    - intros Hn. apply Hraise. lia. }
  split; [apply kalman_filter_raises|]. split; [exact Htrimmed|].
  intros Hvalid Sg HS. split; [|split].
  - intros Hone.
    destruct (trimmed_valid as_euler poses Hvalid) as (positions & angles & Htrim & _ & Hlen);
      [lia|].
    destruct (Htrimmed positions angles Htrim) as (_ & _ & _ & H3).
    destruct (H3 Sg HS) as (Hzeros & _ & _). apply Hzeros. auto.
  - intros Htwo.
    destruct (trimmed_valid as_euler poses Hvalid) as (positions & angles & Htrim & Hlen & _);
      [lia|].
    destruct (Htrimmed positions angles Htrim) as (_ & _ & _ & H3).
    destruct (H3 Sg HS) as (_ & Hret & _). apply Hret. lia.
  - intros Htwo.
    destruct (trimmed_valid as_euler poses Hvalid) as (positions & angles & Htrim & Hlen & _);
      [lia|].
    destruct (Htrimmed positions angles Htrim) as (_ & _ & _ & H3).
    destruct (H3 Sg HS) as (_ & _ & Hraise). apply Hraise. lia.
Qed.

(** C9, as the code has it.  The configuration is never validated: no
    value of [dt], [P0], [sq_sigma_a] or [r] (zero or negative included) is
    rejected.  Extraction, unwrapping and trimming do not look at it, and
    for any two configurations on which the powers of [dt] do not overflow
    and [np.linalg.pinv] returns on [H P H^T + R], whatever their signs,
    the call ends in the same exception. *)
Theorem configuration_is_not_validated (poses : list (option pose))
    (dt P0 sq_sigma_a r dt' P0' sq_sigma_a' r' : float)
    (Sg Sg' : np.ndarray) (d d' : list float) :
  first_innovation float_pow dt P0 sq_sigma_a r = ret Sg ->
  pinv_data 6 6 (np.data Sg) = ret d ->
  first_innovation float_pow dt' P0' sq_sigma_a' r' = ret Sg' ->
  pinv_data 6 6 (np.data Sg') = ret d' ->
  snd (run (kalman_filter float_pow as_euler pinv_data poses dt P0 sq_sigma_a r))
  = snd (run (kalman_filter float_pow as_euler pinv_data poses dt' P0' sq_sigma_a' r')).
Proof.
  intros HS Hd HS' Hd'. rewrite !kalman_filter_split.
  destruct (trimmed_channels as_euler poses) as [e|[positions angles]] eqn:Htrim;
    [reflexivity|].
  destruct (trimmed_channels_shapes as_euler poses positions angles Htrim)
    as (n & Hp & Ha).
  destruct (recursion_outcome positions angles dt P0 sq_sigma_a r n Hp Ha) as [_ H2].
  destruct (recursion_outcome positions angles dt' P0' sq_sigma_a' r' n Hp Ha) as [_ H2'].
  destruct (H2 Sg HS) as (Hone & Hret & _).
  destruct (H2' Sg' HS') as (Hone' & Hret' & _).
  destruct n as [|m].
  - now rewrite Hone, Hone'.
  - rewrite (Hret ltac:(lia) d Hd), (Hret' ltac:(lia) d' Hd'). reflexivity.
Qed.

End Call.

(** The theorem above at a track of two frames and at a track of one. *)
Lemma kalman_filter_never_returns_witness :
  snd (run (kalman_filter pow_by_products euler_of_identity pinv_diag two_frames
              default_dt default_P0 default_sq_sigma_a default_r))
  = raise (BroadcastError [9; 9] [18; 18]) /\
  snd (run (kalman_filter pow_by_products euler_of_identity pinv_diag one_frame
              default_dt default_P0 default_sq_sigma_a default_r))
  = raise ZerosMissingShape.
Proof.
  assert (E : exists Sg d,
             first_innovation pow_by_products default_dt default_P0
               default_sq_sigma_a default_r = ret Sg /\
             pinv_diag 6 6 (np.data Sg) = ret d)
    by (eexists _, _; split; [vm_compute; reflexivity | reflexivity]).
  destruct E as (Sg & d & HS & Hd).
  split.
  - refine (proj1 (proj2 (proj2 (proj2 (kalman_filter_never_returns pow_by_products
              euler_of_identity pinv_diag
              two_frames default_dt default_P0 default_sq_sigma_a default_r)) _ Sg HS))
              _ d Hd).
    + repeat constructor; eexists; repeat split; reflexivity.
    + vm_compute. lia.
  - refine (proj1 (proj2 (proj2 (kalman_filter_never_returns pow_by_products
              euler_of_identity pinv_diag
              one_frame default_dt default_P0 default_sq_sigma_a default_r)) _ Sg HS) _).
    + repeat constructor; eexists; repeat split; reflexivity.
    + reflexivity.
Defined.

(** The theorem above at a negative time step and negative variances. *)
Lemma configuration_is_not_validated_witness :
  snd (run (kalman_filter pow_by_products euler_of_identity pinv_diag two_frames
              (-1) (-500) (-100) (-1)))
  = snd (run (kalman_filter pow_by_products euler_of_identity pinv_diag two_frames
              default_dt default_P0 default_sq_sigma_a default_r)).
Proof.
  assert (E : exists Sg d,
             first_innovation pow_by_products (-1) (-500) (-100) (-1) = ret Sg /\
             pinv_diag 6 6 (np.data Sg) = ret d)
    by (eexists _, _; split; [vm_compute; reflexivity | reflexivity]).
  assert (E' : exists Sg d,
             first_innovation pow_by_products default_dt default_P0
               default_sq_sigma_a default_r = ret Sg /\
             pinv_diag 6 6 (np.data Sg) = ret d)
    by (eexists _, _; split; [vm_compute; reflexivity | reflexivity]).
  destruct E as (Sg & d & HS & Hd). destruct E' as (Sg' & d' & HS' & Hd').
  exact (configuration_is_not_validated pow_by_products euler_of_identity pinv_diag
           two_frames _ _ _ _ _ _ _ _ Sg Sg' d d' HS Hd HS' Hd').
Defined.

(** ** A missing frame in the update (line 137) *)

Section MissingFrame.

Import np.
Local Open Scope float_scope.

Lemma dot_nan k f g :
  (0 < k)%nat -> (forall l, (l < k)%nat -> g l = nan) -> dot k f g = nan.
Proof.
  unfold dot. intros Hk Hg.
  assert (G : forall n s acc, (s + n <= k)%nat -> (0 < n)%nat ->
            fold_left (fun acc l => acc + f l * g l) (seq s n) acc = nan).
  { induction n as [|n IH]; intros s acc Hs Hn; [lia|].
    cbn [seq fold_left]. rewrite (Hg s) by lia. rewrite mul_nan_r, add_nan_r.
    destruct n as [|n']; [reflexivity|]. apply IH; lia. }
  apply G; lia.
Qed.

(** With an all-nan measurement, [x + K @ (z - H @ x)] is nan in each of
    its 18 components, whatever the predicted state and the gain are. *)
Lemma state_update_nan x K z H :
  shape x = [18%nat] -> shape K = [18%nat; 6%nat] -> shape H = [6%nat; 18%nat] ->
  z = NDArray [6%nat] (replicate 6 nan) ->
  state_update x K z H = ret (NDArray [18%nat] (replicate 18 nan)).
Proof.
  intros Hx HK HH ->. unfold state_update.
  rewrite (matmul_mv H x 6 18 HH Hx). cbn [bind ret].
  unfold sub. erewrite elementwise_1d by reflexivity. cbn [bind ret data].
  rewrite (tabulate2_ext 1 6 _ (fun _ _ => nan)).
  2:{ intros i j Hi Hj. unfold bat at 1, at2. cbn [Nat.eqb].
      rewrite item_replicate by lia. apply sub_nan_l. }
  rewrite tabulate2_const.
  erewrite (matmul_mv K _ 18 6 HK) by reflexivity. cbn [bind ret data].
  rewrite (tabulate_ext 18 _ (fun _ => nan)).
  2:{ intros i Hi. apply dot_nan; [lia|]. intros l Hl. apply item_replicate. lia. }
  rewrite tabulate_const.
  unfold add. erewrite (elementwise_1d _ x _ 18 Hx) by reflexivity.
  cbn [data]. do 2 f_equal.
  rewrite (tabulate2_ext 1 18 _ (fun _ _ => nan)).
  2:{ intros i j Hi Hj. unfold bat at 2, at2. cbn [Nat.eqb].
      rewrite item_replicate by lia. apply add_nan_r. }
  apply tabulate2_const.
Qed.

End MissingFrame.

Section Step.

Lemma shared_row_insert_ne h t n row cells l vs :
  shared_row h t n row cells -> l <> t -> l <> row ->
  shared_row (<[l := vs]> h) t n row cells.
Proof.
  intros (Ht & Hrow & Hlen & Hne) Hlt Hlrow. unfold shared_row.
  rewrite !list_lookup_insert_ne by congruence. auto.
Qed.

Lemma setarr_ok h l vs i a :
  h !! l = Some vs -> i < length vs ->
  py.setarr l i a h = (<[l := <[i := py.Array a]> vs]> h, inr tt).
Proof.
  intros Hl Hi. unfold py.setarr, py.setitem. rewrite Hl.
  now replace (i <? length vs) with true by (symmetry; now apply Nat.ltb_lt).
Qed.

Lemma getarr_ok h l vs i a :
  h !! l = Some vs -> vs !! i = Some (py.Array a) ->
  py.getarr l i h = (h, inr a).
Proof.
  intros Hl Hi. unfold py.getarr, py.bind, py.getitem. rewrite Hl.
  cbn [mbind option_bind]. now rewrite Hi.
Qed.

Variable pinv_data : nat -> nat -> list float -> result (list float).

(** C1, as the code has it.  The loop body has no test for a missing
    frame.  Run for a frame [i] whose position and angle rows are all nan,
    from any heap in which the tables hold a predicted state and a
    predicted covariance for it, the body does not keep the prediction.
    When [np.linalg.pinv] returns on the frame's [H P H^T + R], it stores in
    [x[i][i]] the state update computed from the all-nan measurement, which
    is nan in each of its 18 components; when [np.linalg.pinv] raises, the
    body ends in that exception with only [z[i]] stored. *)
Theorem missing_frame_is_updated_with_nan (v : locals) (i n : nat) (h : py.heap)
    (xrow prow : py.loc) (xcells pcells kl zl : list py.value)
    (x_pred P_pred Sg : np.ndarray) :
  1 <= i < n ->
  np.getrow (positions_ v) i = ret nan3 ->
  np.getrow (angles_ v) i = ret nan3 ->
  np.shape (H_ v) = [6; 18] -> np.shape (R_ v) = [6; 6] ->
  shared_row h (x_ v) n xrow xcells ->
  xcells !! (i - 1) = Some (py.Array x_pred) -> np.shape x_pred = [18] ->
  shared_row h (P_ v) n prow pcells ->
  pcells !! (i - 1) = Some (py.Array P_pred) -> np.shape P_pred = [18; 18] ->
  h !! K_ v = Some kl -> length kl = n ->
  h !! z_ v = Some zl -> length zl = n ->
  NoDup [x_ v; xrow; P_ v; prow; K_ v; z_ v] ->
  innovation_covariance P_pred (H_ v) (R_ v) = ret Sg ->
  (forall d, pinv_data 6 6 (np.data Sg) = ret d ->
     py.getitem2 (x_ v) i i (fst (kalman_step pinv_data v i h))
     = (fst (kalman_step pinv_data v i h),
        ret (np.NDArray [18] (replicate 18 np.nan)))) /\
  (forall e, pinv_data 6 6 (np.data Sg) = raise e ->
     kalman_step pinv_data v i h
     = (<[z_ v := <[i := py.Array (np.NDArray [6] (replicate 6 np.nan))]> zl]> h,
        raise e)).
Proof.
  intros Hi Hpos Hang HH HR Hx Hxp Sxp HP HPp SPp HK LK Hz Lz Hnd HS.
  assert (SS : np.shape Sg = [6; 6]).
  { destruct (innovation_covariance_ok P_pred (H_ v) (R_ v) SPp HH HR) as (S' & ES & HS').
    rewrite HS in ES. now injection ES as <-. }
  destruct (gain_split pinv_data P_pred (H_ v) (R_ v) Sg SPp HH SS HS) as [Hraise Hret].
  assert (Hne : x_ v <> K_ v /\ x_ v <> z_ v /\ xrow <> P_ v /\ xrow <> prow /\
                xrow <> K_ v /\ xrow <> z_ v /\ P_ v <> K_ v /\ P_ v <> z_ v /\
                prow <> K_ v /\ prow <> z_ v /\ K_ v <> z_ v).
  { repeat match goal with
           | H : NoDup (_ :: _) |- _ => apply NoDup_cons in H as [? ?]
           end.
    repeat match goal with
           | H : _ ∉ _ :: _ |- _ => apply not_elem_of_cons in H as [? ?]
           end.
    repeat split; congruence. }
  destruct Hne as (N1 & N2 & N3 & N4 & N5 & N6 & N7 & N8 & N9 & N10 & N11).
  set (z1 := np.NDArray [6] (replicate 6 np.nan)).
  set (xnan := np.NDArray [18] (replicate 18 np.nan)).
  (* z[i] = np.r_[positions[i], angles[i]] *)
  set (h1 := <[z_ v := <[i := py.Array z1]> zl]> h).
  assert (Hx1 : shared_row h1 (x_ v) n xrow xcells)
    by (apply shared_row_insert_ne; auto).
  assert (HP1 : shared_row h1 (P_ v) n prow pcells)
    by (apply shared_row_insert_ne; auto).
  assert (Hz1 : h1 !! z_ v = Some (<[i := py.Array z1]> zl))
    by (apply list_lookup_insert_eq; now apply lookup_lt_Some in Hz).
  assert (HK1 : h1 !! K_ v = Some kl)
    by (unfold h1; rewrite list_lookup_insert_ne by congruence; exact HK).
  split; cycle 1.
  { intros e He. unfold kalman_step.
    unfold py.bind at 1, py.lift at 1.
    rewrite Hpos, Hang. cbn [bind ret].
    change (np.r_ nan3 nan3) with (ret z1). cbv beta iota delta [ret].
    unfold py.bind at 1. rewrite (setarr_ok h (z_ v) zl i z1 Hz) by lia. fold h1.
    cbv beta iota delta [ret]. unfold py.bind at 1.
    rewrite (getitem2_shared h1 (P_ v) n prow pcells i (i - 1) P_pred HP1) by (auto; lia).
    cbv beta iota delta [ret]. unfold py.bind at 1, py.lift at 1.
    rewrite (Hraise e He). reflexivity. }
  intros d Hd.
  (* K[i] = ... *)
  destruct (Hret d Hd) as (K1 & EK & SK1).
  set (h2 := <[K_ v := <[i := py.Array K1]> kl]> h1).
  assert (Hx2 : shared_row h2 (x_ v) n xrow xcells)
    by (apply shared_row_insert_ne; auto).
  assert (HP2 : shared_row h2 (P_ v) n prow pcells)
    by (apply shared_row_insert_ne; auto).
  assert (HK2 : h2 !! K_ v = Some (<[i := py.Array K1]> kl))
    by (apply list_lookup_insert_eq; now apply lookup_lt_Some in HK1).
  assert (Hz2 : h2 !! z_ v = Some (<[i := py.Array z1]> zl))
    by (unfold h2; rewrite list_lookup_insert_ne by congruence; exact Hz1).
  (* x[i][i] = ... *)
  destruct (setitem2_shared h2 (x_ v) n xrow xcells i i xnan Hx2) as (Es & Hx3);
    [lia | lia |].
  set (h3 := <[xrow := <[i := py.Array xnan]> xcells]> h2) in *.
  assert (HP3 : shared_row h3 (P_ v) n prow pcells)
    by (apply shared_row_insert_ne; auto).
  assert (HK3 : h3 !! K_ v = Some (<[i := py.Array K1]> kl))
    by (unfold h3; rewrite list_lookup_insert_ne by congruence; exact HK2).
  assert (Erun : kalman_step pinv_data v i h
                 = (h3, raise (BroadcastError [9; 9] [18; 18]))).
  { unfold kalman_step.
    unfold py.bind at 1, py.lift at 1.
    rewrite Hpos, Hang. cbn [bind ret].
    change (np.r_ nan3 nan3) with (ret z1). cbv beta iota delta [ret].
    unfold py.bind at 1. rewrite (setarr_ok h (z_ v) zl i z1 Hz) by lia. fold h1.
    cbv beta iota delta [ret]. unfold py.bind at 1.
    rewrite (getitem2_shared h1 (P_ v) n prow pcells i (i - 1) P_pred HP1) by (auto; lia).
    cbv beta iota delta [ret]. unfold py.bind at 1, py.lift at 1. rewrite EK.
    cbv beta iota delta [ret]. unfold py.bind at 1.
    rewrite (setarr_ok h1 (K_ v) kl i K1 HK1) by lia. fold h2.
    cbv beta iota delta [ret]. unfold py.bind at 1.
    rewrite (getitem2_shared h2 (x_ v) n xrow xcells i (i - 1) x_pred Hx2) by (auto; lia).
    cbv beta iota delta [ret]. unfold py.bind at 1.
    rewrite (getarr_ok h2 (K_ v) _ i K1 HK2) by (apply list_lookup_insert_eq; lia).
    cbv beta iota delta [ret]. unfold py.bind at 1.
    rewrite (getarr_ok h2 (z_ v) _ i z1 Hz2) by (apply list_lookup_insert_eq; lia).
    cbv beta iota delta [ret]. unfold py.bind at 1, py.lift at 1.
    rewrite (state_update_nan x_pred K1 z1 (H_ v) Sxp SK1 HH eq_refl).
    cbv beta iota delta [ret]. unfold py.bind at 1. fold xnan. rewrite Es.
    cbv beta iota delta [ret]. unfold py.bind at 1.
    rewrite (getarr_ok h3 (K_ v) _ i K1 HK3) by (apply list_lookup_insert_eq; lia).
    cbv beta iota delta [ret]. unfold py.bind at 1.
    rewrite (getitem2_shared h3 (P_ v) n prow pcells i (i - 1) P_pred HP3) by (auto; lia).
    cbv beta iota delta [ret]. unfold py.bind at 1, py.lift at 1.
    rewrite (covariance_update_raises P_pred K1 (H_ v) (R_ v) SK1 HH).
    reflexivity. }
  rewrite Erun. cbn [fst].
  apply (getitem2_shared h3 (x_ v) n xrow _ i i xnan Hx3); [lia|].
  apply list_lookup_insert_eq. destruct Hx as (_ & _ & Hlen & _). lia.
Qed.

End Step.

(** ** The theorems at concrete tracks *)

(** The step theorem at frame 1 of [gap_track]. *)
Lemma missing_frame_is_updated_with_nan_witness :
  py.getitem2 1 1 1 (fst (kalman_step pinv_diag gap_locals 1 gap_heap))
  = (fst (kalman_step pinv_diag gap_locals 1 gap_heap),
     ret (np.NDArray [18] (replicate 18 np.nan))).
Proof.
  assert (E : exists Sg d,
             innovation_covariance (np.eye 18) (H_ gap_locals) (R_ gap_locals) = ret Sg /\
             pinv_diag 6 6 (np.data Sg) = ret d)
    by (eexists _, _; split; [vm_compute; reflexivity | reflexivity]).
  destruct E as (Sg & d & HS & Hd).
  refine (proj1 (missing_frame_is_updated_with_nan pinv_diag gap_locals 1 3
            gap_heap 0 2 [py.Array (np.zeros [18]); py.None_; py.None_]
            [py.Array (np.eye 18); py.None_; py.None_]
            (replicate 3 py.None_) (replicate 3 py.None_)
            (np.zeros [18]) (np.eye 18) Sg _ _ _ _ _ _ _ _ _ _ _ _ _ _ _ _ HS) d Hd);
    try reflexivity.
  - lia.
  - unfold shared_row. repeat split; try reflexivity. cbn. lia.
  - unfold shared_row. repeat split; try reflexivity. cbn. lia.
  - cbn. repeat (apply NoDup_cons; split;
                 [rewrite ?not_elem_of_cons; repeat split; try lia; apply not_elem_of_nil|]).
    apply NoDup_nil_2.
Defined.

(** The table theorem at [n = 3]: a write through row 0 is read through
    row 2. *)
Lemma table_rows_are_one_list_witness :
  exists t h2,
    snd (py.new_table 3 []) = inr t /\
    py.setitem2 t 0 1 (np.zeros [18]) (fst (py.new_table 3 [])) = (h2, inr tt) /\
    py.getitem2 t 2 1 h2 = (h2, inr (np.zeros [18])).
Proof.
  destruct (table_rows_are_one_list 3 []) as (t & row & Et & Hsh & _ & Hw & _).
  destruct (Hw _ _ 0 2 1 (np.zeros [18]) Hsh) as (h2 & Es & _ & Eg); try lia.
  exists t, h2. repeat split; assumption.
Defined.

(** C2.  On a track of two present frames, with the default configuration,
    the call ends in the [ValueError] of [np.eye(9) - K[1] @ H] (shapes
    (9, 9) and (18, 18)), and column 1 of the covariance table, where
    [P[1][1]] would be stored, is still [None]: no Joseph-form covariance is
    ever accepted. *)
Theorem covariance_update_subtracts_from_eye9 :
  snd (run (kalman_filter pow_by_products euler_of_identity pinv_diag two_frames
              default_dt default_P0 default_sq_sigma_a default_r))
  = raise (BroadcastError [9; 9] [18; 18]) /\
  fst (run (kalman_filter pow_by_products euler_of_identity pinv_diag two_frames
              default_dt default_P0 default_sq_sigma_a default_r)) !! 2 ≫= (.!! 1)
  = Some py.None_ /\
  np.shape (np.eye 9) = [9; 9].
Proof. vm_compute. repeat split; reflexivity. Qed.

(** C1 is not what the code does: on [gap_track] the state stored for the
    missing frame 1 (column 1 of the state table) is nan in all 18
    components, while the predicted state (column 0) is
    [1, 0, 0, ...] and free of nan. *)
Lemma missing_frame_state_is_nan :
  fst (run (kalman_filter pow_by_products euler_of_identity pinv_diag gap_track
              default_dt default_P0 default_sq_sigma_a default_r)) !! 0
  = Some [py.Array (np.NDArray [18] (1%float :: replicate 17 0%float));
          py.Array (np.NDArray [18] (replicate 18 np.nan));
          py.None_] /\
  forallb PrimFloat.is_nan (replicate 18 np.nan) = true /\
  existsb PrimFloat.is_nan (1%float :: replicate 17 0%float) = false.
Proof. vm_compute. repeat split; reflexivity. Qed.

(** C5 is not what the code does: an all-missing track of length 10 ends in
    numpy's [ValueError], not in an [EmptyTrackError]. *)
Lemma all_missing_track_raises_ValueError :
  exists e,
    snd (run (kalman_filter pow_by_products euler_of_identity pinv_diag (replicate 10 None)
                default_dt default_P0 default_sq_sigma_a default_r)) = raise e /\
    e = EmptyReduction /\
    py_class e = "ValueError"%string /\
    py_class e <> "EmptyTrackError"%string.
Proof. exists EmptyReduction. vm_compute. repeat split; try reflexivity. discriminate. Qed.

(** The theorem on all-missing tracks at a track of length 10. *)
Lemma all_missing_track_fails_witness :
  run (kalman_filter pow_by_products euler_of_identity pinv_diag (replicate 10 None)
         default_dt default_P0 default_sq_sigma_a default_r)
  = ([], raise EmptyReduction).
Proof.
  refine (all_missing_track_fails pow_by_products euler_of_identity pinv_diag (replicate 10 None)
            default_dt default_P0 default_sq_sigma_a default_r _).
  repeat constructor.
Defined.

(** C9 is not what the code does: with a negative time step and negative
    variances the call runs the filter up to the state update of frame 1,
    whose result it stores, and ends in the same [ValueError] as for a
    valid configuration, not in an [InvalidConfigurationError]. *)
Lemma negative_configuration_is_accepted :
  exists e x11,
    snd (run (kalman_filter pow_by_products euler_of_identity pinv_diag two_frames
                (-1) (-500) (-100) (-1))) = raise e /\
    e = BroadcastError [9; 9] [18; 18] /\
    py_class e = "ValueError"%string /\
    py_class e <> "InvalidConfigurationError"%string /\
    fst (run (kalman_filter pow_by_products euler_of_identity pinv_diag two_frames
                (-1) (-500) (-100) (-1))) !! 0 ≫= (.!! 1)
    = Some (py.Array x11).
Proof.
  eexists _, _. vm_compute. repeat split; try reflexivity. discriminate.
Qed.

(** C3 is not what the code does on every valid configuration.  With
    [dt = 1e200] (positive) and the default variances, the track of two
    present frames does not reach [np.eye(9) - K[i] @ H]: [dt ** 2]
    raises [OverflowError] at line 100, when the lists exist and nothing
    is stored in them. *)
Lemma overflowing_time_step_raises_OverflowError :
  exists e,
    run (kalman_filter pow_by_products euler_of_identity pinv_diag two_frames
           1e200 default_P0 default_sq_sigma_a default_r)
    = ([ replicate 2 py.None_; replicate 3 (py.List 0);
         replicate 2 py.None_; replicate 3 (py.List 2);
         replicate 2 py.None_; replicate 2 py.None_ ],
       raise e) /\
    e = FloatOverflow /\
    py_class e = "OverflowError"%string /\
    e <> BroadcastError [9; 9] [18; 18] /\
    (0 <? 1e200)%float = true /\
    np.len (np.NDArray [2; 3] [0; 0; 0; 1; 0; 0]%float) = 2 /\
    trimmed_channels euler_of_identity two_frames
    = ret (np.NDArray [2; 3] [0; 0; 0; 1; 0; 0]%float,
           np.NDArray [2; 3] [0; 0; 0; 0; 0; 0]%float).
Proof.
  exists FloatOverflow. vm_compute. repeat split; try reflexivity. discriminate.
Qed.

(** The theorem above on a channel with a missing frame between two
    present ones that differ by more than 1.8 pi. *)
Lemma unwrap_angles_steps_present_frames_witness :
  unwrap_angles (channel_of [Some (3.0, 0.5, -3.0); None; Some (-3.0, 0.4, 3.0)]%float)
  = ret (channel_of [Some (3.0, 0.5, -3.0); None;
                    Some (-3.0 + 2 * np.pi, 0.4, 3.0 - 2 * np.pi)]%float).
Proof.
  refine (unwrap_angles_steps_present_frames
            [Some (3.0, 0.5, -3.0); None; Some (-3.0, 0.4, 3.0)]%float _).
  repeat constructor.
Defined.

(** C6 is not what the code does.  On [3.0, -3.0, 0.0] the difference at
    the second sample is below -1.8 pi: the code adds 2 pi to that sample
    only and leaves the third sample at 0.0, where shifting the current and
    all subsequent samples gives 0.0 + 2 pi for it. *)
Lemma unwrap_shifts_the_current_sample_only :
  unwrap_angles (track3 jump_then_zero)
  = ret (track3 [3.0; -3.0 + 2 * np.pi; 0.0]%float) /\
  unwrap_shifting jump_then_zero = [3.0; -3.0 + 2 * np.pi; 0.0 + 2 * np.pi]%float /\
  (-3.0 - 3.0 <? -1.8 * np.pi)%float = true /\
  (0.0 =? 0.0 + 2 * np.pi)%float = false.
Proof. vm_compute. repeat split; reflexivity. Qed.

(** ** Extraction of the channels (lines 59-71) *)

Section Extraction.

Import np.
Variable float_pow : float -> nat -> result float.
Variable as_euler : ndarray -> result angles3.
Variable pinv_data : nat -> nat -> list float -> result (list float).

Lemma for_app {S A} (l1 l2 : list A) (s : S) (body : S -> A -> result S) :
  for_ (l1 ++ l2) s body = (s' <- for_ l1 s body ;; for_ l2 s' body).
Proof.
  revert s. induction l1 as [|a l1 IH]; intros s; cbn [app for_ bind ret]; [reflexivity|].
  destruct (body s a) as [e|s']; cbn [bind]; [reflexivity | apply IH].
Qed.

Lemma extract_returning_acc poses : forall ps angs,
  Forall (euler_returns as_euler) poses ->
  for_ poses (ps, angs) (fun acc pose =>
    let '(positions, angles) := acc in
    match pose with
    | Some p =>
        e <- euler as_euler p ;;
        ret (positions ++ [translation p], angles ++ [e])
    | None => ret (positions ++ [nan3], angles ++ [nan3])
    end)
  = ret (ps ++ map frame_array (position_frames poses),
         angs ++ map frame_array (angle_frames as_euler poses)).
Proof.
  induction poses as [|pose poses IH]; intros ps angs Hv; cbn [for_].
  - cbn. now rewrite !app_nil_r.
  - inversion Hv as [|? ? Hpose Hrest]; subst.
    destruct pose as [p|].
    + destruct Hpose as (t & Et).
      rewrite (euler_frame as_euler p t Et). cbn [bind ret].
      rewrite IH by assumption.
      cbn [position_frames angle_frames map option_map]. rewrite Et.
      rewrite translation_frame, <- !app_assoc. reflexivity.
    + cbn [bind ret]. rewrite IH by assumption.
      cbn [position_frames angle_frames map option_map].
      rewrite <- !app_assoc. reflexivity.
Qed.

(** X1. Extraction keeps the frames aligned: when [as_euler] returns for
    every present pose, both channels have one row per pose, at the index
    of the pose; the row of a present pose holds its translation
    (respectively its angles), the row of a missing pose three nan.  The
    empty track gives two arrays of shape (0,). *)
Theorem extract_channels_keeps_frames (poses : list (option pose)) :
  Forall (euler_returns as_euler) poses ->
  extract_channels as_euler poses
  = ret (match poses with
         | [] => (NDArray [0] [], NDArray [0] [])
         | _ :: _ => (channel_of (position_frames poses),
                      channel_of (angle_frames as_euler poses))
         end).
Proof.
  intros Hv. destruct poses as [|pose poses']; [reflexivity|].
  unfold extract_channels. rewrite extract_returning_acc by assumption.
  cbn [bind ret app]. rewrite !array_frames by discriminate. reflexivity.
Qed.

(** X2. The first present pose on which [as_euler] raises ends the call
    with that exception: no channel is built and no list is created. *)
Theorem extract_channels_raises_at_first_failure
    (pre post : list (option pose)) (p : pose) (e : exn)
    (dt P0 sq_sigma_a r : float) :
  Forall (euler_returns as_euler) pre ->
  as_euler (rotation p) = raise e ->
  extract_channels as_euler (pre ++ Some p :: post) = raise e /\
  run (kalman_filter float_pow as_euler pinv_data (pre ++ Some p :: post) dt P0 sq_sigma_a r)
  = ([], raise e).
Proof.
  intros Hpre Hp.
  assert (E : extract_channels as_euler (pre ++ Some p :: post) = raise e).
  { unfold extract_channels. rewrite for_app.
    rewrite extract_returning_acc by assumption. cbn [bind ret for_].
    unfold euler. rewrite Hp. reflexivity. }
  split; [exact E|].
  unfold run, kalman_filter, py.bind, py.lift. now rewrite E.
Qed.

End Extraction.

(** X1 on a track with a missing frame. *)
Lemma extract_channels_keeps_frames_witness :
  extract_channels euler_of_identity gap_track
  = ret (channel_of [Some (1, 0, 0); None; Some (3, 0, 0)]%float,
         channel_of [Some (0, 0, 0); None; Some (0, 0, 0)]%float).
Proof.
  refine (extract_channels_keeps_frames euler_of_identity gap_track _).
  repeat constructor; eexists; reflexivity.
Defined.

(** X2 on a track whose second pose is rejected. *)
Lemma extract_channels_raises_at_first_failure_witness :
  run (kalman_filter pow_by_products euler_raising pinv_diag
         ([None] ++ Some (pose_at 0 0 0) :: [Some (pose_at 1 0 0)])
         default_dt default_P0 default_sq_sigma_a default_r)
  = ([], raise (LibraryError "ValueError")).
Proof.
  refine (proj2 (extract_channels_raises_at_first_failure pow_by_products euler_raising pinv_diag
            [None] [Some (pose_at 1 0 0)] (pose_at 0 0 0) _ _ _ _ _ _ _)).
  - repeat constructor.
  - reflexivity.
Defined.

(** ** Unwrapping of arbitrary arrays (lines 73-81) *)

Section UnwrapAny.

Import np.

Lemma select_not_nan d :
  map fst (List.filter snd (combine d (map negb (map PrimFloat.is_nan d))))
  = List.filter (fun a => negb (PrimFloat.is_nan a)) d.
Proof.
  induction d as [|a d IH]; [reflexivity|].
  cbn [map combine List.filter snd]. destruct (negb (PrimFloat.is_nan a)); cbn [map fst];
    now rewrite IH.
Qed.

Lemma count_mask_not_nan d :
  length (List.filter id (map negb (map PrimFloat.is_nan d)))
  = length (List.filter (fun a => negb (PrimFloat.is_nan a)) d).
Proof.
  induction d as [|a d IH]; [reflexivity|].
  cbn [map List.filter]. unfold id at 1. destruct (negb (PrimFloat.is_nan a)); cbn [length];
    now rewrite IH.
Qed.

Lemma length_scatter d : forall mask v, length (scatter d mask v) = length d.
Proof.
  induction d as [|a d IH]; intros mask v; [destruct mask; reflexivity|].
  destruct mask as [|[|] mask]; [reflexivity| |]; cbn [scatter].
  - destruct v; cbn [length]; now rewrite IH.
  - cbn [length]. now rewrite IH.
Qed.

(** X3. Unwrapping depends on the nan in the array only through their
    number: when the number of elements that are not nan is no multiple of
    3 (a frame with one or two nan angles), it raises the [ValueError] of
    [reshape((-1, 3))]; otherwise it returns an array of the shape and size
    of its argument. *)
Theorem unwrap_angles_needs_whole_frames (A : ndarray) :
  (count_not_nan A mod 3 <> 0%nat ->
   unwrap_angles A = raise (ReshapeError (count_not_nan A))) /\
  (count_not_nan A mod 3 = 0%nat ->
   exists A', unwrap_angles A = ret A' /\ shape A' = shape A /\
              length (data A') = length (data A)).
Proof.
  unfold unwrap_angles, select, invert, isnan, reshape_m1_3. cbn [data].
  rewrite select_not_nan. fold (count_not_nan A). split; intros Hk.
  - apply Nat.eqb_neq in Hk. now rewrite Hk.
  - rewrite Hk. cbn [Nat.eqb bind ret].
    destruct (unwrap_loop_spec
                (NDArray [count_not_nan A / 3; 3%nat]
                   (List.filter (fun a => negb (PrimFloat.is_nan a)) (data A)))
                (count_not_nan A / 3)) as (a' & E & Hs & Hl & _).
    + reflexivity.
    + cbn [data]. fold (count_not_nan A).
      pose proof (Nat.div_mod_eq (count_not_nan A) 3). lia.
    + rewrite E. cbn [bind ret]. unfold assign, reshape_m1. cbn [data].
      rewrite count_mask_not_nan. fold (count_not_nan A).
      replace (length (data a') =? count_not_nan A)%nat with true.
      * eexists. split; [reflexivity|]. cbn [shape data]. split; [reflexivity|].
        apply length_scatter.
      * symmetry. apply Nat.eqb_eq. rewrite Hl.
        pose proof (Nat.div_mod_eq (count_not_nan A) 3). lia.
Qed.

Lemma unwrap_angles_frames fs :
  Forall nan_free fs ->
  unwrap_angles (channel_of fs) = ret (channel_of (unwrap_frames fs)).
Proof.
  intros Hfs. unfold unwrap_angles.
  rewrite (mask_of_frames fs Hfs).
  unfold select. change (data (channel_of fs)) with (flat_map frame_data fs).
  rewrite select_frames. unfold reshape_m1_3. cbn [data].
  rewrite length_triples, Nat.Div0.mod_mul, Nat.div_mul by lia.
  cbn [Nat.eqb bind ret].
  rewrite unwrap_loop_present. cbn [bind ret].
  unfold assign, reshape_m1. cbn [data shape].
  change (data (channel_of fs)) with (flat_map frame_data fs).
  change (shape (channel_of fs)) with [length fs; 3%nat].
  rewrite count_frames, length_triples, length_unwrap_present, Nat.eqb_refl.
  rewrite scatter_frames. unfold channel_of. now rewrite length_unwrap_frames.
Qed.

Lemma unwrap_step_within prev cur :
  within_threshold prev cur -> unwrap_step prev cur = cur.
Proof. intros [H1 H2]. unfold unwrap_step. now rewrite H1, H2. Qed.

Lemma step3_within prev cur :
  within_threshold3 prev cur -> step3 prev cur = cur.
Proof.
  destruct prev as [[p0 p1] p2], cur as [[c0 c1] c2]. intros (H0 & H1 & H2).
  cbn [step3]. now rewrite !unwrap_step_within.
Qed.

Lemma unwrap_after_calm fs : forall prev,
  calm_after prev fs -> unwrap_after prev fs = fs.
Proof.
  induction fs as [|[cur|] fs IH]; intros prev Hc; cbn [unwrap_after]; [reflexivity| |].
  - destruct Hc as [Hw Hc]. cbv zeta. rewrite (step3_within _ _ Hw). now rewrite IH.
  - now rewrite IH.
Qed.

(** X4. A channel in which every present frame lies, in each dimension,
    within 1.8 pi of the present frame before it passes through unwrapping
    unchanged, however many missing frames lie between present ones. *)
Theorem unwrap_angles_keeps_calm_channels (fs : list frame) :
  Forall nan_free fs -> calm fs ->
  unwrap_angles (channel_of fs) = ret (channel_of fs).
Proof.
  intros Hfs Hc. rewrite (unwrap_angles_frames fs Hfs). do 2 f_equal.
  induction fs as [|[first|] fs IH]; cbn [unwrap_frames]; [reflexivity| |].
  - cbn [calm] in Hc. now rewrite unwrap_after_calm.
  - inversion Hfs; subst. now rewrite IH.
Qed.

End UnwrapAny.

(** X3 on a frame with a single nan angle, and on a whole channel. *)
Lemma unwrap_angles_needs_whole_frames_witness :
  unwrap_angles (np.NDArray [2; 3] [0.1; np.nan; 0.3; 0.1; 0.2; 0.3]%float)
  = raise (ReshapeError 5) /\
  exists A', unwrap_angles (track3 wrap_crossing) = ret A' /\
             np.shape A' = [4; 3] /\ length (np.data A') = 12.
Proof.
  split.
  - refine (proj1 (unwrap_angles_needs_whole_frames
                     (np.NDArray [2; 3] [0.1; np.nan; 0.3; 0.1; 0.2; 0.3]%float)) _).
    vm_compute. discriminate.
  - refine (proj2 (unwrap_angles_needs_whole_frames (track3 wrap_crossing)) _).
    reflexivity.
Defined.

(** X4 on a slowly turning track with a gap. *)
Lemma unwrap_angles_keeps_calm_channels_witness :
  unwrap_angles (channel_of [Some (3.0, 0.1, -3.0); None; Some (3.1, 0.2, -3.1)]%float)
  = ret (channel_of [Some (3.0, 0.1, -3.0); None; Some (3.1, 0.2, -3.1)]%float).
Proof.
  refine (unwrap_angles_keeps_calm_channels
            [Some (3.0, 0.1, -3.0); None; Some (3.1, 0.2, -3.1)]%float _ _).
  - repeat constructor.
  - cbn. repeat split; reflexivity.
Defined.
(** ** Trimming (lines 87-90) *)

Section Trim.

Import np.

Lemma nonzero_spec mask : forall s k,
  In k (map fst (List.filter snd (combine (seq s (length mask)) mask)))
  <-> s <= k /\ mask !! (k - s) = Some true.
Proof.
  induction mask as [|b mask IH]; intros s k.
  - cbn. split; [intros [] | intros [_ H]; discriminate].
  - cbn [length seq combine List.filter snd].
    assert (Hlk : s < k -> (b :: mask) !! (k - s) = mask !! (k - S s)).
    { intros Hsk. replace (k - s) with (S (k - S s)) by lia. reflexivity. }
    destruct b; cbn [map fst In]; rewrite (IH (S s) k).
    + split.
      * intros [<- | [H1 H2]].
        -- split; [lia|]. rewrite Nat.sub_diag. reflexivity.
        -- split; [lia|]. rewrite Hlk by lia. exact H2.
      * intros [H1 H2]. destruct (Nat.eq_dec s k) as [-> | Hne]; [now left|].
        right. split; [lia|]. rewrite <- Hlk by lia. exact H2.
    + split.
      * intros [H1 H2]. split; [lia|]. rewrite Hlk by lia. exact H2.
      * intros [H1 H2]. destruct (Nat.eq_dec s k) as [-> | Hne].
        -- rewrite Nat.sub_diag in H2. discriminate.
        -- split; [lia|]. rewrite <- Hlk by lia. exact H2.
Qed.

Lemma increasing_ge l : forall s b, increasing_from s l -> In b l -> s <= b.
Proof.
  induction l as [|c l IH]; intros s b Hl Hb; [destruct Hb|].
  destruct Hl as [Hc Hl]. destruct Hb as [-> | Hb]; [exact Hc|].
  specialize (IH (S c) b Hl Hb). lia.
Qed.

Lemma fold_max_in l : forall a, In (fold_left Nat.max l a) (a :: l).
Proof.
  induction l as [|b l IH]; intros a; cbn [fold_left]; [now left|].
  destruct (IH (Nat.max a b)) as [H | H].
  - rewrite <- H. destruct (Nat.max_spec a b) as [[_ ->] | [_ ->]]; [right; now left | now left].
  - right. now right.
Qed.

Lemma fold_max_ge l : forall a b, In b (a :: l) -> b <= fold_left Nat.max l a.
Proof.
  induction l as [|c l IH]; intros a b Hb; cbn [fold_left].
  - destruct Hb as [-> | []]. lia.
  - destruct Hb as [-> | [-> | Hb]].
    + specialize (IH (Nat.max b c) (Nat.max b c) (or_introl eq_refl)). lia.
    + specialize (IH (Nat.max a b) (Nat.max a b) (or_introl eq_refl)). lia.
    + apply IH. now right.
Qed.

Lemma drop_frames fs : forall k,
  drop (k * 3) (flat_map frame_data fs) = flat_map frame_data (drop k fs).
Proof.
  induction fs as [|f fs IH]; intros k; [cbn [flat_map]; now rewrite !drop_nil|].
  destruct k as [|k]; [reflexivity|].
  cbn [drop flat_map]. rewrite <- IH.
  destruct f as [[[a b] c]|]; reflexivity.
Qed.

Lemma take_frames fs : forall k,
  take (k * 3) (flat_map frame_data fs) = flat_map frame_data (take k fs).
Proof.
  induction fs as [|f fs IH]; intros k; [cbn [flat_map]; now rewrite !take_nil|].
  destruct k as [|k]; [reflexivity|].
  cbn [take flat_map]. rewrite <- IH.
  destruct f as [[[a b] c]|]; reflexivity.
Qed.

Lemma lookup_is_present (fs : list frame) : forall i,
  map is_present fs !! i = Some true <-> exists t, fs !! i = Some (Some t).
Proof.
  induction fs as [|f fs IH]; intros i.
  - cbn. split; [discriminate | intros [t H]; discriminate].
  - destruct i as [|i]; [|apply IH].
    cbn. destruct f as [t|]; cbn; split.
    + intros _. now exists t.
    + reflexivity.
    + discriminate.
    + intros [t H]. discriminate.
Qed.

(** X5. Trimming cuts both channels to the frames from the first to the
    last present frame of the position channel: the frames before the first
    and after the last are missing ones, the frames between them, missing
    or not, are kept in place, and the angle channel is cut at the same
    indices whatever it holds. *)
Theorem trim_keeps_first_to_last_present (pfs afs : list frame) :
  Forall nan_free pfs -> length afs = length pfs ->
  (exists i t, pfs !! i = Some (Some t)) ->
  exists lo hi,
    lo <= hi < length pfs /\
    (exists t, pfs !! lo = Some (Some t)) /\
    (exists t, pfs !! hi = Some (Some t)) /\
    (forall i t, pfs !! i = Some (Some t) -> lo <= i <= hi) /\
    trim (channel_of pfs) (channel_of afs)
    = ret (channel_of (take (hi + 1 - lo) (drop lo pfs)),
           channel_of (take (hi + 1 - lo) (drop lo afs))).
Proof.
  intros Hfs Hlen (i0 & t0 & Hi0). unfold trim, getcol.
  change (shape (channel_of pfs)) with [length pfs; 3].
  cbn [Nat.ltb Nat.leb bind ret]. unfold invert, isnan. cbn [data].
  change (data (channel_of pfs)) with (flat_map frame_data pfs).
  rewrite (column_mask pfs Hfs).
  pose proof (nonzero_bound (map is_present pfs)) as Hb. rewrite length_map in Hb.
  pose proof (nonzero_increasing (map is_present pfs) 0) as Hinc.
  assert (Hspec : forall k, In k (nonzero (map is_present pfs))
                            <-> exists t, pfs !! k = Some (Some t)).
  { intros k. unfold nonzero. rewrite nonzero_spec, Nat.sub_0_r, lookup_is_present.
    split; [tauto | intros H; split; [lia | exact H]]. }
  fold (nonzero (map is_present pfs)) in Hinc.
  destruct (nonzero (map is_present pfs)) as [|a l] eqn:Enz.
  { exfalso. apply (proj2 (Hspec i0)). now exists t0. }
  cbn [min max bind ret]. unfold slice_rows.
  change (shape (channel_of pfs)) with [length pfs; 3].
  change (shape (channel_of afs)) with [length afs; 3]. cbn [bind ret].
  destruct Hinc as [_ Hinc].
  rewrite (increasing_min l a Hinc).
  set (hi := fold_left Nat.max l a).
  assert (Hhi_in : In hi (a :: l)) by apply fold_max_in.
  assert (Hlo_le : a <= hi) by (apply fold_max_ge; now left).
  assert (Hhi_lt : hi < length pfs) by (apply Hb; exact Hhi_in).
  exists a, hi. split; [lia|]. split; [apply Hspec; now left|].
  split; [apply Hspec; exact Hhi_in|]. split.
  - intros i t Hi. assert (Hin : In i (a :: l)) by (apply Hspec; now exists t).
    split; [|now apply fold_max_ge].
    destruct Hin as [-> | Hin]; [lia|].
    pose proof (increasing_ge l (S a) i Hinc Hin). lia.
  - rewrite Hlen.
    replace (Nat.min (hi + 1) (length pfs)) with (hi + 1) by lia.
    replace (Nat.min a (length pfs)) with a by lia.
    change (data (channel_of pfs)) with (flat_map frame_data pfs).
    change (data (channel_of afs)) with (flat_map frame_data afs).
    rewrite !drop_frames, !take_frames. unfold channel_of.
    rewrite !length_take, !length_drop, Hlen.
    replace (Nat.min (hi + 1 - a) (length pfs - a)) with (hi + 1 - a) by lia.
    reflexivity.
Qed.

End Trim.

(** X5 on a track with two leading missing frames, a gap and a trailing
    missing frame. *)
Lemma trim_keeps_first_to_last_present_witness :
  exists lo hi,
    trim (channel_of [None; None; Some (1, 2, 3); None; Some (4, 5, 6); None]%float)
         (channel_of [None; None; Some (0, 0, 0); None; Some (0, 0, 1); None]%float)
    = ret (channel_of (take (hi + 1 - lo)
                         (drop lo [None; None; Some (1, 2, 3); None; Some (4, 5, 6); None]%float)),
           channel_of (take (hi + 1 - lo)
                         (drop lo [None; None; Some (0, 0, 0); None; Some (0, 0, 1); None]%float))).
Proof.
  destruct (trim_keeps_first_to_last_present
              [None; None; Some (1, 2, 3); None; Some (4, 5, 6); None]%float
              [None; None; Some (0, 0, 0); None; Some (0, 0, 1); None]%float)
    as (lo & hi & _ & _ & _ & _ & E).
  - repeat constructor.
  - reflexivity.
  - exists 2, (1, 2, 3)%float. reflexivity.
  - exists lo, hi. exact E.
Defined.

(** ** The model matrices and the initial state (lines 99-130) *)

Section ModelMatrices.

Import np.

Lemma at2_tabulate2_from c f r : forall s i j,
  i < r -> j < c ->
  item (flat_map (fun i => tabulate c (f i)) (seq s r)) (i * c + j) = f (s + i) j.
Proof.
  induction r as [|r IH]; intros s i j Hi Hj; [lia|].
  cbn [seq flat_map]. unfold item. destruct i as [|i].
  - rewrite app_nth1 by (rewrite length_tabulate; lia).
    rewrite Nat.add_0_r. cbn [Nat.mul Nat.add]. now apply item_tabulate.
  - rewrite app_nth2 by (rewrite length_tabulate; lia).
    rewrite length_tabulate.
    replace (S i * c + j - c) with (i * c + j) by lia.
    replace (s + S i) with (S s + i) by lia.
    apply IH; lia.
Qed.

Lemma at2_tabulate2 r c f i j :
  i < r -> j < c -> at2 c (tabulate2 r c f) i j = f i j.
Proof. intros Hi Hj. unfold at2, tabulate2. now rewrite at2_tabulate2_from. Qed.

Lemma length_tabulate2 r c f : length (tabulate2 r c f) = r * c.
Proof.
  unfold tabulate2. generalize 0. induction r as [|r IH]; intros s; [reflexivity|].
  cbn [seq flat_map]. rewrite length_app, length_tabulate, IH. lia.
Qed.

Lemma item_map (f : float -> float) d k :
  k < length d -> item (map f d) k = f (item d k).
Proof.
  intros Hk. unfold item.
  rewrite (nth_indep _ 0%float (f 0%float)) by now rewrite length_map.
  apply map_nth.
Qed.

Lemma eye_symmetric n i j :
  i < n -> j < n -> at2 n (data (eye n)) i j = at2 n (data (eye n)) j i.
Proof.
  intros Hi Hj. unfold eye. cbn [data]. rewrite !at2_tabulate2 by assumption.
  now rewrite Nat.eqb_sym.
Qed.

(** [np.kron(np.eye(6), B)] of a symmetric 3x3 block is symmetric. *)
Lemma kron_eye_symmetric B :
  shape B = [3; 3] ->
  (forall u v, u < 3 -> v < 3 -> at2 3 (data B) u v = at2 3 (data B) v u) ->
  exists K, kron (eye 6) B = ret K /\ shape K = [18; 18] /\
            length (data K) = 324 /\
            forall i j, i < 18 -> j < 18 ->
              at2 18 (data K) i j = at2 18 (data K) j i.
Proof.
  intros HB Hsym. unfold kron. rewrite HB. cbn [shape eye].
  eexists. split; [reflexivity|]. cbn [shape data]. split; [reflexivity|].
  split; [now rewrite length_tabulate2|].
  intros i j Hi Hj. change (6 * 3) with 18.
  rewrite !at2_tabulate2 by assumption.
  assert (Hdiv : forall k, k < 18 -> k / 3 < 6)
    by (intros k Hk; apply Nat.Div0.div_lt_upper_bound; lia).
  assert (Hmod : forall k, k mod 3 < 3) by (intros k; apply Nat.mod_upper_bound; lia).
  rewrite (eye_symmetric 6 (i / 3) (j / 3)) by auto.
  rewrite (Hsym (i mod 3) (j mod 3)) by auto. reflexivity.
Qed.

Lemma P_init_symmetric P0 :
  exists P, kron (eye 6) (full [3; 3] P0) = ret P /\ symmetric P.
Proof.
  destruct (kron_eye_symmetric (full [3; 3] P0)) as (K & E & HK & HL & Hsym).
  - reflexivity.
  - intros u v Hu Hv. unfold full, at2. cbn [data numel foldr Nat.mul].
    rewrite !item_replicate by nia. reflexivity.
  - exists K. split; [exact E|]. exists 18. split; assumption.
Qed.

(** X6. Whenever [Q] is built (the powers of [dt] did not overflow, and
    then it is built), it equals its transpose element by element, in
    floating point as it is; so do, for every configuration, the initial
    covariance [P[0][0]] and the measurement noise [R]. *)
Theorem model_matrices_are_symmetric (float_pow : float -> nat -> result float)
    (dt P0 sq_sigma_a r : float) :
  (forall p4 p3 p2,
     float_pow dt 4 = ret p4 -> float_pow dt 3 = ret p3 -> float_pow dt 2 = ret p2 ->
     exists Q, Q_matrix float_pow dt sq_sigma_a = ret Q) /\
  (forall Q, Q_matrix float_pow dt sq_sigma_a = ret Q -> symmetric Q) /\
  (exists P, kron (eye 6) (full [3; 3] P0) = ret P /\ symmetric P) /\
  symmetric (R_matrix r).
Proof.
  split; [|split; [|split]].
  - intros p4 p3 p2 E4 E3 E2. unfold Q_matrix, kron. rewrite E4, E3, E2.
    cbn [bind ret shape eye array2d]. now eexists.
  - intros Q. unfold Q_matrix.
    destruct (float_pow dt 4) as [e|p4]; cbn [bind ret]; [discriminate|].
    destruct (float_pow dt 3) as [e|p3]; cbn [bind ret]; [discriminate|].
    destruct (float_pow dt 2) as [e|p2]; cbn [bind ret]; [discriminate|].
    destruct (kron_eye_symmetric
                (array2d [[(p4 / 4)%float; (p3 / 2)%float; (p2 / 2)%float];
                          [(p3 / 2)%float; p2; dt];
                          [(p2 / 2)%float; dt; 1%float]]))
      as (K & E & HK & HL & Hsym).
    + reflexivity.
    + intros u v Hu Hv.
      destruct u as [|[|[|u]]]; [| | |lia]; destruct v as [|[|[|v]]]; try lia; reflexivity.
    + rewrite E. cbn [bind ret]. intros [= <-].
      exists 18. unfold scale. cbn [shape data]. split; [exact HK|].
      intros i j Hi Hj. unfold at2.
      rewrite !item_map by (rewrite HL; nia).
      f_equal. apply Hsym; assumption.
  - apply P_init_symmetric.
  - exists 6. split; [reflexivity|].
    intros i j Hi Hj. unfold R_matrix, diag. cbn [data].
    rewrite length_replicate, !at2_tabulate2 by assumption.
    destruct (Nat.eqb_spec i j) as [-> | Hne].
    + now rewrite Nat.eqb_refl.
    + replace (j =? i) with false by (symmetry; apply Nat.eqb_neq; congruence).
      reflexivity.
Qed.

(** X7. The initial state holds the first frame's position in components
    0, 3, 6 and its angles in components 9, 12, 15; the velocity and
    acceleration components in between are zero. *)
Theorem x_init_layout (positions angles : ndarray) (n : nat) :
  shape positions = [S n; 3] -> shape angles = [S n; 3] ->
  3 <= length (data positions) -> 3 <= length (data angles) ->
  x_init positions angles
  = ret (NDArray [18]
           [at2 3 (data positions) 0 0; 0; 0;
            at2 3 (data positions) 0 1; 0; 0;
            at2 3 (data positions) 0 2; 0; 0;
            at2 3 (data angles) 0 0; 0; 0;
            at2 3 (data angles) 0 1; 0; 0;
            at2 3 (data angles) 0 2; 0; 0]%float).
Proof.
  intros Hp Ha Lp La. unfold x_init.
  rewrite (getrow_ok positions (S n) 3 0 Hp), (getrow_ok angles (S n) 3 0 Ha) by lia.
  destruct (data positions) as [|p0 [|p1 [|p2 dp]]]; cbn [length] in Lp; try lia.
  destruct (data angles) as [|a0 [|a1 [|a2 da]]]; cbn [length] in La; try lia.
  reflexivity.
Qed.

End ModelMatrices.

(** X6 at the default configuration. *)
Lemma model_matrices_are_symmetric_witness :
  exists Q, Q_matrix pow_by_products default_dt default_sq_sigma_a = ret Q /\ symmetric Q.
Proof.
  destruct (model_matrices_are_symmetric pow_by_products
              default_dt default_P0 default_sq_sigma_a default_r) as (Hbuilt & Hsym & _).
  destruct (Hbuilt _ _ _ eq_refl eq_refl eq_refl) as (Q & EQ).
  exists Q. split; [exact EQ | exact (Hsym Q EQ)].
Defined.

(** X7 on the channels of [gap_track]. *)
Lemma x_init_layout_witness :
  x_init (channel_of [Some (1, 0, 0); None; Some (3, 0, 0)]%float)
         (channel_of [Some (0.1, 0.2, 0.3); None; Some (0, 0, 0)]%float)
  = ret (np.NDArray [18]
           [1; 0; 0; 0; 0; 0; 0; 0; 0; 0.1; 0; 0; 0.2; 0; 0; 0.3; 0; 0]%float).
Proof.
  refine (x_init_layout (channel_of [Some (1, 0, 0); None; Some (3, 0, 0)]%float)
            (channel_of [Some (0.1, 0.2, 0.3); None; Some (0, 0, 0)]%float) 2 _ _ _ _);
    try reflexivity; cbn; lia.
Defined.
(** ** The tables when the recursion fails (lines 92-144) *)

Section TablesAtFailure.

Import np.
Variable float_pow : float -> nat -> result float.
Variable pinv_data : nat -> nat -> list float -> result (list float).

(** X8. When the powers of [dt] do not overflow, so that the first
    predicted covariance [F P[0][0] F^T + Q] is computed, the call fails
    with column 0 of the state table holding the first prediction [F @ x0]
    and column 0 of the covariance table that predicted covariance, for
    every span of one or more frames and whatever [np.linalg.pinv] does:
    the initial state and covariance stored by [x[0][0] = x0] and
    [P[0][0] = ...] have been overwritten by [x[1][0]] and [P[1][0]], and
    read back through row 0 as the predictions. *)
Theorem initial_state_is_overwritten (positions angles : ndarray)
    (dt P0 sq_sigma_a r : float) (n : nat) (P10 : ndarray) :
  shape positions = [S n; 3] -> shape angles = [S n; 3] ->
  first_prediction float_pow dt P0 sq_sigma_a = ret P10 ->
  exists F x0 x10,
    F_matrix float_pow dt = ret F /\
    x_init positions angles = ret x0 /\ matmul F x0 = ret x10 /\
    py.getitem2 1 0 0
      (fst (run (kalman_recursion float_pow pinv_data positions angles dt P0 sq_sigma_a r)))
    = (fst (run (kalman_recursion float_pow pinv_data positions angles dt P0 sq_sigma_a r)),
       ret x10) /\
    py.getitem2 3 0 0
      (fst (run (kalman_recursion float_pow pinv_data positions angles dt P0 sq_sigma_a r)))
    = (fst (run (kalman_recursion float_pow pinv_data positions angles dt P0 sq_sigma_a r)),
       ret P10).
Proof.
  intros Hp Ha EP. destruct n as [|m].
  - destruct (recursion_tables_one float_pow pinv_data positions angles
                dt P0 sq_sigma_a r P10 Hp Ha EP)
      as (F & x0 & x10 & EF & Ex0 & Ex10 & ->).
    exists F, x0, x10. repeat (split; [assumption|]).
    split; reflexivity.
  - destruct (recursion_tables_two float_pow pinv_data positions angles
                dt P0 sq_sigma_a r m P10 Hp Ha EP)
      as (F & H & x0 & x10 & p1 & a1 & z1 & Sg & EF & EH & Ex0 & Ex10 & _ & _ & _
          & _ & Hraise & Hret).
    exists F, x0, x10. repeat (split; [assumption|]).
    destruct (pinv_data 6 6 (data Sg)) as [e|d] eqn:Ed.
    + rewrite (Hraise e eq_refl). split; reflexivity.
    + destruct (Hret d eq_refl) as (K1 & x11 & _ & _ & ->). split; reflexivity.
Qed.

(** X9. On a span of two or more frames, when the powers of [dt] do not
    overflow, the call fails in the first pass of the loop.  When
    [np.linalg.pinv] returns on [H P[1][0] H^T + R], exactly one update has
    been started: the measurement [z[1]] (row 1 of the positions followed
    by row 1 of the angles), the gain [K[1]] and the state of frame 1 have
    been stored, the covariance of frame 1 has not, and nothing has been
    stored for any later frame.  When [np.linalg.pinv] raises, the call
    ends in its exception with [z[1]] stored and neither gain nor state. *)
Theorem one_update_before_failure (positions angles : ndarray)
    (dt P0 sq_sigma_a r : float) (m : nat) (P10 : ndarray) :
  shape positions = [S (S m); 3] -> shape angles = [S (S m); 3] ->
  first_prediction float_pow dt P0 sq_sigma_a = ret P10 ->
  exists F H x0 x10 p1 a1 z1 Sg,
    F_matrix float_pow dt = ret F /\ H_matrix = ret H /\
    x_init positions angles = ret x0 /\ matmul F x0 = ret x10 /\
    getrow positions 1 = ret p1 /\ getrow angles 1 = ret a1 /\ r_ p1 a1 = ret z1 /\
    first_innovation float_pow dt P0 sq_sigma_a r = ret Sg /\
    (forall d, pinv_data 6 6 (data Sg) = ret d ->
       exists K1 x11,
         gain pinv_data P10 H (R_matrix r) = ret K1 /\
         state_update x10 K1 z1 H = ret x11 /\
         run (kalman_recursion float_pow pinv_data positions angles dt P0 sq_sigma_a r)
         = ([ py.Array x10 :: py.Array x11 :: replicate m py.None_;
              replicate (S (S m) + 1) (py.List 0);
              py.Array P10 :: py.None_ :: replicate m py.None_;
              replicate (S (S m) + 1) (py.List 2);
              py.None_ :: py.Array K1 :: replicate m py.None_;
              py.None_ :: py.Array z1 :: replicate m py.None_ ],
            raise (BroadcastError [9; 9] [18; 18]))) /\
    (forall e, pinv_data 6 6 (data Sg) = raise e ->
       run (kalman_recursion float_pow pinv_data positions angles dt P0 sq_sigma_a r)
       = ([ py.Array x10 :: py.None_ :: replicate m py.None_;
            replicate (S (S m) + 1) (py.List 0);
            py.Array P10 :: py.None_ :: replicate m py.None_;
            replicate (S (S m) + 1) (py.List 2);
            py.None_ :: py.None_ :: replicate m py.None_;
            py.None_ :: py.Array z1 :: replicate m py.None_ ],
          raise e)).
Proof.
  intros Hp Ha EP.
  destruct (recursion_tables_two float_pow pinv_data positions angles
              dt P0 sq_sigma_a r m P10 Hp Ha EP)
    as (F & H & x0 & x10 & p1 & a1 & z1 & Sg & EF & EH & Ex0 & Ex10 & Ep1 & Ea1 & Ez1
        & ES & Hraise & Hret).
  exists F, H, x0, x10, p1, a1, z1, Sg. repeat (split; [assumption|]).
  exact Hraise.
Qed.

End TablesAtFailure.

(** X8 on the channels of a single frame. *)
Lemma initial_state_is_overwritten_witness :
  exists x10 P10,
    py.getitem2 1 0 0
      (fst (run (kalman_recursion pow_by_products pinv_diag (channel_of [Some (1, 2, 3)]%float)
                   (channel_of [Some (0, 0, 0)]%float)
                   default_dt default_P0 default_sq_sigma_a default_r)))
    = (fst (run (kalman_recursion pow_by_products pinv_diag (channel_of [Some (1, 2, 3)]%float)
                   (channel_of [Some (0, 0, 0)]%float)
                   default_dt default_P0 default_sq_sigma_a default_r)),
       ret x10) /\
    py.getitem2 3 0 0
      (fst (run (kalman_recursion pow_by_products pinv_diag (channel_of [Some (1, 2, 3)]%float)
                   (channel_of [Some (0, 0, 0)]%float)
                   default_dt default_P0 default_sq_sigma_a default_r)))
    = (fst (run (kalman_recursion pow_by_products pinv_diag (channel_of [Some (1, 2, 3)]%float)
                   (channel_of [Some (0, 0, 0)]%float)
                   default_dt default_P0 default_sq_sigma_a default_r)),
       ret P10).
Proof.
  assert (E : exists P10, first_prediction pow_by_products default_dt default_P0
                            default_sq_sigma_a = ret P10)
    by (eexists; vm_compute; reflexivity).
  destruct E as (P10 & EP).
  destruct (initial_state_is_overwritten pow_by_products pinv_diag
              (channel_of [Some (1, 2, 3)]%float)
              (channel_of [Some (0, 0, 0)]%float)
              default_dt default_P0 default_sq_sigma_a default_r 0 P10 eq_refl eq_refl EP)
    as (F & x0 & x10 & _ & _ & _ & Ex & EP').
  exists x10, P10. split; assumption.
Defined.

(** X9 on the channels of [gap_track]. *)
Lemma one_update_before_failure_witness :
  snd (run (kalman_recursion pow_by_products pinv_diag
              (channel_of [Some (1, 0, 0); None; Some (3, 0, 0)]%float)
              (channel_of [Some (0, 0, 0); None; Some (0, 0, 0)]%float)
              default_dt default_P0 default_sq_sigma_a default_r))
  = raise (BroadcastError [9; 9] [18; 18]).
Proof.
  assert (E : exists P10, first_prediction pow_by_products default_dt default_P0
                            default_sq_sigma_a = ret P10)
    by (eexists; vm_compute; reflexivity).
  destruct E as (P10 & EP).
  destruct (one_update_before_failure pow_by_products pinv_diag
              (channel_of [Some (1, 0, 0); None; Some (3, 0, 0)]%float)
              (channel_of [Some (0, 0, 0); None; Some (0, 0, 0)]%float)
              default_dt default_P0 default_sq_sigma_a default_r 1 P10 eq_refl eq_refl EP)
    as (F & H & x0 & x10 & p1 & a1 & z1 & Sg & _ & _ & _ & _ & _ & _ & _ & _ & Hret & _).
  destruct (Hret _ eq_refl) as (K1 & x11 & _ & _ & ->).
  reflexivity.
Defined.

(** ** The covariances the filter holds (lines 126-141) *)

Section Covariances.

Import np.
Variable float_pow : float -> nat -> result float.
Variable pinv_data : nat -> nat -> list float -> result (list float).


End Covariances.



(** ** [load_object_poses] (lines 12-44) *)

Section Loader.

Variable set_order : gset string -> list string.
Hypothesis set_order_perm : forall X, set_order X ≡ₚ elements X.
Variable int : string -> result Z.

Lemma ofor_app {S A} (l1 l2 : list A) (s : S) (body : S -> A -> outcome S) :
  ofor_ (l1 ++ l2) s body = (s' <<- ofor_ l1 s body ;; ofor_ l2 s' body).
Proof.
  revert s. induction l1 as [|a l1 IH]; intros s; cbn [app ofor_ obind oret]; [reflexivity|].
  destruct (body s a) as [e|s']; cbn [obind]; [reflexivity | apply IH].
Qed.

(** A loop whose passes either go on or raise [E], and which meets an
    element on which every pass raises [E], raises [E]. *)
Lemma ofor_raises {S A} (E : py_exn) (l : list A) (body : S -> A -> outcome S) :
  (forall s a, In a l -> (exists s', body s a = oret s') \/ body s a = oraise E) ->
  (exists a, In a l /\ forall s, body s a = oraise E) ->
  forall s, ofor_ l s body = oraise E.
Proof.
  induction l as [|a l IH]; intros Hbody (b & Hb & Hraise) s; [destruct Hb|].
  cbn [ofor_]. destruct (Hbody s a (or_introl eq_refl)) as [(s' & Hs') | Hs'];
    rewrite Hs'; cbn [obind oret oraise]; [|reflexivity].
  destruct Hb as [<- | Hb]; [rewrite Hraise in Hs'; discriminate|].
  apply IH.
  - intros s0 a0 Ha0. apply Hbody. now right.
  - exists b. split; assumption.
Qed.


Lemma dict_get_In {V} (d : list (string * V)) k v :
  dict_get d k = Some v -> In (k, v) d.
Proof.
  unfold dict_get. destruct (List.find _ d) as [[k' v']|] eqn:E; [|discriminate].
  intros [= <-]. apply find_some in E as [Hin Hk]. cbn [fst snd] in *.
  apply String.eqb_eq in Hk. now subst.
Qed.

Lemma elem_of_object_ids (frames : frame_dict) obj :
  obj ∈ object_ids frames <->
  exists key objs, In (key, objs) frames /\ is_Some (objs !! obj).
Proof.
  unfold object_ids. rewrite elem_of_union_list. split.
  - intros (X & HX & Hobj). apply list_elem_of_In, in_map_iff in HX as ([key objs] & <- & Hin).
    exists key, objs. split; [exact Hin|]. now apply elem_of_dom in Hobj.
  - intros (key & objs & Hin & Hobj). exists (dom objs). split.
    + apply list_elem_of_In, in_map_iff. now exists (key, objs).
    + now apply elem_of_dom.
Qed.




Lemma objects_loop frames (ids : list string) :
  forall m0 result : gmap string (list (option np.ndarray)),
  ofor_ ids m0 (fun object_poses obj_id =>
    poses <<- poses_of int frames obj_id ;;
    oret (<[obj_id := poses]> object_poses)) = oret result ->
  (forall obj, In obj ids ->
     exists poses, poses_of int frames obj = oret poses /\ result !! obj = Some poses) /\
  (forall obj, ~ In obj ids -> result !! obj = m0 !! obj).
Proof.
  induction ids as [|a ids IH]; intros m0 result; cbn [ofor_].
  - intros [= <-]. split; [intros obj []|reflexivity].
  - destruct (poses_of int frames a) as [e|p] eqn:Ea; cbn [obind oret]; [discriminate|].
    intros Hrun. apply IH in Hrun as [Hin Hout]. split.
    + intros obj Hobj. destruct (in_dec string_dec obj ids) as [Hi | Hni]; [now apply Hin|].
      destruct Hobj as [<- | Hobj]; [|contradiction].
      exists p. split; [exact Ea|]. rewrite (Hout a Hni). apply lookup_insert_eq.
    + intros obj Hobj. rewrite Hout by (intros H; apply Hobj; now right).
      apply lookup_insert_ne. intros ->. apply Hobj. now left.
Qed.

Lemma In_set_order (X : gset string) obj : In obj (set_order X) <-> obj ∈ X.
Proof.
  rewrite <- list_elem_of_In, (set_order_perm X). apply elem_of_elements.
Qed.

Lemma load_object_poses_keys (frames : frame_dict)
    (result : gmap string (list (option np.ndarray))) :
  load_object_poses set_order int frames = oret result ->
  forall obj, is_Some (result !! obj) <-> obj ∈ object_ids frames.
Proof.
  unfold load_object_poses. intros Hrun obj.
  apply objects_loop in Hrun as [Hin Hout].
  rewrite <- In_set_order. split.
  - intros Hsome. destruct (in_dec string_dec obj (set_order (object_ids frames)));
      [assumption|].
    rewrite Hout in Hsome by assumption. rewrite lookup_empty in Hsome.
    now destruct Hsome.
  - intros Hobj. destruct (Hin obj Hobj) as (poses & _ & ->). eauto.
Qed.



(** X11. A file without any object (no frame, or only empty frames) loads
    as the empty dict, whatever its keys are: the last key is not even
    looked at. *)
Theorem load_object_poses_without_objects (frames : frame_dict) :
  object_ids frames = ∅ ->
  load_object_poses set_order int frames = oret ∅.
Proof.
  intros Hempty. unfold load_object_poses. rewrite Hempty.
  pose proof (set_order_perm ∅) as Hperm. rewrite elements_empty in Hperm.
  apply Permutation_nil_r in Hperm. now rewrite Hperm.
Qed.

(** X12. When the file holds an object and [int] rejects its last key, the
    loader fails with the exception of [int]. *)
Theorem load_object_poses_needs_an_integer_last_key (frames : frame_dict)
    (obj last_key : string) (e : exn) :
  obj ∈ object_ids frames ->
  last (map fst frames) = Some last_key -> int last_key = raise e ->
  load_object_poses set_order int frames = oraise (Raised e).
Proof.
  intros Hobj Hlast Hint. unfold load_object_poses.
  assert (Hraise : forall id, poses_of int frames id = oraise (Raised e)).
  { intros id. unfold poses_of. rewrite Hlast. cbn [obind oret]. now rewrite Hint. }
  apply ofor_raises.
  - intros s a _. right. now rewrite Hraise.
  - exists obj. split; [now apply In_set_order|]. intros s. now rewrite Hraise.
Qed.

Lemma frame_step_outcome frames obj
    (Hrect : forall key objs o rows, In (key, objs) frames -> objs !! o = Some rows ->
               exists A, array_of_rows rows = ret A) poses f :
  (exists out, frame_step frames obj poses f = oret out) \/
  frame_step frames obj poses f = oraise AssertionError.
Proof.
  unfold frame_step.
  destruct (dict_get frames (pretty f)) as [objs|] eqn:Eget; [|left; now eexists].
  destruct (objs !! obj) as [rows|] eqn:Eobj; [|left; now eexists].
  destruct (Hrect _ _ _ _ (dict_get_In _ _ _ Eget) Eobj) as (A & ->).
  cbn [olift obind ret]. destruct (bool_decide _); [|now right].
  left. now eexists.
Qed.

Lemma frames_loop_outcome frames obj
    (Hrect : forall key objs o rows, In (key, objs) frames -> objs !! o = Some rows ->
               exists A, array_of_rows rows = ret A) n :
  forall s acc,
    (exists out, ofor_ (seq s n) acc (frame_step frames obj) = oret out) \/
    ofor_ (seq s n) acc (frame_step frames obj) = oraise AssertionError.
Proof.
  induction n as [|n IH]; intros s acc; cbn [seq ofor_]; [left; now eexists|].
  destruct (frame_step_outcome frames obj Hrect acc s) as [(out & ->) | ->];
    cbn [obind oraise]; [apply IH | now right].
Qed.

(** X13. In a file whose poses are all rectangular, one pose that is not
    4x4, stored under a key [str(f)] with [f] up to the last frame, makes
    the loader fail with the [AssertionError] of line 36. *)
Theorem load_object_poses_asserts_4x4 (frames : frame_dict)
    (obj last_key : string) (last_frame : Z) (f : nat) (rows : json_pose)
    (A : np.ndarray) :
  (forall key objs o rows', In (key, objs) frames -> objs !! o = Some rows' ->
     exists B, array_of_rows rows' = ret B) ->
  last (map fst frames) = Some last_key -> int last_key = ret last_frame ->
  f < Z.to_nat (last_frame + 1) ->
  pose_at_frame frames obj f = Some rows ->
  array_of_rows rows = ret A -> np.shape A <> [4; 4] ->
  load_object_poses set_order int frames = oraise AssertionError.
Proof.
  intros Hrect Hlast Hint Hf Hpose HA Hshape. unfold load_object_poses.
  assert (Hany : forall id, (exists p, poses_of int frames id = oret p)
                            \/ poses_of int frames id = oraise AssertionError).
  { intros id. unfold poses_of. rewrite Hlast. cbn [obind oret]. rewrite Hint.
    cbn [olift obind ret]. apply frames_loop_outcome. exact Hrect. }
  assert (Hbad : poses_of int frames obj = oraise AssertionError).
  { unfold poses_of. rewrite Hlast. cbn [obind oret]. rewrite Hint. cbn [olift obind ret].
    replace (Z.to_nat (last_frame + 1)) with (f + S (Z.to_nat (last_frame + 1) - S f)) by lia.
    rewrite seq_app, ofor_app.
    destruct (frames_loop_outcome frames obj Hrect f 0 []) as [(out & ->) | ->];
      cbn [obind oret oraise]; [|reflexivity].
    cbn [seq ofor_ Nat.add]. unfold frame_step. unfold pose_at_frame in Hpose.
    destruct (dict_get frames (pretty f)) as [objs|]; cbn [mbind option_bind] in Hpose;
      [|discriminate].
    rewrite Hpose, HA. cbn [olift obind ret].
    rewrite bool_decide_eq_false_2 by assumption. reflexivity. }
  apply ofor_raises.
  - intros s a _. destruct (Hany a) as [(p & ->) | ->]; [left; now eexists | now right].
  - exists obj. split; [|intros s; now rewrite Hbad].
    apply In_set_order, elem_of_object_ids.
    unfold pose_at_frame in Hpose.
    destruct (dict_get frames (pretty f)) as [objs|] eqn:Eget; cbn [mbind option_bind] in Hpose;
      [|discriminate].
    exists (pretty f), objs. split; [now apply dict_get_In | now rewrite Hpose].
Qed.

End Loader.


(** X11 on a file of two empty frames. *)
Lemma load_object_poses_without_objects_witness :
  load_object_poses elements int_small [("5", ∅); ("end", ∅)]%string = oret ∅.
Proof.
  apply (load_object_poses_without_objects elements (fun X => reflexivity _)).
  reflexivity.
Defined.

(** X12 on a file that ends with a key that is no number. *)
Lemma load_object_poses_needs_an_integer_last_key_witness :
  load_object_poses elements int_small
    [("0", {["13" := rows_at 0 0 0]}); ("end", ∅)]%string
  = oraise (Raised (LibraryError "ValueError")).
Proof.
  apply (load_object_poses_needs_an_integer_last_key elements (fun X => reflexivity _)
           int_small _ "13"%string "end"%string).
  - vm_compute. reflexivity.
  - reflexivity.
  - reflexivity.
Defined.

(** X13 on a file whose frame 1 holds a 3x4 matrix. *)
Lemma load_object_poses_asserts_4x4_witness :
  load_object_poses elements int_small
    [("0", {["13" := rows_at 0 0 0]});
     ("1", {["13" := [[1; 0; 0; 0]; [0; 1; 0; 0]; [0; 0; 1; 0]]%float]})]%string
  = oraise AssertionError.
Proof.
  apply (load_object_poses_asserts_4x4 elements (fun X => reflexivity _)
           int_small _ "13"%string "1"%string 1%Z 1
           [[1; 0; 0; 0]; [0; 1; 0; 0]; [0; 0; 1; 0]]%float
           (np.NDArray [3; 4] [1; 0; 0; 0; 0; 1; 0; 0; 0; 0; 1; 0]%float)).
  - intros key objs o rows' [[= <- <-] | [[= <- <-] | []]] Hrows.
    + apply lookup_singleton_Some in Hrows as [_ <-]. now eexists.
    + apply lookup_singleton_Some in Hrows as [_ <-]. now eexists.
  - reflexivity.
  - reflexivity.
  - vm_compute. lia.
  - vm_compute. reflexivity.
  - reflexivity.
  - discriminate.
Defined.

(** ** The script (lines 188-203) *)

Section ScriptFacts.

Variable set_order : gset string -> list string.
Hypothesis set_order_perm : forall X, set_order X ≡ₚ elements X.
Variable int : string -> result Z.
Variable inv_data : nat -> list float -> result (list float).
Variable float_pow : float -> nat -> result float.
Variable as_euler : np.ndarray -> result (float * float * float).
Variable pinv_data : nat -> nat -> list float -> result (list float).

Lemma first_none_loop (poses : list (option np.ndarray)) n : forall s acc,
  match acc with
  | Some k => k < s /\ (exists P, poses !! k = Some (Some P)) /\
              forall j P, j < s -> poses !! j = Some (Some P) -> j <= k
  | None => forall j P, j < s -> poses !! j <> Some (Some P)
  end ->
  match fold_left (fun first_none i =>
                     match poses !! i with
                     | Some (Some _) => Some i
                     | _ => first_none
                     end) (seq s n) acc with
  | Some k => k < s + n /\ (exists P, poses !! k = Some (Some P)) /\
              forall j P, j < s + n -> poses !! j = Some (Some P) -> j <= k
  | None => forall j P, j < s + n -> poses !! j <> Some (Some P)
  end.
Proof.
  induction n as [|n IH]; intros s acc Hacc; cbn [seq fold_left].
  - now rewrite Nat.add_0_r.
  - replace (s + S n) with (S s + n) by lia. apply IH.
    destruct (poses !! s) as [[P|]|] eqn:Es.
    + split; [lia|]. split; [now exists P|]. intros j Q Hj _. lia.
    + destruct acc as [k|].
      * destruct Hacc as (Hk & Hpres & Hlast). split; [lia|]. split; [assumption|].
        intros j Q Hj HQ. destruct (decide (j = s)) as [-> | Hne]; [congruence|].
        apply (Hlast j Q); [lia | assumption].
      * intros j Q Hj HQ. destruct (decide (j = s)) as [-> | Hne]; [congruence|].
        apply (Hacc j Q); [lia | assumption].
    + destruct acc as [k|].
      * destruct Hacc as (Hk & Hpres & Hlast). split; [lia|]. split; [assumption|].
        intros j Q Hj HQ. destruct (decide (j = s)) as [-> | Hne]; [congruence|].
        apply (Hlast j Q); [lia | assumption].
      * intros j Q Hj HQ. destruct (decide (j = s)) as [-> | Hne]; [congruence|].
        apply (Hacc j Q); [lia | assumption].
Qed.

Lemma find_first_none_spec (poses : list (option np.ndarray)) :
  match find_first_none poses with
  | Some k => (exists P, poses !! k = Some (Some P)) /\
              forall j P, poses !! j = Some (Some P) -> j <= k
  | None => forall j P, poses !! j <> Some (Some P)
  end.
Proof.
  unfold find_first_none.
  pose proof (first_none_loop poses (length poses) 0 None) as H. cbv beta iota in H.
  specialize (H ltac:(intros; lia)).
  destruct (fold_left _ _ _) as [k|].
  - destruct H as (_ & Hpres & Hlast). split; [assumption|].
    intros j P HP. apply (Hlast j P); [|assumption].
    apply lookup_lt_Some in HP. lia.
  - intros j P HP. apply (H j P); [|assumption].
    apply lookup_lt_Some in HP. lia.
Qed.

Lemma find_first_none_last (poses : list (option np.ndarray)) k P :
  poses !! k = Some (Some P) ->
  (forall j Q, poses !! j = Some (Some Q) -> j <= k) ->
  find_first_none poses = Some k.
Proof.
  intros Hk Hlast. pose proof (find_first_none_spec poses) as H.
  destruct (find_first_none poses) as [k'|].
  - destruct H as ((Q & HQ) & Hlast'). f_equal.
    apply Nat.le_antisymm; [eapply Hlast; eassumption | eapply Hlast'; eassumption].
  - now apply H in Hk.
Qed.

(** X14. The name [first_none] of the script ends as the index of the
    LAST pose that is not [None] (the loop assigns it at every present
    pose), and is never assigned when every pose is [None]. *)
Theorem first_none_is_the_last_present_pose (poses : list (option np.ndarray)) :
  match find_first_none poses with
  | Some k => (exists P, poses !! k = Some (Some P)) /\
              forall j P, poses !! j = Some (Some P) -> j <= k
  | None => Forall (fun p => p = None) poses
  end.
Proof.
  pose proof (find_first_none_spec poses) as H.
  destruct (find_first_none poses) as [k|]; [exact H|].
  apply Forall_lookup_2. intros j [P|] Hj; [now apply H in Hj | reflexivity].
Qed.

Lemma normalize_loop (poses : list (option np.ndarray)) k reference inverse
    (Hk : poses !! k = Some (Some reference))
    (Hlast : forall j Q, poses !! j = Some (Some Q) -> j <= k)
    (Hshape : Forall (fun p => forall P, p = Some P -> np.shape P = [4; 4]) poses)
    (Hinv : linalg_inv inv_data reference = ret inverse) n :
  forall s cur,
    s + n = length poses -> length cur = length poses ->
    (forall j, s <= j -> cur !! j = poses !! j) ->
    (forall j, j < s -> normalized_at inverse poses cur j) ->
    exists out, ofor_ (seq s n) cur (normalize_step inv_data (Some k)) = oret out /\
                length out = length poses /\
                forall j, normalized_at inverse poses out j.
Proof.
  assert (Hinverse : np.shape inverse = [4; 4]).
  { unfold linalg_inv in Hinv.
    rewrite (proj1 (Forall_lookup _ _) Hshape k _ Hk reference eq_refl) in Hinv.
    cbn [Nat.eqb] in Hinv. destruct (inv_data 4 _); [discriminate|].
    now injection Hinv as <-. }
  induction n as [|n IH]; intros s cur Hn Hlen Hrest Hdone; cbn [seq ofor_].
  - exists cur. split; [reflexivity|]. split; [assumption|].
    intros j. destruct (decide (j < s)) as [Hj | Hj]; [now apply Hdone|].
    unfold normalized_at. rewrite lookup_ge_None_2 by lia. exact I.
  - unfold normalize_step at 1. rewrite (Hrest s) by lia.
    destruct (poses !! s) as [[P|]|] eqn:Es.
    + cbn [obind oret]. rewrite (Hrest k) by (eapply Hlast; eassumption).
      rewrite Hk. cbn [obind oret]. rewrite Hinv. cbn [olift obind ret].
      destruct (matmul_mm inverse P 4 4 4 Hinverse) as (P' & HP' & _).
      { exact (proj1 (Forall_lookup _ _) Hshape s _ Es P eq_refl). }
      rewrite HP'. cbn [olift obind ret].
      apply IH.
      * lia.
      * now rewrite length_insert.
      * intros j Hj. rewrite list_lookup_insert_ne by lia. apply Hrest. lia.
      * intros j Hj. unfold normalized_at. destruct (decide (j = s)) as [-> | Hne].
        -- rewrite Es. exists P'. split; [assumption|].
           apply list_lookup_insert_eq. lia.
        -- rewrite list_lookup_insert_ne by lia. apply Hdone. lia.
    + cbn [oret obind]. apply IH; [lia | assumption | intros; apply Hrest; lia |].
      intros j Hj. destruct (decide (j = s)) as [-> | Hne]; [|apply Hdone; lia].
      unfold normalized_at. rewrite Es. rewrite (Hrest s) by lia. assumption.
    + apply lookup_ge_None_1 in Es. lia.
Qed.

(** X15. The second loop of the script keeps the length of the list and
    its [None] entries, and replaces every present pose [P] by
    [inv(R) @ P], where [R] is the last present pose as it was before the
    loop: although the list is updated in place, [R] is overwritten only
    in the pass that reads it last. *)
Theorem normalize_is_relative_to_the_last_pose (poses : list (option np.ndarray))
    (k : nat) (reference inverse : np.ndarray) :
  poses !! k = Some (Some reference) ->
  (forall j Q, poses !! j = Some (Some Q) -> j <= k) ->
  Forall (fun p => forall P, p = Some P -> np.shape P = [4; 4]) poses ->
  linalg_inv inv_data reference = ret inverse ->
  exists out,
    normalize inv_data poses = oret out /\ length out = length poses /\
    forall i,
      (poses !! i = Some None -> out !! i = Some None) /\
      (forall P, poses !! i = Some (Some P) ->
         exists P', np.matmul inverse P = ret P' /\ out !! i = Some (Some P')).
Proof.
  intros Hk Hlast Hshape Hinv. unfold normalize.
  rewrite (find_first_none_last poses k reference Hk Hlast).
  destruct (normalize_loop poses k reference inverse Hk Hlast Hshape Hinv
              (length poses) 0 poses) as (out & Hrun & Hlen & Hout);
    [lia | reflexivity | reflexivity | intros; lia |].
  exists out. split; [assumption|]. split; [assumption|].
  intros i. specialize (Hout i). unfold normalized_at in Hout. split.
  - intros Hi. now rewrite Hi in Hout.
  - intros P Hi. now rewrite Hi in Hout.
Qed.

Lemma normalize_loop_raises (poses : list (option np.ndarray)) k reference e
    (Hk : poses !! k = Some (Some reference))
    (Hinv : linalg_inv inv_data reference = raise e) n :
  forall s cur,
    s <= k < s + n ->
    (forall j, s <= j -> cur !! j = poses !! j) ->
    ofor_ (seq s n) cur (normalize_step inv_data (Some k)) = oraise (Raised e).
Proof.
  induction n as [|n IH]; intros s cur Hs Hrest; [lia|]. cbn [seq ofor_].
  unfold normalize_step at 1. rewrite (Hrest s) by lia.
  destruct (poses !! s) as [[P|]|] eqn:Es.
  - cbn [obind oret]. rewrite (Hrest k) by lia. rewrite Hk. cbn [obind oret]. rewrite Hinv. reflexivity.
  - cbn [obind oret]. apply IH; [|intros; apply Hrest; lia].
    destruct (decide (s = k)) as [-> | Hne]; [congruence | lia].
  - cbn [obind oret]. apply IH; [|intros; apply Hrest; lia].
    destruct (decide (s = k)) as [-> | Hne]; [congruence | lia].
Qed.

Lemma first_present_pose (poses : list (option np.ndarray)) : forall k P,
  poses !! k = Some (Some P) ->
  exists i0 P0, i0 <= k /\ poses !! i0 = Some (Some P0) /\
                forall j, j < i0 -> poses !! j = Some None.
Proof.
  induction poses as [|p poses IH]; intros k P Hk; [discriminate|].
  destruct p as [P0|].
  - exists 0, P0. split; [lia|]. split; [reflexivity|]. intros j Hj. lia.
  - destruct k as [|k]; [discriminate|].
    destruct (IH k P Hk) as (i0 & P0 & Hle & Hi0 & Hbefore).
    exists (S i0), P0. split; [lia|]. split; [exact Hi0|].
    intros [|j] Hj; [reflexivity|]. apply Hbefore. lia.
Qed.

Lemma normalize_loop_skips (poses : list (option np.ndarray)) first_none n :
  forall s, (forall j, s <= j < s + n -> poses !! j = Some None) ->
  ofor_ (seq s n) poses (normalize_step inv_data first_none) = oret poses.
Proof.
  induction n as [|n IH]; intros s Hnone; cbn [seq ofor_]; [reflexivity|].
  unfold normalize_step at 1. rewrite (Hnone s) by lia. cbn [obind oret].
  apply IH. intros j Hj. apply Hnone. lia.
Qed.

(** X16. When [np.linalg.inv] rejects the last present pose, the second
    loop fails with that exception at the first present pose, before any
    pose is replaced: the passes before it go over [None] entries and leave
    the list as it was, and the pass on the first present pose, run on
    that unchanged list, raises. *)
Theorem normalize_needs_an_invertible_last_pose (poses : list (option np.ndarray))
    (k : nat) (reference : np.ndarray) (e : exn) :
  poses !! k = Some (Some reference) ->
  (forall j Q, poses !! j = Some (Some Q) -> j <= k) ->
  linalg_inv inv_data reference = raise e ->
  normalize inv_data poses = oraise (Raised e) /\
  exists i0 P0,
    poses !! i0 = Some (Some P0) /\
    (forall j, j < i0 -> poses !! j = Some None) /\
    ofor_ (seq 0 i0) poses (normalize_step inv_data (find_first_none poses)) = oret poses /\
    normalize_step inv_data (find_first_none poses) poses i0 = oraise (Raised e).
Proof.
  intros Hk Hlast Hinv. split.
  - unfold normalize.
    rewrite (find_first_none_last poses k reference Hk Hlast).
    apply (normalize_loop_raises poses k reference e Hk Hinv).
    + apply lookup_lt_Some in Hk. lia.
    + reflexivity.
  - destruct (first_present_pose poses k reference Hk) as (i0 & P0 & Hle & Hi0 & Hbefore).
    exists i0, P0. split; [exact Hi0|]. split; [exact Hbefore|]. split.
    + apply normalize_loop_skips. intros j Hj. apply Hbefore. lia.
    + unfold normalize_step. rewrite Hi0.
      rewrite (find_first_none_last poses k reference Hk Hlast). cbn [obind oret].
      rewrite Hk. cbn [obind oret]. rewrite Hinv. reflexivity.
Qed.

Lemma normalize_loop_missing (poses : list (option np.ndarray)) first_none
    (Hnone : Forall (fun p => p = None) poses) n :
  forall s, ofor_ (seq s n) poses (normalize_step inv_data first_none) = oret poses.
Proof.
  induction n as [|n IH]; intros s; cbn [seq ofor_]; [reflexivity|].
  unfold normalize_step at 1.
  destruct (poses !! s) as [[P|]|] eqn:Es; cbn [obind oret]; [|apply IH..].
  pose proof (proj1 (Forall_lookup _ _) Hnone s _ Es). discriminate.
Qed.

(** X17. The script never ends normally, whatever the file holds.  When
    the file has no object 13 and loads, the script stops with
    [KeyError: '13']; when every pose of object 13 is [None], the
    unassigned name [first_none] is never read and the list reaches
    [kalman_filter] unchanged. *)
Theorem script_never_completes (frames : frame_dict) :
  (exists e, main set_order int inv_data float_pow as_euler pinv_data frames = oraise e) /\
  (forall result, load_object_poses set_order int frames = oret result ->
     "13"%string ∉ object_ids frames ->
     main set_order int inv_data float_pow as_euler pinv_data frames = oraise (KeyError "13")) /\
  (forall result poses, load_object_poses set_order int frames = oret result ->
     result !! "13"%string = Some poses -> Forall (fun p => p = None) poses ->
     main set_order int inv_data float_pow as_euler pinv_data frames
     = olift (snd (run (kalman_filter float_pow as_euler pinv_data
                          (replicate (length poses) None)
                          default_dt default_P0 default_sq_sigma_a default_r)))).
Proof.
  unfold main. repeat split.
  - destruct (load_object_poses set_order int frames) as [e|result];
      cbn [obind]; [now exists e|].
    destruct (result !! "13"%string) as [poses|]; cbn [obind oret oraise];
      [|now eexists].
    destruct (normalize inv_data poses) as [e|poses']; cbn [obind]; [now exists e|].
    destruct (kalman_filter_raises float_pow as_euler pinv_data
                (map (option_map pose_of_array) poses')
                default_dt default_P0 default_sq_sigma_a default_r []) as (h' & e & He).
    unfold run. rewrite He. cbn [snd olift raise]. now eexists.
  - intros result Hload Hobj. rewrite Hload. cbn [obind oret].
    destruct (result !! "13"%string) as [poses|] eqn:E13; [|reflexivity].
    exfalso. apply Hobj.
    apply (load_object_poses_keys set_order set_order_perm int frames result Hload).
    now rewrite E13.
  - intros result poses Hload H13 Hnone. rewrite Hload. cbn [obind oret].
    rewrite H13. cbn [obind oret]. unfold normalize.
    rewrite (normalize_loop_missing poses _ Hnone). cbn [obind oret].
    do 4 f_equal. clear -Hnone. induction Hnone as [|p poses -> _ IH]; [reflexivity|].
    cbn [map option_map length replicate]. now rewrite IH.
Qed.

End ScriptFacts.

(** X15 on a track of two poses around a gap. *)
Lemma normalize_is_relative_to_the_last_pose_witness :
  exists out,
    normalize inv_translation
      gap_arrays = oret out /\
    length out = 3 /\
    forall i,
      (gap_arrays !! i = Some None ->
       out !! i = Some None) /\
      (forall P, gap_arrays !! i
                 = Some (Some P) ->
         exists P', np.matmul (array_at (-3) (-0) (-0)) P = ret P' /\
                    out !! i = Some (Some P')).
Proof.
  refine (normalize_is_relative_to_the_last_pose inv_translation
            gap_arrays
            2 (array_at 3 0 0) (array_at (-3) (-0) (-0)) _ _ _ _).
  - reflexivity.
  - intros [|[|[|j]]] Q HQ; [lia | lia | lia | discriminate].
  - repeat constructor; intros P [= <-]; reflexivity.
  - reflexivity.
Defined.

(** X16 on a track whose last pose is the zero matrix. *)
Lemma normalize_needs_an_invertible_last_pose_witness :
  normalize inv_translation singular_arrays
  = oraise (Raised (LibraryError "LinAlgError")) /\
  exists i0 P0,
    singular_arrays !! i0 = Some (Some P0) /\
    (forall j, j < i0 -> singular_arrays !! j = Some None) /\
    ofor_ (seq 0 i0) singular_arrays
      (normalize_step inv_translation (find_first_none singular_arrays))
    = oret singular_arrays /\
    normalize_step inv_translation (find_first_none singular_arrays) singular_arrays i0
    = oraise (Raised (LibraryError "LinAlgError")).
Proof.
  refine (normalize_needs_an_invertible_last_pose inv_translation singular_arrays
            2 (np.zeros [4; 4]) (LibraryError "LinAlgError") _ _ _).
  - reflexivity.
  - intros [|[|[|j]]] Q HQ; [lia | lia | lia | discriminate].
  - reflexivity.
Defined.

(** X17 on a file that holds object 7 only: a [KeyError]. *)
Lemma script_never_completes_witness :
  main elements int_small inv_translation pow_by_products euler_of_identity pinv_diag
    [("0", {["7" := rows_at 0 0 0]})]%string
  = oraise (KeyError "13").
Proof.
  refine (proj1 (proj2 (script_never_completes elements (fun X => reflexivity _)
            int_small inv_translation pow_by_products euler_of_identity pinv_diag
            [("0", {["7" := rows_at 0 0 0]})]%string)) _ _ _).
  - vm_compute. reflexivity.
  - vm_compute. intros [=].
Defined.
